(** * ExaChem FCI driver: integral reconstruction, basis rotation and
    checkpoint/restart orchestration (src/exachem/fci/fci.hpp)

    The development embeds [generate_fcidump] and [fci_driver] as programs
    of a small state-and-error monad over a world made of the file system,
    the store of allocated distributed tensors and the trace of the
    operations one process of the group performs.  Tensor elements are kept
    abstract: a carrier [T] with a zero, an addition and a multiplication,
    about which nothing is assumed unless a statement says so.  Settings
    that only shape console output ([std::cout.precision]) are left out. *)

From Stdlib Require Import Ascii String DecimalString DecimalNat.
From stdpp Require Import base gmap strings list fin_maps.

Open Scope string_scope.
Open Scope list_scope.

(** ** Configuration and system metadata

    Only the fields the driver reads are kept. *)

Record CCSDOptions := mkCCSDOptions {
  readt : bool;
  writet : bool;
  basis : string }.

Record SCFOptions := mkSCFOptions { scf_type : string }.

Record TaskOptions := mkTaskOptions { fci : bool }.

Record OptionsMap := mkOptionsMap {
  ccsd_options : CCSDOptions;
  scf_options : SCFOptions;
  task_options : TaskOptions }.

Record SystemData := mkSystemData {
  options_map : OptionsMap;
  output_file_prefix : string;
  nbf_orig : nat;
  is_unrestricted : bool;
  nocc : nat;
  nvir : nat }.

Inductive ExecutionHW := CPU | GPU | DEFAULT.

(** The error taxonomy of the specification (section 7). *)
Inductive Error :=
| ConfigurationError
| ResourceError
| FormatError
| NumericalError
| IOError
| ProtocolError.

(** [std::endl] and the decimal rendering [operator<<] gives an unsigned
    integer. *)
Definition endl : string := String (ascii_of_nat 10) EmptyString.

Definition show_nat (n : nat) : string :=
  NilEmpty.string_of_uint (Nat.to_uint n).

(** [in >> n] on a line of decimal digits. *)
Definition read_nat (s : string) : option nat :=
  Nat.of_uint <$> NilEmpty.uint_of_string s.

(** ** Paths

    The driver builds every path by concatenation; the files it touches
    are told apart by the last character of their extension.  A path is a
    string of components separated by ["/"]; the disk is a tree, and what
    the tree is follows from how the entries are spelled. *)
Module Paths.

Fixpoint last_char (s : string) : option ascii :=
  match s with
  | EmptyString => None
  | String c s' =>
      match last_char s' with
      | None => Some c
      | Some d => Some d
      end
  end.

Fixpoint is_prefix (s k : string) : bool :=
  match s with
  | EmptyString => true
  | String a s' =>
      match k with
      | EmptyString => false
      | String b k' => Ascii.eqb a b && is_prefix s' k'
      end
  end.

(** [k] is spelled beneath [q]: [q/] is a prefix of [k]. *)
Definition beneath (q k : string) : bool := is_prefix (q +:+ "/") k.

(** The entry [k] lies in the directory [q]: it is spelled beneath [q] and
    not through the parent link [q/..], which leads out of [q] again (as
    the operator file does, which is reached through [fci/../scf]). *)
Definition inside (q k : string) : bool :=
  beneath q k && negb (is_prefix (q +:+ "/../") k).

(** The ancestors of [p], outermost first: every [q] with [q/] a prefix of
    [p]. *)
Fixpoint ancestors (p : string) : list string :=
  match p with
  | EmptyString => []
  | String c p' =>
      (if Ascii.eqb c "/" then [EmptyString] else [])
      ++ (String c <$> ancestors p')
  end.

End Paths.

Section Fci.

(** Element arithmetic of [Tensor<T>] ([T = double] in [fci_driver]). *)
Variable T : Type.
Variable zero : T.
Variable add mul : T → T → T.

(** The order in which the scheduler walks an index space of a given
    extent when it accumulates a contracted index. *)
Variable traversal : nat → list nat.

(** ** Tensors, labels and symbolic operations *)

Record Tensor := mkTensor { t_shape : list nat; t_val : list nat → T }.

Record Label := mkLabel { l_name : string; l_ext : nat }.

(** A tensor applied to index labels, as in [cholVpr(p, r, cindex)]. *)
Record LTensor := mkLT { lt_tensor : string; lt_labels : list Label }.

Definition Env := list (string * nat).

Fixpoint env_get (e : Env) (x : string) : nat :=
  match e with
  | [] => 0
  | (y, v) :: e' => if String.eqb x y then v else env_get e' x
  end.

Definition bind_labels (ls : list Label) (idx : list nat) : Env :=
  zip (l_name <$> ls) idx.

Definition at_labels (A : Tensor) (ls : list Label) (e : Env) : T :=
  t_val A (env_get e <$> (l_name <$> ls)).

Fixpoint label_mem (x : string) (ls : list Label) : bool :=
  match ls with
  | [] => false
  | l :: ls' => if String.eqb x (l_name l) then true else label_mem x ls'
  end.

(** Labels of the right-hand side that do not occur on the left, each
    once: the indices summed over (Einstein convention). *)
Fixpoint summed_labels (seen ls : list Label) : list Label :=
  match ls with
  | [] => []
  | l :: ls' =>
      if label_mem (l_name l) seen then summed_labels seen ls'
      else l :: summed_labels (l :: seen) ls'
  end.

Definition contracted (lhs a b : list Label) : list Label :=
  summed_labels lhs (a ++ b).

Fixpoint sum_over (cs : list Label) (body : Env → T) (e : Env) : T :=
  match cs with
  | [] => body e
  | c :: cs' =>
      fold_left
        (λ acc i, add acc (sum_over cs' body ((l_name c, i) :: e)))
        (traversal (l_ext c)) zero
  end.

(** Value of [lhs(..) = a(..) * b(..)] at one index tuple of the result. *)
Definition mul_val (lhs a b : list Label) (A B : Tensor) : list nat → T :=
  λ idx,
    sum_over (contracted lhs a b)
             (λ e, mul (at_labels A a e) (at_labels B b e))
             (bind_labels lhs idx).

(** ** The reconstruction of the two-electron tensor (fci.hpp:125-133) *)

Definition mo_label (name : string) (N : nat) : Label := mkLabel name N.

Definition full_v2_lhs (N : nat) : LTensor :=
  mkLT "full_v2" [mo_label "p" N; mo_label "r" N; mo_label "q" N; mo_label "s" N].
Definition cholVpr_pr (N nc : nat) : LTensor :=
  mkLT "cholVpr" [mo_label "p" N; mo_label "r" N; mkLabel "cindex" nc].
Definition cholVpr_qs (N nc : nat) : LTensor :=
  mkLT "cholVpr" [mo_label "q" N; mo_label "s" N; mkLabel "cindex" nc].

(** [full_v2(p, r, q, s) = cholVpr(p, r, cindex) * cholVpr(q, s, cindex)] *)
Definition full_v2_val (N nc : nat) (cholVpr : Tensor) : list nat → T :=
  mul_val (lt_labels (full_v2_lhs N))
          (lt_labels (cholVpr_pr N nc)) (lt_labels (cholVpr_qs N nc))
          cholVpr cholVpr.

(** ** The contraction scheduler

    A scheduler accumulates directives and runs them as one unit on
    [execute].  The tensor-algebra library behind it is an external
    dependency of the driver, not part of the sources; its directives are
    given the meaning section 4.3 of the specification states: a repeated
    index label is summed over its index space, products are accumulated
    with the element type's own addition, in the order the scheduler walks
    the index space. *)

Inductive SchedOp :=
| OpAllocate (name : string) (shape : list nat)
| OpSetMul (lhs a b : LTensor)
| OpDeallocate (names : list string).

Definition labels_fit (ls : list Label) (t : Tensor) : bool :=
  bool_decide (l_ext <$> ls = t_shape t).

Definition zero_tensor (shape : list nat) : Tensor :=
  mkTensor shape (λ _, zero).

Definition delete_all (names : list string) (st : gmap string Tensor) :
    gmap string Tensor :=
  fold_left (λ acc n, delete n acc) names st.

Definition exec_op (st : gmap string Tensor) (op : SchedOp) :
    Error + gmap string Tensor :=
  match op with
  | OpAllocate name shape => inr (<[name := zero_tensor shape]> st)
  | OpSetMul lhs a b =>
      match st !! lt_tensor lhs, st !! lt_tensor a, st !! lt_tensor b with
      | Some C, Some A, Some B =>
          if labels_fit (lt_labels lhs) C && labels_fit (lt_labels a) A
             && labels_fit (lt_labels b) B
          then inr (<[lt_tensor lhs :=
                        mkTensor (t_shape C)
                                 (mul_val (lt_labels lhs) (lt_labels a)
                                          (lt_labels b) A B)]> st)
          else inl ConfigurationError
      | _, _, _ => inl ConfigurationError
      end
  | OpDeallocate names => inr (delete_all names st)
  end.

Fixpoint exec_ops (ops : list SchedOp) (st : gmap string Tensor) :
    Error + gmap string Tensor :=
  match ops with
  | [] => inr st
  | op :: ops' =>
      match exec_op st op with
      | inl e => inl e
      | inr st' => exec_ops ops' st'
      end
  end.

(** ** The world of one run *)

Inductive Content :=
| FTensor (t : Tensor)
| FText (lines : list string)
| FFcidump (sd : SystemData) (h1 v2 : Tensor) (symvec : list Z).

Inductive Event :=
| EvHartreeFock (filename : string)
| EvPrintOptions
| EvCout (text : string)
| EvCerr (text : string)
| EvExists (path : string) (found : bool)
| EvCreateDirectories (path : string)
| EvCdSvdDriver (restart : bool) (cholfile : string)
| EvReadCount (path : string)
| EvAllocate (names : list string)
| EvFree (names : list string)
| EvReadFromDisk (tensor : string) (path : string)
| EvWriteToDisk (tensor : string) (path : string)
| EvBarrier
| EvOpen (path : string) (opened : bool)
| EvPut (path : string) (line : string)
| EvClose (path : string)
| EvExecute (ops : list SchedOp) (hw : ExecutionHW)
| EvWriteFcidump (path : string) (sd : SystemData) (h1 v2 : Tensor)
                 (symvec : list Z)
| EvMacisDriver (files_prefix : string)
| EvFlushAndSync.

(** [w_files] holds the regular files and [w_dirs] lists directories;
    every ancestor of an entry of either is a directory as well, listed or
    not.  [w_locked] holds the paths that cannot be opened for writing. *)
Record World := mkWorld {
  w_files : gmap string Content;
  w_dirs : gset string;
  w_locked : gset string;
  w_store : gmap string Tensor;
  w_trace : list Event }.

Definition set_files (f : gmap string Content) (w : World) : World :=
  mkWorld f (w_dirs w) (w_locked w) (w_store w) (w_trace w).
Definition set_dirs (d : gset string) (w : World) : World :=
  mkWorld (w_files w) d (w_locked w) (w_store w) (w_trace w).
Definition set_store (s : gmap string Tensor) (w : World) : World :=
  mkWorld (w_files w) (w_dirs w) (w_locked w) s (w_trace w).
Definition add_event (e : Event) (w : World) : World :=
  mkWorld (w_files w) (w_dirs w) (w_locked w) (w_store w) (w_trace w ++ [e]).

(** A fresh execution context over a given file system. *)
Definition initial_world (files : gmap string Content)
    (dirs locked : gset string) : World :=
  mkWorld files dirs locked ∅ [].

Inductive Result (A : Type) :=
| Ok (a : A) (w : World)
| Err (e : Error) (w : World).
#[global] Arguments Ok {A} a w.
#[global] Arguments Err {A} e w.

Definition M (A : Type) : Type := World → Result A.

Definition ret {A} (a : A) : M A := λ w, Ok a w.

Definition bind {A B} (m : M A) (k : A → M B) : M B :=
  λ w, match m w with
       | Ok a w' => k a w'
       | Err e w' => Err e w'
       end.

Definition raise {A} (e : Error) : M A := λ w, Err e w.

Definition final_world {A} (r : Result A) : World :=
  match r with Ok _ w => w | Err _ w => w end.

Definition completed {A} (r : Result A) : bool :=
  match r with Ok _ _ => true | Err _ _ => false end.

#[local] Instance M_ret : MRet M := @ret.
#[local] Instance M_bind : MBind M := λ A B k m, bind m k.

(** ** Primitive operations

    The distributed-tensor and process-group operations belong to the
    tensor-algebra library, the path operations to [std::filesystem] and
    the count-file stream to [std::ofstream].  Each one records the call
    in the trace of the process that makes it. *)

Definition log (e : Event) : M unit := λ w, Ok () (add_event e w).

(** The entries of the disk: the files and the listed directories. *)
Definition entries (files : gmap string Content) (dirs : gset string) :
    list string :=
  (map_to_list files).*1 ++ elements dirs.

(** [p] is a directory: it is listed, or an entry lies in it. *)
Definition is_directory (files : gmap string Content) (dirs : gset string)
    (p : string) : bool :=
  bool_decide (p ∈ dirs) || existsb (Paths.inside p) (entries files dirs).

Definition path_exists (files : gmap string Content) (dirs : gset string)
    (p : string) : bool :=
  bool_decide (is_Some (files !! p)) || is_directory files dirs p.

(** [q] is a regular file in the way of a directory: a file that is not
    listed as a directory and beneath which nothing is spelled (an entry
    spelled beneath a path makes the path a directory, whatever else is
    recorded for it). *)
Definition in_the_way (files : gmap string Content) (dirs : gset string)
    (q : string) : bool :=
  bool_decide (is_Some (files !! q)) && negb (bool_decide (q ∈ dirs))
  && negb (existsb (Paths.beneath q) (entries files dirs)).

(** [fs::exists] *)
Definition fs_exists (p : string) : M bool :=
  λ w, let found := path_exists (w_files w) (w_dirs w) p in
       Ok found (add_event (EvExists p found) w).

(** The directory [p] cannot be made: [p] or one of its ancestors is a
    regular file. *)
Definition dir_blocked (files : gmap string Content) (dirs : gset string)
    (p : string) : bool :=
  existsb (in_the_way files dirs) (Paths.ancestors p ++ [p]).

(** [fs::create_directories]: makes [p] and every missing ancestor of it
    (the ancestors of a listed directory are directories, so listing [p]
    makes them), and throws [filesystem_error] when [p] or one of its
    ancestors is a regular file. *)
Definition create_directories (p : string) : M unit :=
  λ w,
    let w1 := add_event (EvCreateDirectories p) w in
    if dir_blocked (w_files w) (w_dirs w) p
    then Err IOError w1
    else Ok () (set_dirs ({[p]} ∪ w_dirs w) w1).

(** [Tensor<T>::allocate] *)
Definition allocate (ts : list (string * list nat)) : M unit :=
  λ w, Ok () (add_event (EvAllocate ts.*1)
                (set_store (fold_left (λ st t, <[t.1 := zero_tensor t.2]> st)
                                      ts (w_store w)) w)).

(** [free_tensors] *)
Definition free_tensors (names : list string) : M unit :=
  λ w, Ok () (add_event (EvFree names)
                (set_store (delete_all names (w_store w)) w)).

(** The index spaces a tensor object was declared over. *)
Definition tensor_shape (name : string) : M (list nat) :=
  λ w, Ok (default [] (t_shape <$> w_store w !! name)) w.

(** Modelled from the spec: [read_from_disk] (section 4.2, 7).  The tensor
    must be allocated, a missing file is a file-open failure, and a file
    that does not hold a tensor of the allocated shape is a format error. *)
Definition read_from_disk (name path : string) : M unit :=
  λ w,
    let w1 := add_event (EvReadFromDisk name path) w in
    match w_store w !! name with
    | None => Err ProtocolError w1
    | Some cur =>
        match w_files w !! path with
        | None => Err IOError w1
        | Some (FTensor v) =>
            if bool_decide (t_shape v = t_shape cur)
            then Ok () (set_store (<[name := v]> (w_store w)) w1)
            else Err FormatError w1
        | Some _ => Err FormatError w1
        end
    end.

(** Modelled from the spec: [write_to_disk] (section 4.2, 7).  The tensor
    must be allocated; a path that cannot be opened for writing is a
    file-write failure. *)
Definition write_to_disk (name path : string) : M unit :=
  λ w,
    let w1 := add_event (EvWriteToDisk name path) w in
    match w_store w !! name with
    | None => Err ProtocolError w1
    | Some v =>
        if bool_decide (path ∈ w_locked w) then Err IOError w1
        else Ok () (set_files (<[path := FTensor v]> (w_files w)) w1)
    end.

(** [ec.pg().barrier()] *)
Definition barrier : M unit := log EvBarrier.

(** [sch ... .execute(hw)] *)
Definition execute (ops : list SchedOp) (hw : ExecutionHW) : M unit :=
  λ w,
    let w1 := add_event (EvExecute ops hw) w in
    match exec_ops ops (w_store w) with
    | inl e => Err e w1
    | inr st => Ok () (set_store st w1)
    end.

(** [std::ofstream out(path, std::ios::out)]: truncates the file when it
    can be opened; the result is [!!out]. *)
Definition ofstream_open (path : string) : M bool :=
  λ w,
    if bool_decide (path ∈ w_locked w)
    then Ok false (add_event (EvOpen path false) w)
    else Ok true (add_event (EvOpen path true)
                    (set_files (<[path := FText []]> (w_files w)) w)).

Definition append_line (line : string) (c : Content) : Content :=
  match c with
  | FText ls => FText (ls ++ [line])
  | other => other
  end.

(** [out << value << std::endl]: a stream that failed to open ignores it. *)
Definition ofstream_put (opened : bool) (path line : string) : M unit :=
  λ w,
    let w1 := add_event (EvPut path line) w in
    if opened
    then Ok () (set_files (alter (append_line line) path (w_files w)) w1)
    else Ok () w1.

(** [out.close()] *)
Definition ofstream_close (path : string) : M unit := log (EvClose path).

(** Modelled from the spec: [fcidump::write_fcidump_file], the integral
    dump exporter (section 4.6, 6), absent from the sources.  It receives
    the system metadata, the one- and two-electron tensors and the
    symmetry labels, and writes one interchange file. *)
Definition write_fcidump_file (sd : SystemData) (h1 v2 : string)
    (symvec : list Z) (path : string) : M unit :=
  λ w,
    match w_store w !! h1, w_store w !! v2 with
    | Some H, Some V =>
        Ok () (add_event (EvWriteFcidump path sd H V symvec)
                 (set_files (<[path := FFcidump sd H V symvec]> (w_files w)) w))
    | _, _ => Err ProtocolError w
    end.

(** ** Upstream collaborators

    The SCF stage, the molecular-orbital index-space setup and the Cholesky
    stage are outside the sources.  Their numeric results are parameters
    of the development. *)

Record Upstream := mkUpstream {
  u_nao : nat;
  u_lcao : list nat → T;
  u_d_f1 : list nat → T;
  u_cholVpr : list nat → T;
  u_chol_count : nat;
  u_max_cvecs : nat }.

Variable hartree_fock_driver : string → OptionsMap → SystemData.
Variable setupMOIS : SystemData → nat.
Variable upstream : SystemData → Upstream.

(** Whether the build defines [USE_MACIS]. *)
Variable USE_MACIS : bool.

Record CDResult := mkCDResult {
  cd_chol_count : nat;
  cd_max_cvecs : nat;
  cd_CI : nat }.

Definition put_tensor (name : string) (t : Tensor) : M unit :=
  λ w, Ok () (set_store (<[name := t]> (w_store w)) w).

(** Modelled from the spec: the restart path of the Cholesky stage reads
    the vector count back from the companion text file (section 6), which
    holds a single integer.  A missing file is a file-open failure; a file
    that does not start with a count leaves the auxiliary index space
    undefined, a configuration error. *)
Definition read_count (path : string) : M nat :=
  λ w,
    let w1 := add_event (EvReadCount path) w in
    match w_files w !! path with
    | None => Err IOError w1
    | Some (FText (line :: _)) =>
        match read_nat line with
        | Some n => Ok n w1
        | None => Err ConfigurationError w1
        end
    | Some _ => Err ConfigurationError w1
    end.

(** Modelled from the spec: [cd_svd_driver], the Cholesky collaborator
    (sections 1, 3, 4.5, 6), absent from the sources.  Without restart it
    delivers the factorized vectors, the one-electron operator and the
    vector count it computed and performs no checkpoint I/O.  On restart it
    recomputes neither tensor: it takes the vector count from the count
    file and hands back tensors of the matching shape for the driver to
    fill from the checkpoint.  The orbital coefficients come from the SCF
    result in both cases; they are not part of the checkpoint. *)
Definition cd_svd_driver (sd : SystemData) (N : nat) (restart : bool)
    (cholfile : string) : M CDResult :=
  log (EvCdSvdDriver restart cholfile);;
  count ← (if restart then read_count cholfile
           else mret (u_chol_count (upstream sd)));
  put_tensor "cholVpr"
    (if restart then zero_tensor [N; N; count]
     else mkTensor [N; N; count] (u_cholVpr (upstream sd)));;
  put_tensor "d_f1"
    (if restart then zero_tensor [N; N]
     else mkTensor [N; N] (u_d_f1 (upstream sd)));;
  put_tensor "lcao" (mkTensor [u_nao (upstream sd); N] (u_lcao (upstream sd)));;
  mret (mkCDResult count (u_max_cvecs (upstream sd)) count).

(** ** generate_fcidump (fci.hpp:18-64) *)

Definition out_fp (sd : SystemData) : string :=
  output_file_prefix sd +:+ "." +:+ basis (ccsd_options (options_map sd)).

(** [files_dir], [files_prefix], [hcorefile] and [fcid_file] of
    [generate_fcidump]. *)
Definition fcidump_files_dir (sd : SystemData) : string :=
  out_fp sd +:+ "_files/" +:+ scf_type (scf_options (options_map sd)) +:+ "/fci".
Definition fcidump_files_prefix (sd : SystemData) : string :=
  fcidump_files_dir sd +:+ "/" +:+ out_fp sd.
Definition hcorefile (sd : SystemData) : string :=
  fcidump_files_dir sd +:+ "/../scf/" +:+ out_fp sd +:+ ".hcore".
Definition fcid_file (sd : SystemData) : string :=
  fcidump_files_prefix sd +:+ ".fcidump".

(** The two-step rotation program handed to the scheduler
    (fci.hpp:46-51). *)
Definition rotation_program (MSO AO : nat) : list SchedOp :=
  let z1 := mkLabel "z1" MSO in
  let z2 := mkLabel "z2" MSO in
  let mu := mkLabel "mu" AO in
  let nu := mkLabel "nu" AO in
  [ OpAllocate "tmp" [MSO; AO];
    OpSetMul (mkLT "tmp" [z1; nu]) (mkLT "lcao" [mu; z1]) (mkLT "hcore" [mu; nu]);
    OpSetMul (mkLT "hcore_mo" [z1; z2]) (mkLT "tmp" [z1; nu]) (mkLT "lcao" [nu; z2]);
    OpDeallocate ["tmp"; "hcore"] ].

(** [symvec] (fci.hpp:54-56) *)
Definition symvec (sd : SystemData) : list Z :=
  let v := replicate (nbf_orig sd) 0%Z in
  let v := if is_unrestricted sd then resize (2 * nbf_orig sd) 0%Z v else v in
  (λ _, 1%Z) <$> v.

Definition generate_fcidump (sys_data : SystemData) (MSO : nat)
    (ex_hw : ExecutionHW) : M string :=
  lcao_spaces ← tensor_shape "lcao";
  let AO := hd 0 lcao_spaces in
  allocate [("hcore", [AO; AO]); ("hcore_mo", [MSO; MSO])];;
  found ← fs_exists (fcidump_files_dir sys_data);
  (if negb found then create_directories (fcidump_files_dir sys_data)
   else mret ());;
  read_from_disk "hcore" (hcorefile sys_data);;
  execute (rotation_program MSO AO) CPU;;
  write_fcidump_file sys_data "hcore_mo" "full_v2" (symvec sys_data)
                     (fcid_file sys_data);;
  free_tensors ["hcore_mo"];;
  mret (fcidump_files_prefix sys_data).

(** ** fci_driver (fci.hpp:66-148)

    One process of the group, of rank [rank], on the execution resource
    [ex_hw] of its context.  The world a run starts from is the one the
    SCF stage leaves behind.  Tensor I/O and scheduler calls are collective:
    the event a process logs for one stands for its part in it, and the
    effect on the shared file system is that of the whole group.

    The store holds the tensors [fci_driver] and [generate_fcidump] name
    themselves.  The four tensors of the SCF stage ([C_AO], [F_AO],
    [C_beta_AO], [F_beta_AO], fci.hpp:73-74) are passed on to the Cholesky
    stage, which deallocates [F_AO] and [C_AO] (fci.hpp:95); they belong
    to the collaborators and are not part of the store.  The MACIS driver
    (fci.hpp:139-142) is a collaborator too: its call is recorded, and a
    run that goes on past the call is one in which it returned. *)

(** [files_dir], [files_prefix], [f1file], [v2file] and [cholfile] of
    [fci_driver]. *)
Definition files_dir (sd : SystemData) : string :=
  out_fp sd +:+ "_files/" +:+ scf_type (scf_options (options_map sd)).
Definition files_prefix (sd : SystemData) : string :=
  files_dir sd +:+ "/" +:+ out_fp sd.
Definition f1file (sd : SystemData) : string := files_prefix sd +:+ ".f1_mo".
Definition v2file (sd : SystemData) : string := files_prefix sd +:+ ".cholv2".
Definition cholfile (sd : SystemData) : string := files_prefix sd +:+ ".cholcount".

(** [ccsd_options.readt || (fs::exists(f1file) && fs::exists(v2file))],
    with the short-circuit evaluation of [||] and [&&]. *)
Definition ccsd_restart_decision (sd : SystemData) : M bool :=
  if readt (ccsd_options (options_map sd)) then mret true
  else
    found ← fs_exists (f1file sd);
    if found : bool then fs_exists (v2file sd) else mret false.

(** The restore branch (fci.hpp:102-106). *)
Definition restore_branch (sd : SystemData) : M unit :=
  read_from_disk "d_f1" (f1file sd);;
  read_from_disk "cholVpr" (v2file sd);;
  barrier.

(** The persist branch (fci.hpp:108-121). *)
Definition persist_branch (rank : nat) (sd : SystemData) (chol_count : nat) :
    M unit :=
  found ← fs_exists (files_dir sd);
  (if negb found then create_directories (files_dir sd) else mret ());;
  write_to_disk "d_f1" (f1file sd);;
  write_to_disk "cholVpr" (v2file sd);;
  if (rank =? 0)%nat then
    (opened ← ofstream_open (cholfile sd);
     (if negb opened
      then log (EvCerr ("Error opening file " +:+ cholfile sd +:+ endl))
      else mret ());;
     ofstream_put opened (cholfile sd) (show_nat chol_count);;
     ofstream_close (cholfile sd)) : M unit
  else mret ().

Definition fci_driver (rank : nat) (ex_hw : ExecutionHW) (filename : string)
    (options : OptionsMap) : M unit :=
  log (EvHartreeFock filename);;
  let sys_data := hartree_fock_driver filename options in
  let ccsd := ccsd_options (options_map sys_data) in
  (if (rank =? 0)%nat then log EvPrintOptions else mret ());;
  (if (rank =? 0)%nat
   then log (EvCout (endl +:+ "#occupied, #virtual = " +:+ show_nat (nocc sys_data)
                     +:+ ", " +:+ show_nat (nvir sys_data) +:+ endl))
   else mret ());;
  let MO := setupMOIS sys_data in
  ccsd_restart ← ccsd_restart_decision sys_data;
  cd ← cd_svd_driver sys_data MO ccsd_restart (cholfile sys_data);
  let N := MO in
  (if ccsd_restart : bool then restore_branch sys_data
   else if writet ccsd then persist_branch rank sys_data (cd_chol_count cd)
   else mret ());;
  barrier;;
  allocate [("full_v2", [N; N; N; N])];;
  execute [OpSetMul (full_v2_lhs N) (cholVpr_pr N (cd_CI cd))
                    (cholVpr_qs N (cd_CI cd))] ex_hw;;
  free_tensors ["cholVpr"];;
  prefix ← generate_fcidump sys_data MO ex_hw;
  (if USE_MACIS && fci (task_options options)
   then log (EvMacisDriver prefix) else mret ());;
  free_tensors ["lcao"; "d_f1"; "full_v2"];;
  log EvFlushAndSync.

(** A run of the driver of one process on a fresh execution context. *)
Definition run_fci_driver (rank : nat) (ex_hw : ExecutionHW) (filename : string)
    (options : OptionsMap) (files : gmap string Content)
    (dirs locked : gset string) : Result unit :=
  fci_driver rank ex_hw filename options (initial_world files dirs locked).

(** ** Reference definitions, from the specification's words

    The matrix product and transpose of two-index tensors, against which
    the rotation program is compared ([LCAO^T · H · LCAO]); the inner sum
    runs over an index space of extent [n] in the scheduler's order. *)

Definition transpose (A : Tensor) : Tensor :=
  mkTensor (rev (t_shape A))
           (λ idx, match idx with
                   | [i; j] => t_val A [j; i]
                   | _ => zero
                   end).

Definition matmul (n : nat) (A B : Tensor) : Tensor :=
  mkTensor [hd 0 (t_shape A); nth 1 (t_shape B) 0]
           (λ idx, match idx with
                   | [i; j] =>
                       fold_left (λ acc k, add acc (mul (t_val A [i; k]) (t_val B [k; j])))
                                 (traversal n) zero
                   | _ => zero
                   end).

Definition is_contraction (op : SchedOp) : bool :=
  match op with OpSetMul _ _ _ => true | _ => false end.

(** The tensor the reconstruction step leaves in [full_v2]. *)
Definition full_v2_tensor (N nc : nat) (cholVpr : Tensor) : Tensor :=
  mkTensor [N; N; N; N] (full_v2_val N nc cholVpr).

(** The tensors the two rotation steps leave in [tmp] and [hcore_mo]. *)
Definition tmp_tensor (MSO AO : nat) (lcao hcore : Tensor) : Tensor :=
  mkTensor [MSO; AO]
    (mul_val [mkLabel "z1" MSO; mkLabel "nu" AO]
             [mkLabel "mu" AO; mkLabel "z1" MSO]
             [mkLabel "mu" AO; mkLabel "nu" AO] lcao hcore).

Definition hcore_mo_tensor (MSO AO : nat) (lcao hcore : Tensor) : Tensor :=
  mkTensor [MSO; MSO]
    (mul_val [mkLabel "z1" MSO; mkLabel "z2" MSO]
             [mkLabel "z1" MSO; mkLabel "nu" AO]
             [mkLabel "nu" AO; mkLabel "z2" MSO]
             (tmp_tensor MSO AO lcao hcore) lcao).

(** ** Expected traces

    The events a completed run appends, stage by stage. *)

Definition prologue_events (rank : nat) (filename : string) (sd : SystemData) :
    list Event :=
  EvHartreeFock filename ::
  (if (rank =? 0)%nat
   then [EvPrintOptions;
         EvCout (endl +:+ "#occupied, #virtual = " +:+ show_nat (nocc sd)
                 +:+ ", " +:+ show_nat (nvir sd) +:+ endl)]
   else []).

Definition reconstruction_events (N nc : nat) (hw : ExecutionHW) : list Event :=
  [EvAllocate ["full_v2"];
   EvExecute [OpSetMul (full_v2_lhs N) (cholVpr_pr N nc) (cholVpr_qs N nc)] hw;
   EvFree ["cholVpr"]].

Definition export_events (sd : SystemData) (MSO AO : nat) (dir_found : bool)
    (h1 v2 : Tensor) : list Event :=
  [EvAllocate ["hcore"; "hcore_mo"]; EvExists (fcidump_files_dir sd) dir_found]
  ++ (if dir_found then [] else [EvCreateDirectories (fcidump_files_dir sd)])
  ++ [EvReadFromDisk "hcore" (hcorefile sd);
      EvExecute (rotation_program MSO AO) CPU;
      EvWriteFcidump (fcid_file sd) sd h1 v2 (symvec sd);
      EvFree ["hcore_mo"]].

Definition epilogue_events (options : OptionsMap) (prefix : string) : list Event :=
  (if USE_MACIS && fci (task_options options) then [EvMacisDriver prefix] else [])
  ++ [EvFree ["lcao"; "d_f1"; "full_v2"]; EvFlushAndSync].

(** Whether an event reads, writes or opens the file at a path. *)
Definition touches (p : string) (e : Event) : bool :=
  match e with
  | EvReadCount q | EvReadFromDisk _ q | EvWriteToDisk _ q | EvOpen q _
  | EvPut q _ | EvClose q | EvWriteFcidump q _ _ _ _ => String.eqb p q
  | _ => false
  end.

(** Whether an event is checkpoint I/O: a read, write or open of the
    one-electron file, the factorized-vector file or the count file. *)
Definition checkpoint_io (sd : SystemData) (e : Event) : bool :=
  touches (f1file sd) e || touches (v2file sd) e || touches (cholfile sd) e.

(** [m] appends to the trace only events that satisfy [P], whether it
    returns or fails. *)
Definition emits {A} (P : Event → Prop) (m : M A) : Prop :=
  ∀ w, ∃ evs, w_trace (final_world (m w)) = w_trace w ++ evs ∧ Forall P evs.

(** [m] leaves the file at [p] as it found it, whether it returns or
    fails. *)
Definition leaves_file {A} (p : string) (m : M A) : Prop :=
  ∀ w, w_files (final_world (m w)) !! p = w_files w !! p.

(** [m] returns only from a world in which [p] holds a tensor. *)
Definition needs_tensor_file {A} (p : string) (m : M A) : Prop :=
  ∀ w, completed (m w) = true → ∃ H, w_files w !! p = Some (FTensor H).

(** ** The driver, stage by stage

    [fci_driver] is the prologue and the restart decision followed by
    [after_decision]: the Cholesky stage, the checkpoint branch and
    [driver_tail], the part every branch shares. *)

Definition restart_requested (sd : SystemData) (files : gmap string Content)
    (dirs : gset string) : bool :=
  readt (ccsd_options (options_map sd))
  || (path_exists files dirs (f1file sd) && path_exists files dirs (v2file sd)).

Definition decision_events (sd : SystemData) (files : gmap string Content)
    (dirs : gset string) : list Event :=
  if readt (ccsd_options (options_map sd)) then []
  else
    EvExists (f1file sd) (path_exists files dirs (f1file sd))
    :: (if path_exists files dirs (f1file sd)
        then [EvExists (v2file sd) (path_exists files dirs (v2file sd))]
        else []).

Definition checkpoint_branch (rank : nat) (sd : SystemData)
    (ccsd_restart : bool) (chol_count : nat) : M unit :=
  if ccsd_restart then restore_branch sd
  else if writet (ccsd_options (options_map sd))
       then persist_branch rank sd chol_count
       else mret ().

Definition driver_tail (ex_hw : ExecutionHW) (sd : SystemData)
    (options : OptionsMap) (CI : nat) : M unit :=
  barrier;;
  allocate [("full_v2", [setupMOIS sd; setupMOIS sd; setupMOIS sd; setupMOIS sd])];;
  execute [OpSetMul (full_v2_lhs (setupMOIS sd)) (cholVpr_pr (setupMOIS sd) CI)
                    (cholVpr_qs (setupMOIS sd) CI)] ex_hw;;
  free_tensors ["cholVpr"];;
  prefix ← generate_fcidump sd (setupMOIS sd) ex_hw;
  (if USE_MACIS && fci (task_options options)
   then log (EvMacisDriver prefix) else mret ());;
  free_tensors ["lcao"; "d_f1"; "full_v2"];;
  log EvFlushAndSync.

Definition after_decision (rank : nat) (ex_hw : ExecutionHW) (sd : SystemData)
    (options : OptionsMap) (ccsd_restart : bool) : M unit :=
  cd ← cd_svd_driver sd (setupMOIS sd) ccsd_restart (cholfile sd);
  checkpoint_branch rank sd ccsd_restart (cd_chol_count cd);;
  driver_tail ex_hw sd options (cd_CI cd).

(** The events of the persist branch: [found] tells whether the checkpoint
    directory existed, [opened] whether the count file could be opened. *)
Definition persist_events (rank : nat) (sd : SystemData) (found opened : bool)
    (chol_count : nat) : list Event :=
  [EvExists (files_dir sd) found]
  ++ (if found then [] else [EvCreateDirectories (files_dir sd)])
  ++ [EvWriteToDisk "d_f1" (f1file sd); EvWriteToDisk "cholVpr" (v2file sd)]
  ++ (if (rank =? 0)%nat
      then [EvOpen (cholfile sd) opened]
           ++ (if opened then []
               else [EvCerr ("Error opening file " +:+ cholfile sd +:+ endl)])
           ++ [EvPut (cholfile sd) (show_nat chol_count); EvClose (cholfile sd)]
      else []).

(** The tensors the Cholesky stage computed, as the driver holds them. *)
Definition computed_cholVpr (sd : SystemData) : Tensor :=
  mkTensor [setupMOIS sd; setupMOIS sd; u_chol_count (upstream sd)]
           (u_cholVpr (upstream sd)).
Definition computed_d_f1 (sd : SystemData) : Tensor :=
  mkTensor [setupMOIS sd; setupMOIS sd] (u_d_f1 (upstream sd)).
Definition scf_lcao (sd : SystemData) : Tensor :=
  mkTensor [u_nao (upstream sd); setupMOIS sd] (u_lcao (upstream sd)).

(** [m] logs [e] first, whether it then returns or fails. *)
Definition starts_with {A} (e : Event) (m : M A) : Prop :=
  ∀ w, ∃ post, w_trace (final_world (m w)) = w_trace w ++ e :: post.

(** Two runs are of the same job when they differ at most in the
    checkpoint flags. *)
Definition same_job (sd sd' : SystemData) : Prop :=
  output_file_prefix sd = output_file_prefix sd'
  ∧ basis (ccsd_options (options_map sd)) = basis (ccsd_options (options_map sd'))
  ∧ scf_type (scf_options (options_map sd)) = scf_type (scf_options (options_map sd'))
  ∧ nbf_orig sd = nbf_orig sd'
  ∧ is_unrestricted sd = is_unrestricted sd'
  ∧ nocc sd = nocc sd'
  ∧ nvir sd = nvir sd'
  ∧ setupMOIS sd = setupMOIS sd'
  ∧ upstream sd = upstream sd'.

(** Whether an event is the Cholesky stage asked to recompute. *)
Definition is_recompute (e : Event) : bool :=
  match e with EvCdSvdDriver false _ => true | _ => false end.

Definition is_export (e : Event) : bool :=
  match e with EvWriteFcidump _ _ _ _ _ => true | _ => false end.

(** An event that is neither a tensor read nor a tensor write. *)
Definition not_tensor_io (e : Event) : Prop :=
  ∀ name path, e ≠ EvReadFromDisk name path ∧ e ≠ EvWriteToDisk name path.

(** ** Judgements for further properties *)

(** [m] preserves a property of the files and directories on disk,
    whether it returns or fails. *)
Definition keeps {A} (I : gmap string Content → gset string → Prop)
    (m : M A) : Prop :=
  ∀ w, I (w_files w) (w_dirs w) →
       I (w_files (final_world (m w))) (w_dirs (final_world (m w))).

(** What a program may do to the disk without breaking [I]: write the file
    at [p], append to it, create the directory [p]. *)
Definition write_stable (I : gmap string Content → gset string → Prop)
    (p : string) : Prop :=
  ∀ f d c, I f d → I (<[p := c]> f) d.
Definition alter_stable (I : gmap string Content → gset string → Prop)
    (p : string) : Prop :=
  ∀ f d g, I f d → I (alter g p f) d.
Definition mkdir_stable (I : gmap string Content → gset string → Prop)
    (p : string) : Prop :=
  ∀ f d, I f d → I f ({[p]} ∪ d).

(** What holds of the result and of the world whenever [m] returns from
    [w]. *)
Definition wp {A} (m : M A) (Q : A → World → Prop) (w : World) : Prop :=
  match m w with Ok a w' => Q a w' | Err _ _ => True end.

(** The tensors a scheduler directive allocates, assigns or frees. *)
Definition op_writes (op : SchedOp) : list string :=
  match op with
  | OpAllocate name _ => [name]
  | OpSetMul lhs _ _ => [lt_tensor lhs]
  | OpDeallocate names => names
  end.

(** The tensors [generate_fcidump] works with, and those of the whole
    driver. *)
Definition fcidump_temporaries : list string := ["hcore"; "hcore_mo"; "tmp"].
Definition driver_tensors : list string :=
  ["cholVpr"; "d_f1"; "lcao"; "full_v2"] ++ fcidump_temporaries.

(** The events of a trace that satisfy [f], in their order. *)
Definition select (f : Event → bool) (t : list Event) : list Event :=
  List.filter f t.

(** The stages of the pipeline: the Cholesky collaborator, the scheduler
    executions and the exporter. *)
Definition is_stage (e : Event) : bool :=
  match e with
  | EvCdSvdDriver _ _ | EvExecute _ _ | EvWriteFcidump _ _ _ _ _ => true
  | _ => false
  end.

Definition is_barrier (e : Event) : bool :=
  match e with EvBarrier => true | _ => false end.

Definition is_macis (e : Event) : bool :=
  match e with EvMacisDriver _ => true | _ => false end.

(** An event that is neither a stage of the pipeline, nor a barrier, nor
    the call of the MACIS driver. *)
Definition quiet (e : Event) : Prop :=
  is_stage e = false ∧ is_barrier e = false ∧ is_macis e = false.

(** The two checkpoint tensors are on disk. *)
Definition checkpoint_on_disk (sd : SystemData) (f : gmap string Content)
    (d : gset string) : Prop :=
  ∃ F V, f !! f1file sd = Some (FTensor F) ∧ f !! v2file sd = Some (FTensor V).

(** [m] always returns. *)
Definition never_fails {A} (m : M A) : Prop := ∀ w, completed (m w) = true.

(** The file at [p] is as it was and the events logged since satisfy
    [P]. *)
Definition untouched (p : string) (P : Event → Prop) (w w' : World) : Prop :=
  w_files w' !! p = w_files w !! p
  ∧ ∃ evs, w_trace w' = w_trace w ++ evs ∧ Forall P evs.

(** What a failing run of [m] has done. *)
Definition on_failure {A} (I : World → World → Prop) (m : M A) : Prop :=
  ∀ w, completed (m w) = false → I w (final_world (m w)).

(** An event after which the dump exists or is being used: the exporter's
    write, the call of the MACIS driver, the final flush. *)
Definition past_export (e : Event) : bool :=
  is_export e || is_macis e
  || match e with EvFlushAndSync => true | _ => false end.

(** ** Two processes of the group

    What is guarded by [rank == 0] in the source: the printing of the
    options and of the orbital counts, and the stream of the count file. *)
Definition rank0_only (e : Event) : bool :=
  match e with
  | EvPrintOptions | EvCout _ | EvCerr _ | EvOpen _ _ | EvPut _ _ | EvClose _ =>
      true
  | _ => false
  end.

(** The calls every process makes. *)
Definition shared (e : Event) : bool := negb (rank0_only e).

(** The trees of two disks are the same: the same paths have an entry
    inside them, and the same paths have something spelled beneath them. *)
Definition same_tree (w1 w2 : World) : Prop :=
  ∀ q,
    existsb (Paths.inside q) (entries (w_files w1) (w_dirs w1))
    = existsb (Paths.inside q) (entries (w_files w2) (w_dirs w2))
    ∧ existsb (Paths.beneath q) (entries (w_files w1) (w_dirs w1))
      = existsb (Paths.beneath q) (entries (w_files w2) (w_dirs w2)).

(** Two processes agree: same tensors, same directories, same files
    outside [X], the same tree, and the same calls so far apart from
    those guarded by the rank; the files of [K] are there for both. *)
Definition agree (X K : list string) (w1 w2 : World) : Prop :=
  (∀ q, q ∉ X → w_files w1 !! q = w_files w2 !! q)
  ∧ w_dirs w1 = w_dirs w2
  ∧ w_locked w1 = w_locked w2
  ∧ w_store w1 = w_store w2
  ∧ select shared (w_trace w1) = select shared (w_trace w2)
  ∧ same_tree w1 w2
  ∧ Forall (λ k, is_Some (w_files w1 !! k) ∧ is_Some (w_files w2 !! k)) K.

Definition alike (X K : list string) {A} (r1 r2 : Result A) : Prop :=
  match r1, r2 with
  | Ok a1 w1, Ok a2 w2 => a1 = a2 ∧ agree X K w1 w2
  | Err e1 w1, Err e2 w2 => e1 = e2 ∧ agree X [] w1 w2
  | _, _ => False
  end.

(** Run from worlds that agree, with the files of [K] in place, [m1] and
    [m2] end alike, with the files of [K'] in place when they return. *)
Definition in_step (X K K' : list string) {A} (m1 m2 : M A) : Prop :=
  ∀ w1 w2, agree X K w1 w2 → alike X K' (m1 w1) (m2 w2).

(** [m] always returns, and all it does is guarded by the rank: it logs
    only rank-guarded calls, writes only files of [X] and leaves the tree
    as it is when the files of [K] are in place. *)
Definition rank_local (X K : list string) {A} (m : M A) : Prop :=
  ∀ w, Forall (λ k, is_Some (w_files w !! k)) K →
       ∃ a w', m w = Ok a w' ∧ agree X K w w'.

(** No character of [s] is a slash. *)
Fixpoint no_slash (s : string) : bool :=
  match s with
  | EmptyString => true
  | String c s' => negb (Ascii.eqb c "/") && no_slash s'
  end.

(** Neither the probe of the checkpoint directory, nor its creation,
    nor the write of the one-electron checkpoint. *)
Definition outside_persist (sd : SystemData) (e : Event) : Prop :=
  (∀ b, e ≠ EvExists (files_dir sd) b)
  ∧ e ≠ EvCreateDirectories (files_dir sd)
  ∧ e ≠ EvWriteToDisk "d_f1" (f1file sd).

(** How a run ended. *)
Definition outcome {A} (r : Result A) : option Error :=
  match r with Ok _ _ => None | Err e _ => Some e end.

(** * Properties *)

(** ** Paths *)

Lemma last_char_app (s t : string) :
  t ≠ "" → Paths.last_char (s +:+ t) = Paths.last_char t.
Proof.
  intros Ht. induction s as [|c s IH]; simpl; [done|].
  rewrite IH. destruct t as [|d t]; [done|].
  simpl. by destruct (Paths.last_char t).
Qed.

Lemma append_cons_nonempty (c : ascii) (s t : string) : String c s +:+ t ≠ "".
Proof. unfold String.append. discriminate. Qed.

Lemma append_nonempty_r (s : string) (c : ascii) (t : string) :
  s +:+ String c t ≠ "".
Proof. destruct s; unfold String.append; discriminate. Qed.

Lemma last_char_differs (s t : string) :
  Paths.last_char s ≠ Paths.last_char t → s ≠ t.
Proof. intros H ->. by apply H. Qed.

Lemma last_char_f1file sd : Paths.last_char (f1file sd) = Some "o"%char.
Proof. unfold f1file. by rewrite last_char_app. Qed.

Lemma last_char_v2file sd : Paths.last_char (v2file sd) = Some "2"%char.
Proof. unfold v2file. by rewrite last_char_app. Qed.

Lemma last_char_cholfile sd : Paths.last_char (cholfile sd) = Some "t"%char.
Proof. unfold cholfile. by rewrite last_char_app. Qed.

Lemma last_char_hcorefile sd : Paths.last_char (hcorefile sd) = Some "e"%char.
Proof.
  unfold hcorefile.
  rewrite last_char_app by apply append_cons_nonempty.
  rewrite last_char_app by apply append_nonempty_r.
  by rewrite last_char_app.
Qed.

Lemma last_char_fcid_file sd : Paths.last_char (fcid_file sd) = Some "p"%char.
Proof. unfold fcid_file. by rewrite last_char_app. Qed.

(** ** The tree of the disk *)

Lemma append_cons (c : ascii) (s t : string) :
  String c s +:+ t = String c (s +:+ t).
Proof. done. Qed.

Lemma append_empty_l (s : string) : "" +:+ s = s.
Proof. done. Qed.

Lemma append_assoc (a b c : string) : (a +:+ b) +:+ c = a +:+ (b +:+ c).
Proof.
  induction a as [|x a IH]; [done|]. by rewrite !append_cons, IH.
Qed.

Lemma prefix_spec (s k : string) :
  Paths.is_prefix s k = true ↔ ∃ rest, k = s +:+ rest.
Proof.
  revert k. induction s as [|a s IH]; intros k; simpl.
  - split; [intros _; exists k; reflexivity|intros _; reflexivity].
  - destruct k as [|b k];
      [split; [done|intros [rest Hk]; by rewrite append_cons in Hk]|].
    rewrite andb_true_iff, IH, Ascii.eqb_eq.
    split.
    + intros [-> [rest ->]]. exists rest. by rewrite append_cons.
    + intros [rest Hk]. rewrite append_cons in Hk. simplify_eq.
      split; [done|by exists rest].
Qed.

Lemma beneath_spec (q k : string) :
  Paths.beneath q k = true ↔ ∃ rest, k = q +:+ "/" +:+ rest.
Proof.
  unfold Paths.beneath. rewrite prefix_spec.
  split; intros [rest ->]; exists rest; by rewrite ?append_assoc.
Qed.

Lemma ancestors_spec (q p : string) :
  q ∈ Paths.ancestors p → ∃ rest, p = q +:+ "/" +:+ rest.
Proof.
  revert q. induction p as [|c p IH]; intros q; simpl.
  - by intros ?%elem_of_nil.
  - rewrite elem_of_app, list_elem_of_fmap. intros [Hq|(q' & -> & Hq')].
    + destruct (Ascii.eqb_spec c "/") as [->|]; [|by apply elem_of_nil in Hq].
      apply list_elem_of_singleton in Hq as ->. exists p. reflexivity.
    + destruct (IH _ Hq') as [rest ->]. exists rest. reflexivity.
Qed.

(** What is beneath a path is beneath each of its ancestors, and beneath
    the path itself. *)
Lemma beneath_chain (p q k : string) :
  Paths.beneath p k = true → q ∈ Paths.ancestors p ++ [p] →
  Paths.beneath q k = true.
Proof.
  intros [r1 ->]%beneath_spec [Hq| ->%list_elem_of_singleton]%elem_of_app.
  - destruct (ancestors_spec _ _ Hq) as [r2 ->]. apply beneath_spec.
    exists (r2 +:+ "/" +:+ r1). by rewrite !append_assoc.
  - apply beneath_spec. by exists r1.
Qed.

Lemma elem_of_entries (f : gmap string Content) (d : gset string) k :
  k ∈ entries f d ↔ is_Some (f !! k) ∨ k ∈ d.
Proof.
  unfold entries. rewrite elem_of_app, list_elem_of_fmap, elem_of_elements.
  split; intros [Hk|Hk]; try by right.
  - left. destruct Hk as ([k' c] & -> & Hk%elem_of_map_to_list). by exists c.
  - left. destruct Hk as [c Hk]. exists (k, c). by rewrite elem_of_map_to_list.
Qed.

Lemma existsb_entries (P : string → bool) (f : gmap string Content)
    (d : gset string) :
  existsb P (entries f d) = true
  ↔ ∃ k, (is_Some (f !! k) ∨ k ∈ d) ∧ P k = true.
Proof.
  rewrite existsb_exists. split; intros (k & Hk & HP); exists k.
  - by rewrite <- elem_of_entries, list_elem_of_In.
  - by rewrite <- list_elem_of_In, elem_of_entries.
Qed.

Lemma path_exists_spec (f : gmap string Content) (d : gset string) p :
  path_exists f d p = true
  ↔ is_Some (f !! p) ∨ p ∈ d
    ∨ ∃ k, (is_Some (f !! k) ∨ k ∈ d) ∧ Paths.inside p k = true.
Proof.
  unfold path_exists, is_directory.
  by rewrite !orb_true_iff, !bool_decide_eq_true, existsb_entries.
Qed.

(** The disk only grows: what exists goes on existing when entries are
    added. *)
Lemma path_exists_mono (f f' : gmap string Content) (d d' : gset string) p :
  (∀ k, is_Some (f !! k) → is_Some (f' !! k)) → d ⊆ d' →
  path_exists f d p = true → path_exists f' d' p = true.
Proof.
  intros Hf Hd. rewrite !path_exists_spec.
  intros [Hp|[Hp|(k & [Hk|Hk] & Hin)]]; auto.
  - right. right. exists k. auto.
  - right. right. exists k. auto.
Qed.

Lemma is_Some_insert_mono (f : gmap string Content) p c k :
  is_Some (f !! k) → is_Some (<[p := c]> f !! k).
Proof.
  intros Hk. destruct (decide (p = k)) as [->|Hne].
  - rewrite lookup_insert_eq. by eexists.
  - by rewrite lookup_insert_ne.
Qed.

Lemma is_Some_alter_mono (f : gmap string Content) p g k :
  is_Some (f !! k) → is_Some (alter g p f !! k).
Proof.
  intros Hk. destruct (decide (p = k)) as [->|Hne].
  - rewrite lookup_alter_eq. by apply fmap_is_Some.
  - by rewrite lookup_alter_ne.
Qed.

(** An entry spelled beneath a path keeps every regular file out of the
    way of that path and of its ancestors. *)
Lemma nothing_in_the_way (f : gmap string Content) (d : gset string) p k :
  is_Some (f !! k) ∨ k ∈ d → Paths.beneath p k = true →
  dir_blocked f d p = false.
Proof.
  intros Hk Hb. apply not_true_is_false. unfold dir_blocked.
  rewrite existsb_exists.
  intros (q & Hq%list_elem_of_In & Hway). unfold in_the_way in Hway.
  apply andb_true_iff in Hway as [_ Hway]. apply negb_true_iff in Hway.
  apply not_true_iff_false in Hway. apply Hway, existsb_entries.
  exists k. split; [done|]. by eapply beneath_chain.
Qed.

Lemma hcorefile_beneath_fcidump_files_dir sd :
  Paths.beneath (fcidump_files_dir sd) (hcorefile sd) = true.
Proof.
  apply beneath_spec. unfold hcorefile.
  exists ("../scf/" +:+ out_fp sd +:+ ".hcore"). reflexivity.
Qed.

Lemma fcidump_files_dir_beneath_files_dir sd :
  fcidump_files_dir sd = files_dir sd +:+ "/fci".
Proof. unfold fcidump_files_dir, files_dir. by rewrite !append_assoc. Qed.

Lemma hcorefile_beneath_files_dir sd :
  Paths.beneath (files_dir sd) (hcorefile sd) = true.
Proof.
  apply beneath_spec. unfold hcorefile.
  rewrite fcidump_files_dir_beneath_files_dir.
  exists ("fci/../scf/" +:+ out_fp sd +:+ ".hcore").
  by rewrite !append_assoc.
Qed.

(** Any two of the five files of a run are distinct, also across runs. *)
Ltac paths_differ :=
  apply last_char_differs;
  rewrite ?last_char_f1file, ?last_char_v2file, ?last_char_cholfile,
    ?last_char_hcorefile, ?last_char_fcid_file;
  discriminate.

Lemma eqb_paths_differ (p q : string) : p ≠ q → String.eqb p q = false.
Proof. intros H. by apply String.eqb_neq. Qed.

(** ** The decimal count line *)

Lemma read_show_nat (n : nat) : read_nat (show_nat n) = Some n.
Proof.
  unfold read_nat, show_nat. rewrite NilEmpty.usu. simpl.
  by rewrite DecimalNat.Unsigned.of_to.
Qed.

(** ** Scheduler programs *)

Lemma fold_left_add_ext (f g : nat → T) (l : list nat) (a : T) :
  (∀ i, f i = g i) →
  fold_left (λ acc i, add acc (f i)) l a = fold_left (λ acc i, add acc (g i)) l a.
Proof.
  intros Hfg. revert a. induction l as [|i l IH]; intros a; simpl; [done|].
  by rewrite Hfg, IH.
Qed.

Lemma full_v2_val_unfold N nc cholVpr p r q s :
  full_v2_val N nc cholVpr [p; r; q; s] =
  fold_left (λ acc c, add acc (mul (t_val cholVpr [p; r; c]) (t_val cholVpr [q; s; c])))
            (traversal nc) zero.
Proof. reflexivity. Qed.

Lemma labels_fit_true ls t : l_ext <$> ls = t_shape t → labels_fit ls t = true.
Proof. intros H. unfold labels_fit. by apply bool_decide_eq_true_2. Qed.

Lemma reconstruction_exec N nc (st : gmap string Tensor) C F :
  st !! "cholVpr" = Some C → t_shape C = [N; N; nc] →
  st !! "full_v2" = Some F → t_shape F = [N; N; N; N] →
  exec_ops [OpSetMul (full_v2_lhs N) (cholVpr_pr N nc) (cholVpr_qs N nc)] st
  = inr (<["full_v2" := full_v2_tensor N nc C]> st).
Proof.
  intros HC HsC HF HsF. cbn. rewrite HF, HC.
  rewrite !labels_fit_true; cbn; [|by rewrite HsC..|by rewrite HsF].
  by rewrite HsF.
Qed.

Lemma rotation_exec MSO AO (st : gmap string Tensor) L H Hmo :
  st !! "lcao" = Some L → t_shape L = [AO; MSO] →
  st !! "hcore" = Some H → t_shape H = [AO; AO] →
  st !! "hcore_mo" = Some Hmo → t_shape Hmo = [MSO; MSO] →
  exec_ops (rotation_program MSO AO) st
  = inr (delete "hcore" (delete "tmp"
           (<["hcore_mo" := hcore_mo_tensor MSO AO L H]>
              (<["tmp" := tmp_tensor MSO AO L H]>
                 (<["tmp" := zero_tensor [MSO; AO]]> st))))).
Proof.
  intros HL HsL HH HsH HM HsM. unfold rotation_program. cbn.
  rewrite lookup_insert_eq, !lookup_insert_ne by done. rewrite HL, HH.
  rewrite !labels_fit_true; cbn; [|by rewrite ?HsL, ?HsH..].
  rewrite lookup_insert_ne by done. rewrite lookup_insert_eq.
  rewrite !lookup_insert_ne by done. rewrite HM, HL.
  rewrite !labels_fit_true; cbn; [|by rewrite ?HsL, ?HsH, ?HsM..].
  by rewrite HsM.
Qed.

(** The reconstruction step
    [full_v2(p,r,q,s) = cholVpr(p,r,cindex) * cholVpr(q,s,cindex)], run on
    a context that holds the two tensors: the tensor it leaves in
    [full_v2] is the sum over the auxiliary index, and it is symmetric
    under the exchange of the two index pairs when the element product
    commutes. *)
Lemma reconstruction_exchange_symmetry
    (mul_comm : ∀ a b : T, mul a b = mul b a)
    (N nc : nat) (st : gmap string Tensor) (C F : Tensor) :
  st !! "cholVpr" = Some C → t_shape C = [N; N; nc] →
  st !! "full_v2" = Some F → t_shape F = [N; N; N; N] →
  ∃ V,
    exec_ops [OpSetMul (full_v2_lhs N) (cholVpr_pr N nc) (cholVpr_qs N nc)] st
    = inr (<["full_v2" := V]> st)
    ∧ (∀ p r q s,
         t_val V [p; r; q; s] =
         fold_left (λ acc c, add acc (mul (t_val C [p; r; c]) (t_val C [q; s; c])))
                   (traversal nc) zero)
    ∧ (∀ p r q s, t_val V [p; r; q; s] = t_val V [q; s; p; r]).
Proof.
  intros HC HsC HF HsF. exists (full_v2_tensor N nc C).
  split; [by eapply reconstruction_exec|]. split.
  - intros p r q s. apply full_v2_val_unfold.
  - intros p r q s. simpl. rewrite !full_v2_val_unfold.
    apply fold_left_add_ext. intros c. apply mul_comm.
Qed.


(** ** Traces of the primitive operations *)

Lemma emits_ret {A} P (a : A) : emits P (mret a).
Proof. intros w. exists []. by rewrite app_nil_r. Qed.

Lemma emits_raise {A} P e : emits P (raise (A := A) e).
Proof. intros w. exists []. by rewrite app_nil_r. Qed.

Lemma emits_bind {A B} P (m : M A) (k : A → M B) :
  emits P m → (∀ a, emits P (k a)) → emits P (m ≫= k).
Proof.
  intros Hm Hk w. unfold mbind, M_bind, bind.
  destruct (Hm w) as (e1 & Ht1 & HP1).
  destruct (m w) as [a w1|e w1]; simpl in *; [|by eauto].
  destruct (Hk a w1) as (e2 & Ht2 & HP2).
  exists (e1 ++ e2). rewrite Ht2, Ht1, app_assoc. split; [done|].
  by apply Forall_app.
Qed.

Lemma emits_if {A} P (c : bool) (m1 m2 : M A) :
  emits P m1 → emits P m2 → emits P (if c then m1 else m2).
Proof. by destruct c. Qed.

Lemma emits_one {A} P (m : M A) (e : Event) :
  P e → (∀ w, w_trace (final_world (m w)) = w_trace w ++ [e]) → emits P m.
Proof. intros HP Hm w. exists [e]. split; [apply Hm | by constructor]. Qed.

Lemma emits_none {A} P (m : M A) :
  (∀ w, w_trace (final_world (m w)) = w_trace w) → emits P m.
Proof. intros Hm w. exists []. by rewrite Hm, app_nil_r. Qed.

Lemma emits_log P e : P e → emits P (log e).
Proof. intros HP. by apply (emits_one P _ e). Qed.

Lemma emits_barrier P : P EvBarrier → emits P barrier.
Proof. apply emits_log. Qed.

Lemma emits_fs_exists P p : (∀ b, P (EvExists p b)) → emits P (fs_exists p).
Proof. intros HP w. exists [EvExists p (path_exists (w_files w) (w_dirs w) p)]. split; [done|]. by constructor. Qed.

Lemma emits_create_directories P p :
  P (EvCreateDirectories p) → emits P (create_directories p).
Proof.
  intros HP. apply (emits_one P _ (EvCreateDirectories p)); [done|].
  intros w. unfold create_directories. by destruct (dir_blocked _ _ _).
Qed.

Lemma emits_allocate P ts : P (EvAllocate ts.*1) → emits P (allocate ts).
Proof. intros HP. by apply (emits_one P _ (EvAllocate ts.*1)). Qed.

Lemma emits_free_tensors P names : P (EvFree names) → emits P (free_tensors names).
Proof. intros HP. by apply (emits_one P _ (EvFree names)). Qed.

Lemma emits_tensor_shape P name : emits P (tensor_shape name).
Proof. by apply emits_none. Qed.

Lemma emits_put_tensor P name t : emits P (put_tensor name t).
Proof. by apply emits_none. Qed.

Lemma emits_read_from_disk P name path :
  P (EvReadFromDisk name path) → emits P (read_from_disk name path).
Proof.
  intros HP. apply (emits_one P _ (EvReadFromDisk name path)); [done|].
  intros w. unfold read_from_disk.
  destruct (w_store w !! name); [|done].
  destruct (w_files w !! path) as [[]|]; try done. by case_bool_decide.
Qed.

Lemma emits_write_to_disk P name path :
  P (EvWriteToDisk name path) → emits P (write_to_disk name path).
Proof.
  intros HP. apply (emits_one P _ (EvWriteToDisk name path)); [done|].
  intros w. unfold write_to_disk.
  destruct (w_store w !! name); [|done]. by case_bool_decide.
Qed.

Lemma emits_execute P ops hw : P (EvExecute ops hw) → emits P (execute ops hw).
Proof.
  intros HP. apply (emits_one P _ (EvExecute ops hw)); [done|].
  intros w. unfold execute. by destruct (exec_ops ops (w_store w)).
Qed.

Lemma emits_ofstream_open P path :
  (∀ b, P (EvOpen path b)) → emits P (ofstream_open path).
Proof.
  intros HP w. unfold ofstream_open. case_bool_decide.
  - exists [EvOpen path false]. split; [done|]. by constructor.
  - exists [EvOpen path true]. split; [done|]. by constructor.
Qed.

Lemma emits_ofstream_put P opened path line :
  P (EvPut path line) → emits P (ofstream_put opened path line).
Proof.
  intros HP. apply (emits_one P _ (EvPut path line)); [done|].
  intros w. by destruct opened.
Qed.

Lemma emits_ofstream_close P path : P (EvClose path) → emits P (ofstream_close path).
Proof. apply emits_log. Qed.

Lemma emits_read_count P path : P (EvReadCount path) → emits P (read_count path).
Proof.
  intros HP. apply (emits_one P _ (EvReadCount path)); [done|].
  intros w. unfold read_count.
  destruct (w_files w !! path) as [[|[|line ls]|]|]; try done.
  by destruct (read_nat line).
Qed.

Lemma emits_write_fcidump_file P sd h1 v2 sv path :
  (∀ H V, P (EvWriteFcidump path sd H V sv)) →
  emits P (write_fcidump_file sd h1 v2 sv path).
Proof.
  intros HP w. unfold write_fcidump_file.
  destruct (w_store w !! h1) as [H|]; [|by exists []; rewrite app_nil_r].
  destruct (w_store w !! v2) as [V|]; [|by exists []; rewrite app_nil_r].
  exists [EvWriteFcidump path sd H V sv]. split; [done|]. by constructor.
Qed.

(** Walks a program of the monad, leaving one goal per event it can log. *)
Ltac emits_walk :=
  repeat first
    [ apply emits_bind; [|intros ?]
    | apply emits_if
    | apply emits_ret
    | apply emits_tensor_shape
    | apply emits_put_tensor
    | apply emits_log
    | apply emits_barrier
    | apply emits_fs_exists; intros ?
    | apply emits_create_directories
    | apply emits_allocate
    | apply emits_free_tensors
    | apply emits_read_from_disk
    | apply emits_write_to_disk
    | apply emits_execute
    | apply emits_ofstream_open; intros ?
    | apply emits_ofstream_put
    | apply emits_ofstream_close
    | apply emits_read_count
    | apply emits_write_fcidump_file; intros ? ? ].

(** ** Runs of [generate_fcidump] *)

Arguments exec_ops : simpl never.

Ltac unfold_prims :=
  unfold mbind, mret, M_bind, M_ret, bind, ret, barrier, ofstream_close, log,
    fs_exists, create_directories, allocate, free_tensors, tensor_shape,
    read_from_disk, write_to_disk, execute, ofstream_open, ofstream_put,
    write_fcidump_file, put_tensor, read_count, add_event, set_files, set_dirs,
    set_store.

Ltac store_lookup :=
  repeat first
    [ rewrite lookup_insert_eq
    | rewrite lookup_delete_eq
    | rewrite lookup_insert_ne by done
    | rewrite lookup_delete_ne by done ].

Lemma generate_fcidump_ok sd MSO AO hw f d l (s : gmap string Tensor) t L V H :
  s !! "lcao" = Some L → t_shape L = [AO; MSO] →
  s !! "full_v2" = Some V →
  f !! hcorefile sd = Some (FTensor H) → t_shape H = [AO; AO] →
  let found := path_exists f d (fcidump_files_dir sd) in
  ∃ s',
    generate_fcidump sd MSO hw (mkWorld f d l s t)
    = Ok (fcidump_files_prefix sd)
         (mkWorld
            (<[fcid_file sd := FFcidump sd (hcore_mo_tensor MSO AO L H) V (symvec sd)]> f)
            (if found then d else {[fcidump_files_dir sd]} ∪ d) l s'
            (t ++ export_events sd MSO AO found (hcore_mo_tensor MSO AO L H) V))
    ∧ s' !! "tmp" = None ∧ s' !! "hcore" = None.
Proof.
  intros HL HsL HV Hf HsH found.
  pose proof (nothing_in_the_way f d (fcidump_files_dir sd) (hcorefile sd)
                (or_introl (mk_is_Some _ _ Hf))
                (hcorefile_beneath_fcidump_files_dir sd)) as Hway.
  unfold generate_fcidump. unfold_prims. cbn. rewrite HL. cbn. rewrite HsL. cbn.
  fold found.
  destruct found; cbn; rewrite ?Hway; cbn;
    rewrite lookup_insert_ne, lookup_insert_eq by done; rewrite Hf;
    rewrite bool_decide_eq_true_2 by done;
    (erewrite rotation_exec; [|by simplify_map_eq..]); cbn;
    store_lookup; rewrite HV; cbn;
    (eexists; split; [rewrite <- !app_assoc; reflexivity|]);
    by store_lookup.
Qed.

(** C2. [generate_fcidump] rotates the one-electron operator in two
    contraction steps, [tmp(z1,nu) = Σ_mu lcao(mu,z1) * hcore(mu,nu)] then
    [hcore_mo(z1,z2) = Σ_nu tmp(z1,nu) * lcao(nu,z2)]; the one-electron block
    it hands to the exporter is the matrix product [LCAO^T · H · LCAO] of the
    orbital coefficients and the operator read from disk; and [tmp] and
    [hcore] are deallocated by the last directive of the scheduling unit
    that holds the two contractions. *)
Theorem generate_fcidump_rotation sd MSO AO hw f d l
    (s : gmap string Tensor) t L V H :
  s !! "lcao" = Some L → t_shape L = [AO; MSO] →
  s !! "full_v2" = Some V →
  f !! hcorefile sd = Some (FTensor H) → t_shape H = [AO; AO] →
  ∃ w' Hmo Tmp found,
    generate_fcidump sd MSO hw (mkWorld f d l s t)
    = Ok (fcidump_files_prefix sd) w'
    ∧ filter is_contraction (rotation_program MSO AO)
      = [OpSetMul (mkLT "tmp" [mkLabel "z1" MSO; mkLabel "nu" AO])
                  (mkLT "lcao" [mkLabel "mu" AO; mkLabel "z1" MSO])
                  (mkLT "hcore" [mkLabel "mu" AO; mkLabel "nu" AO]);
         OpSetMul (mkLT "hcore_mo" [mkLabel "z1" MSO; mkLabel "z2" MSO])
                  (mkLT "tmp" [mkLabel "z1" MSO; mkLabel "nu" AO])
                  (mkLT "lcao" [mkLabel "nu" AO; mkLabel "z2" MSO])]
    ∧ (∀ z1 nu,
         t_val Tmp [z1; nu] =
         fold_left (λ acc mu, add acc (mul (t_val L [mu; z1]) (t_val H [mu; nu])))
                   (traversal AO) zero)
    ∧ (∀ z1 z2,
         t_val Hmo [z1; z2] =
         fold_left (λ acc nu, add acc (mul (t_val Tmp [z1; nu]) (t_val L [nu; z2])))
                   (traversal AO) zero)
    ∧ (∀ z1 z2,
         t_val Hmo [z1; z2] =
         t_val (matmul AO (matmul AO (transpose L) H) L) [z1; z2])
    ∧ w_files w' !! fcid_file sd = Some (FFcidump sd Hmo V (symvec sd))
    ∧ w_trace w' = t ++ export_events sd MSO AO found Hmo V
    ∧ last (rotation_program MSO AO) = Some (OpDeallocate ["tmp"; "hcore"])
    ∧ w_store w' !! "tmp" = None
    ∧ w_store w' !! "hcore" = None.
Proof.
  intros HL HsL HV Hf HsH.
  destruct (generate_fcidump_ok sd MSO AO hw f d l s t L V H)
    as (s' & Hrun & Htmp & Hhcore); try done.
  eexists _, (hcore_mo_tensor MSO AO L H), (tmp_tensor MSO AO L H), _.
  split; [exact Hrun|]. cbn.
  repeat split; try done. by rewrite lookup_insert_eq.
Qed.

(** ** Files a program leaves alone, files a program needs *)

Lemma leaves_ret {A} p (a : A) : leaves_file p (mret a).
Proof. done. Qed.

Lemma leaves_bind {A B} p (m : M A) (k : A → M B) :
  leaves_file p m → (∀ a, leaves_file p (k a)) → leaves_file p (m ≫= k).
Proof.
  intros Hm Hk w. unfold mbind, M_bind, bind. specialize (Hm w).
  destruct (m w) as [a w1|e w1]; simpl in *; [|done].
  by rewrite Hk.
Qed.

Lemma leaves_if {A} p (c : bool) (m1 m2 : M A) :
  leaves_file p m1 → leaves_file p m2 → leaves_file p (if c then m1 else m2).
Proof. by destruct c. Qed.

Lemma leaves_log p e : leaves_file p (log e).
Proof. done. Qed.

Lemma leaves_barrier p : leaves_file p barrier.
Proof. done. Qed.

Lemma leaves_fs_exists p q : leaves_file p (fs_exists q).
Proof. done. Qed.

Lemma leaves_create_directories p q : leaves_file p (create_directories q).
Proof. intros w. unfold create_directories. by destruct (dir_blocked _ _ _). Qed.

Lemma leaves_allocate p ts : leaves_file p (allocate ts).
Proof. done. Qed.

Lemma leaves_free_tensors p names : leaves_file p (free_tensors names).
Proof. done. Qed.

Lemma leaves_tensor_shape p name : leaves_file p (tensor_shape name).
Proof. done. Qed.

Lemma leaves_put_tensor p name t : leaves_file p (put_tensor name t).
Proof. done. Qed.

Lemma leaves_ofstream_close p q : leaves_file p (ofstream_close q).
Proof. done. Qed.

Lemma leaves_read_from_disk p name path : leaves_file p (read_from_disk name path).
Proof.
  intros w. unfold read_from_disk.
  destruct (w_store w !! name); [|done].
  destruct (w_files w !! path) as [[]|]; try done. by case_bool_decide.
Qed.

Lemma leaves_read_count p path : leaves_file p (read_count path).
Proof.
  intros w. unfold read_count.
  destruct (w_files w !! path) as [[|[|line ls]|]|]; try done.
  by destruct (read_nat line).
Qed.

Lemma leaves_execute p ops hw : leaves_file p (execute ops hw).
Proof. intros w. unfold execute. by destruct (exec_ops ops (w_store w)). Qed.

Lemma leaves_write_to_disk p name path :
  path ≠ p → leaves_file p (write_to_disk name path).
Proof.
  intros Hne w. unfold write_to_disk.
  destruct (w_store w !! name); [|done]. case_bool_decide; [done|].
  simpl. by rewrite lookup_insert_ne.
Qed.

Lemma leaves_ofstream_open p path : path ≠ p → leaves_file p (ofstream_open path).
Proof.
  intros Hne w. unfold ofstream_open. case_bool_decide; [done|].
  simpl. by rewrite lookup_insert_ne.
Qed.

Lemma leaves_ofstream_put p opened path line :
  path ≠ p → leaves_file p (ofstream_put opened path line).
Proof.
  intros Hne w. unfold ofstream_put. destruct opened; [|done].
  simpl. by rewrite lookup_alter_ne.
Qed.

Lemma leaves_write_fcidump_file p sd h1 v2 sv path :
  path ≠ p → leaves_file p (write_fcidump_file sd h1 v2 sv path).
Proof.
  intros Hne w. unfold write_fcidump_file.
  destruct (w_store w !! h1); [|done]. destruct (w_store w !! v2); [|done].
  simpl. by rewrite lookup_insert_ne.
Qed.

(** Walks a program of the monad, leaving one goal per path it writes. *)
Ltac leaves_walk :=
  repeat first
    [ apply leaves_bind; [|intros ?]
    | apply leaves_if
    | apply leaves_ret
    | apply leaves_log
    | apply leaves_barrier
    | apply leaves_fs_exists
    | apply leaves_create_directories
    | apply leaves_allocate
    | apply leaves_free_tensors
    | apply leaves_tensor_shape
    | apply leaves_put_tensor
    | apply leaves_ofstream_close
    | apply leaves_read_from_disk
    | apply leaves_read_count
    | apply leaves_execute
    | apply leaves_write_to_disk
    | apply leaves_ofstream_open
    | apply leaves_ofstream_put
    | apply leaves_write_fcidump_file ].

Lemma needs_bind_l {A B} p (m : M A) (k : A → M B) :
  needs_tensor_file p m → needs_tensor_file p (m ≫= k).
Proof.
  intros Hm w. unfold mbind, M_bind, bind. specialize (Hm w).
  destruct (m w) as [a w1|e w1]; simpl in *; [|done]. auto.
Qed.

Lemma needs_bind_r {A B} p (m : M A) (k : A → M B) :
  leaves_file p m → (∀ a, needs_tensor_file p (k a)) →
  needs_tensor_file p (m ≫= k).
Proof.
  intros Hm Hk w. unfold mbind, M_bind, bind. specialize (Hm w).
  destruct (m w) as [a w1|e w1]; simpl in *; [|done].
  intros Hc. rewrite <- Hm. by eapply Hk.
Qed.

Lemma needs_read_from_disk name p : needs_tensor_file p (read_from_disk name p).
Proof.
  intros w. unfold read_from_disk.
  destruct (w_store w !! name); [|done].
  destruct (w_files w !! p) as [[]|]; try done. eauto.
Qed.

Lemma needs_generate_fcidump sd MSO hw :
  needs_tensor_file (hcorefile sd) (generate_fcidump sd MSO hw).
Proof.
  unfold generate_fcidump.
  do 4 (apply needs_bind_r; [by leaves_walk|intros ?]).
  apply needs_bind_l, needs_read_from_disk.
Qed.

Lemma leaves_persist_branch p rank sd n :
  f1file sd ≠ p → v2file sd ≠ p → cholfile sd ≠ p →
  leaves_file p (persist_branch rank sd n).
Proof. intros. unfold persist_branch. by leaves_walk. Qed.

Lemma needs_fci_driver rank hw fn opts :
  needs_tensor_file (hcorefile (hartree_fock_driver fn opts))
                    (fci_driver rank hw fn opts).
Proof.
  unfold fci_driver.
  do 3 (apply needs_bind_r; [by leaves_walk|intros ?]).
  apply needs_bind_r.
  { unfold ccsd_restart_decision. by leaves_walk. }
  intros restart. apply needs_bind_r.
  { unfold cd_svd_driver. by leaves_walk. }
  intros cd. apply needs_bind_r.
  { apply leaves_if; [unfold restore_branch; by leaves_walk|].
    apply leaves_if; [|apply leaves_ret].
    apply leaves_persist_branch; paths_differ. }
  intros _. do 4 (apply needs_bind_r; [by leaves_walk|intros ?]).
  apply needs_bind_l, needs_generate_fcidump.
Qed.

(** ** The order of the first events of [generate_fcidump] *)

Lemma bind_ok_step {A B} (m : M A) (k : A → M B) w a w1 :
  m w = Ok a w1 → (m ≫= k) w = k a w1.
Proof. intros H. unfold mbind, M_bind, bind. by rewrite H. Qed.

Lemma bind_err_step {A B} (m : M A) (k : A → M B) w e w1 :
  m w = Err e w1 → (m ≫= k) w = Err e w1.
Proof. intros H. unfold mbind, M_bind, bind. by rewrite H. Qed.

Lemma read_then_continue {B} name path (k : unit → M B) w :
  (∀ a, emits (λ _, True) (k a)) →
  ∃ post, w_trace (final_world ((read_from_disk name path ≫= k) w))
          = w_trace w ++ EvReadFromDisk name path :: post.
Proof.
  intros Hk.
  destruct (emits_bind (λ _, True) (read_from_disk name path) k) with (w := w)
    as (evs & Hevs & _); [by apply emits_read_from_disk|done|].
  pose proof (emits_read_from_disk (λ _, True) name path I w) as (e1 & He1 & _).
  unfold mbind, M_bind, bind in *.
  assert (w_trace (final_world (read_from_disk name path w))
          = w_trace w ++ [EvReadFromDisk name path]) as Hread.
  { unfold read_from_disk. destruct (w_store w !! name); [|done].
    destruct (w_files w !! path) as [[]|]; try done. by case_bool_decide. }
  destruct (read_from_disk name path w) as [[] w1|e w1]; simpl in *.
  - destruct (Hk () w1) as (e2 & He2 & _). exists e2.
    rewrite He2, Hread. by rewrite <- app_assoc.
  - exists []. by rewrite Hread.
Qed.

(** When the dump's directory is absent and cannot be made, the run ends
    in [create_directories]. *)
Lemma generate_fcidump_stuck sd MSO hw f d l s t :
  path_exists f d (fcidump_files_dir sd) = false →
  dir_blocked f d (fcidump_files_dir sd) = true →
  ∃ s',
    generate_fcidump sd MSO hw (mkWorld f d l s t)
    = Err IOError
        (mkWorld f d l s'
           (t ++ [EvAllocate ["hcore"; "hcore_mo"];
                  EvExists (fcidump_files_dir sd) false;
                  EvCreateDirectories (fcidump_files_dir sd)])).
Proof.
  intros Hfound Hblocked. unfold generate_fcidump.
  do 3 (erewrite bind_ok_step by reflexivity). cbn. rewrite Hfound. cbn [negb].
  erewrite bind_err_step.
  2:{ unfold create_directories. cbn. rewrite Hblocked. reflexivity. }
  eexists. unfold add_event. cbn. by rewrite <- !app_assoc.
Qed.

Lemma generate_fcidump_reads_first sd MSO hw f d l s t :
  let found := path_exists f d (fcidump_files_dir sd) in
  found = true ∨ dir_blocked f d (fcidump_files_dir sd) = false →
  ∃ post,
    w_trace (final_world (generate_fcidump sd MSO hw (mkWorld f d l s t)))
    = t
      ++ [EvAllocate ["hcore"; "hcore_mo"]; EvExists (fcidump_files_dir sd) found]
      ++ (if found then [] else [EvCreateDirectories (fcidump_files_dir sd)])
      ++ EvReadFromDisk "hcore" (hcorefile sd) :: post.
Proof.
  intros found Hcase. subst found. unfold generate_fcidump.
  do 3 (erewrite bind_ok_step by reflexivity). cbn.
  destruct (path_exists f d (fcidump_files_dir sd)) eqn:Hfound; cbn [negb].
  1: erewrite bind_ok_step by reflexivity.
  2: destruct Hcase as [?|Hfree]; [done|];
     erewrite bind_ok_step
       by (unfold create_directories; cbn; rewrite Hfree; reflexivity).
  all: match goal with
       | |- context [(read_from_disk ?n ?p ≫= ?k) ?w] =>
           destruct (read_then_continue n p k w) as (post & Hpost);
             [intros ?; emits_walk; done|]
       end;
       exists post; rewrite Hpost; cbn; by rewrite <- !app_assoc.
Qed.

(** An event that occurs before the first [y] of a list is not after
    it. *)
Lemma before_first {A} (x y : A) (l1 l2 l3 l4 : list A) :
  l1 ++ x :: l2 = l3 ++ y :: l4 → x ∉ l3 → x ≠ y → y ∈ l1.
Proof.
  revert l1. induction l3 as [|z l3 IH]; intros l1 Heq Hx Hxy.
  - destruct l1 as [|a l1]; simplify_eq/=; first [done|by left].
  - destruct l1 as [|a l1]; simplify_eq/=.
    + exfalso. apply Hx. by left.
    + right. eapply IH; [done| |done]. intros ?. apply Hx. by right.
Qed.

(** C10. [generate_fcidump] reads the atomic-basis operator [hcore] from
    [files_dir + "/../scf/" + out_fp + ".hcore"], in the SCF stage's
    sibling directory, and does so before the scheduler runs the rotation.
    A run in which the dump's directory is absent and cannot be made ends
    in [create_directories], before the read; every other run logs the
    read right after the directory step; in every run, an execution of
    the scheduler comes after the read.  A run of [generate_fcidump], and
    with it a run of [fci_driver] in any of its branches and whatever the
    checkpoint flags, completes only if that file holds a tensor when the
    run starts. *)
Theorem hcore_read_precedes_rotation rank hw fn opts files dirs locked MSO
    f d l s t :
  let sd := hartree_fock_driver fn opts in
  let r := generate_fcidump sd MSO hw (mkWorld f d l s t) in
  let found := path_exists f d (fcidump_files_dir sd) in
  let stuck := negb found && dir_blocked f d (fcidump_files_dir sd) in
  hcorefile sd
  = (out_fp sd +:+ "_files/" +:+ scf_type (scf_options (options_map sd)) +:+ "/fci")
    +:+ "/../scf/" +:+ out_fp sd +:+ ".hcore"
  ∧ (stuck = true →
     outcome r = Some IOError
     ∧ w_trace (final_world r)
       = t ++ [EvAllocate ["hcore"; "hcore_mo"];
               EvExists (fcidump_files_dir sd) false;
               EvCreateDirectories (fcidump_files_dir sd)])
  ∧ (stuck = false →
     ∃ post,
       w_trace (final_world r)
       = t
         ++ [EvAllocate ["hcore"; "hcore_mo"];
             EvExists (fcidump_files_dir sd) found]
         ++ (if found then [] else [EvCreateDirectories (fcidump_files_dir sd)])
         ++ EvReadFromDisk "hcore" (hcorefile sd) :: post)
  ∧ (∀ pre ops h post,
       w_trace (final_world r) = t ++ pre ++ EvExecute ops h :: post →
       EvReadFromDisk "hcore" (hcorefile sd) ∈ pre)
  ∧ (completed r = true → ∃ H, f !! hcorefile sd = Some (FTensor H))
  ∧ (completed (run_fci_driver rank hw fn opts files dirs locked) = true →
     ∃ H, files !! hcorefile sd = Some (FTensor H)).
Proof.
  intros sd r found stuck. subst r.
  assert (stuck = true →
          ∃ s', generate_fcidump sd MSO hw (mkWorld f d l s t)
                = Err IOError
                    (mkWorld f d l s'
                       (t ++ [EvAllocate ["hcore"; "hcore_mo"];
                              EvExists (fcidump_files_dir sd) false;
                              EvCreateDirectories (fcidump_files_dir sd)])))
    as Hstuck.
  { intros [Hf Hb]%andb_true_iff. apply negb_true_iff in Hf.
    by apply generate_fcidump_stuck. }
  assert (stuck = false →
          ∃ post,
            w_trace (final_world (generate_fcidump sd MSO hw (mkWorld f d l s t)))
            = t
              ++ [EvAllocate ["hcore"; "hcore_mo"];
                  EvExists (fcidump_files_dir sd) found]
              ++ (if found then [] else [EvCreateDirectories (fcidump_files_dir sd)])
              ++ EvReadFromDisk "hcore" (hcorefile sd) :: post)
    as Hreads.
  { intros Hs. apply generate_fcidump_reads_first. fold found.
    subst stuck. destruct found; [by left|by right]. }
  split; [done|]. split; [|split; [exact Hreads|split; [|split]]].
  - intros Hs. destruct (Hstuck Hs) as (s' & ->). done.
  - intros pre ops h post Htrace. destruct stuck eqn:Hs.
    + destruct (Hstuck eq_refl) as (s' & Hrun). rewrite Hrun in Htrace.
      cbn in Htrace. apply app_inv_head in Htrace.
      assert (EvExecute ops h
              ∈ [EvAllocate ["hcore"; "hcore_mo"];
                 EvExists (fcidump_files_dir sd) false;
                 EvCreateDirectories (fcidump_files_dir sd)]) as Hin.
      { rewrite Htrace. apply elem_of_app. right. by left. }
      rewrite !elem_of_cons in Hin.
      by destruct Hin as [?|[?|[?|?%elem_of_nil]]].
    + destruct (Hreads eq_refl) as (post' & Hrun). rewrite Hrun in Htrace.
      apply app_inv_head in Htrace. rewrite !app_assoc in Htrace.
      symmetry in Htrace. eapply before_first; [exact Htrace| |done].
      rewrite elem_of_app, !elem_of_cons.
      intros [[?|[?|?%elem_of_nil]]|Hin]; try done.
      destruct found; [by apply elem_of_nil in Hin|].
      by apply list_elem_of_singleton in Hin.
  - apply (needs_generate_fcidump sd MSO hw (mkWorld f d l s t)).
  - intros Hc. by apply needs_fci_driver in Hc.
Qed.

(** ** Runs of the driver's stages *)

Lemma ccsd_restart_decision_run sd f d l s t :
  ccsd_restart_decision sd (mkWorld f d l s t)
  = Ok (restart_requested sd f d) (mkWorld f d l s (t ++ decision_events sd f d)).
Proof.
  unfold ccsd_restart_decision, restart_requested, decision_events.
  destruct (readt (ccsd_options (options_map sd))); cbn.
  { unfold mret, M_ret, ret. by rewrite app_nil_r. }
  unfold_prims. cbn.
  destruct (path_exists f d (f1file sd)); cbn; by rewrite <- ?app_assoc.
Qed.

Lemma fci_driver_decide rank hw fn opts f d l s t :
  let sd := hartree_fock_driver fn opts in
  fci_driver rank hw fn opts (mkWorld f d l s t)
  = after_decision rank hw sd opts (restart_requested sd f d)
      (mkWorld f d l s (t ++ prologue_events rank fn sd ++ decision_events sd f d)).
Proof.
  intros sd. unfold fci_driver, after_decision, checkpoint_branch, driver_tail.
  fold sd. unfold prologue_events.
  erewrite bind_ok_step by reflexivity.
  destruct (rank =? 0)%nat; do 2 (erewrite bind_ok_step by reflexivity);
    unfold add_event; cbn;
    (erewrite bind_ok_step by apply ccsd_restart_decision_run);
    by rewrite <- !app_assoc.
Qed.

Lemma cd_svd_driver_compute sd N chol f d l s t :
  cd_svd_driver sd N false chol (mkWorld f d l s t)
  = Ok (mkCDResult (u_chol_count (upstream sd)) (u_max_cvecs (upstream sd))
                   (u_chol_count (upstream sd)))
       (mkWorld f d l
          (<["lcao" := mkTensor [u_nao (upstream sd); N] (u_lcao (upstream sd))]>
             (<["d_f1" := mkTensor [N; N] (u_d_f1 (upstream sd))]>
                (<["cholVpr" := mkTensor [N; N; u_chol_count (upstream sd)]
                                         (u_cholVpr (upstream sd))]> s)))
          (t ++ [EvCdSvdDriver false chol])).
Proof. reflexivity. Qed.

Lemma cd_svd_driver_restart sd N chol f d l s t line ls n :
  f !! chol = Some (FText (line :: ls)) → read_nat line = Some n →
  cd_svd_driver sd N true chol (mkWorld f d l s t)
  = Ok (mkCDResult n (u_max_cvecs (upstream sd)) n)
       (mkWorld f d l
          (<["lcao" := mkTensor [u_nao (upstream sd); N] (u_lcao (upstream sd))]>
             (<["d_f1" := zero_tensor [N; N]]>
                (<["cholVpr" := zero_tensor [N; N; n]]> s)))
          (t ++ [EvCdSvdDriver true chol; EvReadCount chol])).
Proof.
  intros Hf Hn. unfold cd_svd_driver. unfold_prims. cbn. rewrite Hf, Hn. cbn.
  by rewrite <- !app_assoc.
Qed.

Lemma cd_svd_driver_restart_no_count sd N chol f d l s t :
  f !! chol = None →
  cd_svd_driver sd N true chol (mkWorld f d l s t)
  = Err IOError (mkWorld f d l s (t ++ [EvCdSvdDriver true chol; EvReadCount chol])).
Proof.
  intros Hf. unfold cd_svd_driver. unfold_prims. cbn. rewrite Hf. cbn.
  by rewrite <- !app_assoc.
Qed.

Lemma restore_branch_ok sd f d l (s : gmap string Tensor) t D C D0 C0 :
  s !! "d_f1" = Some D0 → s !! "cholVpr" = Some C0 →
  f !! f1file sd = Some (FTensor D) → t_shape D = t_shape D0 →
  f !! v2file sd = Some (FTensor C) → t_shape C = t_shape C0 →
  restore_branch sd (mkWorld f d l s t)
  = Ok () (mkWorld f d l (<["cholVpr" := C]> (<["d_f1" := D]> s))
             (t ++ [EvReadFromDisk "d_f1" (f1file sd);
                    EvReadFromDisk "cholVpr" (v2file sd); EvBarrier])).
Proof.
  intros HD0 HC0 Hf1 HsD Hf2 HsC. unfold restore_branch. unfold_prims. cbn.
  rewrite HD0, Hf1. rewrite bool_decide_eq_true_2 by done. cbn.
  rewrite lookup_insert_ne by done. rewrite HC0, Hf2.
  rewrite bool_decide_eq_true_2 by done. cbn. by rewrite <- !app_assoc.
Qed.

Lemma restore_branch_no_f1 sd f d l (s : gmap string Tensor) t D0 :
  s !! "d_f1" = Some D0 → f !! f1file sd = None →
  restore_branch sd (mkWorld f d l s t)
  = Err IOError (mkWorld f d l s (t ++ [EvReadFromDisk "d_f1" (f1file sd)])).
Proof.
  intros HD0 Hf1. unfold restore_branch. unfold_prims. cbn. by rewrite HD0, Hf1.
Qed.

Lemma persist_branch_ok rank sd n f d l (s : gmap string Tensor) t D C :
  s !! "d_f1" = Some D → s !! "cholVpr" = Some C →
  f1file sd ∉ l → v2file sd ∉ l →
  let found := path_exists f d (files_dir sd) in
  let opened := negb (bool_decide (cholfile sd ∈ l)) in
  let f' := <[v2file sd := FTensor C]> (<[f1file sd := FTensor D]> f) in
  found = true ∨ dir_blocked f d (files_dir sd) = false →
  persist_branch rank sd n (mkWorld f d l s t)
  = Ok () (mkWorld
             (if (rank =? 0)%nat && opened
              then <[cholfile sd := FText [show_nat n]]> f' else f')
             (if found then d else {[files_dir sd]} ∪ d) l s
             (t ++ persist_events rank sd found opened n)).
Proof.
  intros HD HC Hl1 Hl2 found opened f' Hfree.
  unfold persist_branch, persist_events.
  unfold create_directories. unfold_prims. cbn. fold found.
  subst found.
  destruct (path_exists f d (files_dir sd)); cbn;
    [|destruct Hfree as [?|Hfree]; [done|]; rewrite Hfree; cbn];
    rewrite HD;
    rewrite (bool_decide_eq_false_2 (f1file sd ∈ l)) by done; cbn;
    rewrite HC; rewrite (bool_decide_eq_false_2 (v2file sd ∈ l)) by done; cbn;
    (destruct (rank =? 0)%nat; cbn; [|by rewrite <- !app_assoc]);
    subst opened; case_bool_decide; cbn; rewrite <- ?app_assoc; cbn;
    try done; by rewrite alter_insert_eq.
Qed.

Lemma driver_tail_ok hw sd opts nc AO f d l (s : gmap string Tensor) t C L H :
  let N := setupMOIS sd in
  s !! "cholVpr" = Some C → t_shape C = [N; N; nc] →
  s !! "lcao" = Some L → t_shape L = [AO; N] →
  f !! hcorefile sd = Some (FTensor H) → t_shape H = [AO; AO] →
  let found := path_exists f d (fcidump_files_dir sd) in
  let Hmo := hcore_mo_tensor N AO L H in
  let V := full_v2_tensor N nc C in
  ∃ s',
    driver_tail hw sd opts nc (mkWorld f d l s t)
    = Ok () (mkWorld (<[fcid_file sd := FFcidump sd Hmo V (symvec sd)]> f)
               (if found then d else {[fcidump_files_dir sd]} ∪ d) l s'
               (t ++ [EvBarrier] ++ reconstruction_events N nc hw
                  ++ export_events sd N AO found Hmo V
                  ++ epilogue_events opts (fcidump_files_prefix sd))).
Proof.
  intros N HC HsC HL HsL Hf HsH found Hmo V.
  unfold driver_tail. fold N.
  do 2 (erewrite bind_ok_step by reflexivity).
  erewrite bind_ok_step.
  2:{ unfold execute, allocate, barrier, log, add_event, set_store. cbn.
      erewrite reconstruction_exec; [reflexivity|by simplify_map_eq..]. }
  erewrite bind_ok_step by reflexivity.
  unfold free_tensors, add_event, set_store. cbn.
  edestruct (generate_fcidump_ok sd N AO hw) as (s' & Hgen & _);
    [| | |exact Hf|exact HsH|erewrite bind_ok_step by exact Hgen].
  { store_lookup. exact HL. }
  { exact HsL. }
  { by store_lookup. }
  unfold epilogue_events, export_events, reconstruction_events.
  subst found. destruct (path_exists f d (fcidump_files_dir sd));
    destruct (USE_MACIS && fci (task_options opts)); unfold_prims; cbn;
    eexists; rewrite <- !app_assoc; reflexivity.
Qed.

(** ** Completed runs, branch by branch *)

Ltac trace_eq :=
  unfold reconstruction_events, export_events, persist_events, epilogue_events;
  rewrite <- ?app_assoc; cbn; rewrite <- ?app_assoc; reflexivity.

Lemma ephemeral_after_decision rank hw sd opts f d l s t H :
  let N := setupMOIS sd in
  let AO := u_nao (upstream sd) in
  writet (ccsd_options (options_map sd)) = false →
  f !! hcorefile sd = Some (FTensor H) → t_shape H = [AO; AO] →
  let found := path_exists f d (fcidump_files_dir sd) in
  let Hmo := hcore_mo_tensor N AO (scf_lcao sd) H in
  let V := full_v2_tensor N (u_chol_count (upstream sd)) (computed_cholVpr sd) in
  ∃ s',
    after_decision rank hw sd opts false (mkWorld f d l s t)
    = Ok () (mkWorld (<[fcid_file sd := FFcidump sd Hmo V (symvec sd)]> f)
               (if found then d else {[fcidump_files_dir sd]} ∪ d) l s'
               (t ++ [EvCdSvdDriver false (cholfile sd); EvBarrier]
                  ++ reconstruction_events N (u_chol_count (upstream sd)) hw
                  ++ export_events sd N AO found Hmo V
                  ++ epilogue_events opts (fcidump_files_prefix sd))).
Proof.
  intros N AO Hw Hf HsH found Hmo V.
  unfold after_decision, checkpoint_branch. rewrite Hw.
  erewrite bind_ok_step by apply cd_svd_driver_compute.
  erewrite bind_ok_step by reflexivity. cbn.
  edestruct (driver_tail_ok hw sd opts (u_chol_count (upstream sd)) AO)
    as (s' & Htail); [| | | |exact Hf|exact HsH|rewrite Htail].
  { by store_lookup. }
  { done. }
  { by store_lookup. }
  { done. }
  exists s'. f_equal. f_equal. trace_eq.
Qed.

Lemma persist_after_decision rank hw sd opts f d l s t H :
  let N := setupMOIS sd in
  let AO := u_nao (upstream sd) in
  let nc := u_chol_count (upstream sd) in
  writet (ccsd_options (options_map sd)) = true →
  f1file sd ∉ l → v2file sd ∉ l →
  f !! hcorefile sd = Some (FTensor H) → t_shape H = [AO; AO] →
  let found := path_exists f d (files_dir sd) in
  let opened := negb (bool_decide (cholfile sd ∈ l)) in
  let f1 := <[v2file sd := FTensor (computed_cholVpr sd)]>
              (<[f1file sd := FTensor (computed_d_f1 sd)]> f) in
  let f2 := if (rank =? 0)%nat && opened
            then <[cholfile sd := FText [show_nat nc]]> f1 else f1 in
  let d2 := if found then d else {[files_dir sd]} ∪ d in
  let found2 := path_exists f2 d2 (fcidump_files_dir sd) in
  let Hmo := hcore_mo_tensor N AO (scf_lcao sd) H in
  let V := full_v2_tensor N nc (computed_cholVpr sd) in
  ∃ s',
    after_decision rank hw sd opts false (mkWorld f d l s t)
    = Ok () (mkWorld (<[fcid_file sd := FFcidump sd Hmo V (symvec sd)]> f2)
               (if found2 then d2 else {[fcidump_files_dir sd]} ∪ d2) l s'
               (t ++ [EvCdSvdDriver false (cholfile sd)]
                  ++ persist_events rank sd found opened nc
                  ++ [EvBarrier] ++ reconstruction_events N nc hw
                  ++ export_events sd N AO found2 Hmo V
                  ++ epilogue_events opts (fcidump_files_prefix sd))).
Proof.
  intros N AO nc Hw Hl1 Hl2 Hf HsH found opened f1 f2 d2 found2 Hmo V.
  unfold after_decision, checkpoint_branch. rewrite Hw.
  erewrite bind_ok_step by apply cd_svd_driver_compute.
  erewrite bind_ok_step.
  2:{ cbn. eapply persist_branch_ok; try done; try by store_lookup.
      right. apply (nothing_in_the_way _ _ _ (hcorefile sd));
        [left; by eexists|apply hcorefile_beneath_files_dir]. }
  cbn. fold N nc found opened f1 f2 d2.
  edestruct (driver_tail_ok hw sd opts nc AO f2 d2)
    as (s' & Htail); [| | | | |exact HsH|rewrite Htail].
  { by store_lookup. }
  { done. }
  { by store_lookup. }
  { done. }
  { subst f2 f1. destruct ((rank =? 0)%nat && opened);
      rewrite !lookup_insert_ne by paths_differ; exact Hf. }
  exists s'. f_equal. f_equal. trace_eq.
Qed.

Lemma restore_after_decision rank hw sd opts f d l s t line ls n D C H :
  let N := setupMOIS sd in
  let AO := u_nao (upstream sd) in
  f !! cholfile sd = Some (FText (line :: ls)) → read_nat line = Some n →
  f !! f1file sd = Some (FTensor D) → t_shape D = [N; N] →
  f !! v2file sd = Some (FTensor C) → t_shape C = [N; N; n] →
  f !! hcorefile sd = Some (FTensor H) → t_shape H = [AO; AO] →
  let found := path_exists f d (fcidump_files_dir sd) in
  let Hmo := hcore_mo_tensor N AO (scf_lcao sd) H in
  let V := full_v2_tensor N n C in
  ∃ s',
    after_decision rank hw sd opts true (mkWorld f d l s t)
    = Ok () (mkWorld (<[fcid_file sd := FFcidump sd Hmo V (symvec sd)]> f)
               (if found then d else {[fcidump_files_dir sd]} ∪ d) l s'
               (t ++ [EvCdSvdDriver true (cholfile sd); EvReadCount (cholfile sd);
                      EvReadFromDisk "d_f1" (f1file sd);
                      EvReadFromDisk "cholVpr" (v2file sd); EvBarrier; EvBarrier]
                  ++ reconstruction_events N n hw
                  ++ export_events sd N AO found Hmo V
                  ++ epilogue_events opts (fcidump_files_prefix sd))).
Proof.
  intros N AO Hc Hn Hf1 HsD Hf2 HsC Hf HsH found Hmo V.
  unfold after_decision, checkpoint_branch.
  erewrite bind_ok_step by (eapply cd_svd_driver_restart; eassumption).
  erewrite bind_ok_step.
  2:{ cbn. eapply restore_branch_ok; try eassumption; by store_lookup. }
  cbn.
  edestruct (driver_tail_ok hw sd opts n AO)
    as (s' & Htail); [| | | |exact Hf|exact HsH|rewrite Htail].
  { by store_lookup. }
  { done. }
  { by store_lookup. }
  { done. }
  exists s'. f_equal. f_equal. trace_eq.
Qed.

(** ** Traces of the driver's stages, over all runs *)

Lemma emits_weaken {A} (P Q : Event → Prop) (m : M A) :
  (∀ e, P e → Q e) → emits P m → emits Q m.
Proof.
  intros HPQ Hm w. destruct (Hm w) as (evs & Ht & HP). exists evs.
  split; [done|]. by eapply Forall_impl.
Qed.

Lemma starts_with_emits {A B} e (m : M A) (k : A → M B) :
  starts_with e m → (∀ a, emits (λ _, True) (k a)) → starts_with e (m ≫= k).
Proof.
  intros Hm Hk w. unfold mbind, M_bind, bind.
  destruct (Hm w) as (post & Hpost).
  destruct (m w) as [a w1|err w1]; simpl in *; [|by eauto].
  destruct (Hk a w1) as (evs & Hevs & _). exists (post ++ evs).
  rewrite Hevs, Hpost. by rewrite <- app_assoc.
Qed.

Lemma starts_with_read_from_disk name path :
  starts_with (EvReadFromDisk name path) (read_from_disk name path).
Proof.
  intros w. exists []. unfold read_from_disk.
  destruct (w_store w !! name); [|done].
  destruct (w_files w !! path) as [[]|]; try done. by case_bool_decide.
Qed.

Lemma starts_with_write_to_disk name path :
  starts_with (EvWriteToDisk name path) (write_to_disk name path).
Proof.
  intros w. exists []. unfold write_to_disk.
  destruct (w_store w !! name); [|done]. by case_bool_decide.
Qed.

Lemma emits_driver_tail P hw sd opts nc :
  P EvBarrier → P EvFlushAndSync →
  (∀ names, P (EvAllocate names)) → (∀ names, P (EvFree names)) →
  (∀ ops h, P (EvExecute ops h)) →
  (∀ p b, P (EvExists p b)) → (∀ p, P (EvCreateDirectories p)) →
  (∀ p, P (EvMacisDriver p)) →
  P (EvReadFromDisk "hcore" (hcorefile sd)) →
  (∀ H V, P (EvWriteFcidump (fcid_file sd) sd H V (symvec sd))) →
  emits P (driver_tail hw sd opts nc).
Proof.
  intros. unfold driver_tail, generate_fcidump. emits_walk; done.
Qed.

Lemma emits_cd_svd_driver P sd N restart chol :
  P (EvCdSvdDriver restart chol) → (restart = true → P (EvReadCount chol)) →
  emits P (cd_svd_driver sd N restart chol).
Proof.
  intros H1 H2. unfold cd_svd_driver. destruct restart; emits_walk; auto.
Qed.

(** Without restart and without the write flag, nothing the driver does
    after the decision is checkpoint I/O. *)
Lemma emits_ephemeral rank hw sd opts :
  writet (ccsd_options (options_map sd)) = false →
  emits (λ e, checkpoint_io sd e = false) (after_decision rank hw sd opts false).
Proof.
  intros Hw. unfold after_decision, checkpoint_branch. rewrite Hw.
  apply emits_bind; [by apply emits_cd_svd_driver|intros cd].
  apply emits_bind; [apply emits_ret|intros _].
  apply emits_driver_tail; try done.
  - unfold checkpoint_io, touches.
    by rewrite !eqb_paths_differ by paths_differ.
  - intros. unfold checkpoint_io, touches.
    by rewrite !eqb_paths_differ by paths_differ.
Qed.

Lemma leaves_ephemeral p rank hw sd opts :
  writet (ccsd_options (options_map sd)) = false → fcid_file sd ≠ p →
  leaves_file p (after_decision rank hw sd opts false).
Proof.
  intros Hw Hp. unfold after_decision, checkpoint_branch, driver_tail,
    cd_svd_driver, generate_fcidump. rewrite Hw.
  by leaves_walk.
Qed.

Lemma prologue_no_checkpoint_io rank fn sd :
  Forall (λ e, checkpoint_io sd e = false) (prologue_events rank fn sd).
Proof.
  unfold prologue_events. destruct (rank =? 0)%nat; repeat constructor.
Qed.

Lemma decision_no_checkpoint_io sd f d :
  Forall (λ e, checkpoint_io sd e = false) (decision_events sd f d).
Proof.
  unfold decision_events. destruct (readt _); [constructor|].
  destruct (path_exists f d (f1file sd)); repeat constructor.
Qed.

(** C8. When neither flag is set and the two checkpoint tensor files are
    not both on disk, no event of the run, completed or not, reads, writes
    or opens the one-electron file, the factorized-vector file or the count
    file; and when the SCF stage's operator file is in place the run
    completes, going from the Cholesky stage straight to the barrier, the
    reconstruction and the export. *)
Theorem ephemeral_run_no_checkpoint_io rank hw fn opts files dirs locked :
  let sd := hartree_fock_driver fn opts in
  let N := setupMOIS sd in
  let AO := u_nao (upstream sd) in
  let nc := u_chol_count (upstream sd) in
  readt (ccsd_options (options_map sd)) = false →
  writet (ccsd_options (options_map sd)) = false →
  path_exists files dirs (f1file sd) = false
  ∨ path_exists files dirs (v2file sd) = false →
  let r := run_fci_driver rank hw fn opts files dirs locked in
  Forall (λ e, checkpoint_io sd e = false) (w_trace (final_world r))
  ∧ w_files (final_world r) !! f1file sd = files !! f1file sd
  ∧ w_files (final_world r) !! v2file sd = files !! v2file sd
  ∧ w_files (final_world r) !! cholfile sd = files !! cholfile sd
  ∧ ∀ H, files !! hcorefile sd = Some (FTensor H) → t_shape H = [AO; AO] →
      ∃ found Hmo V,
        completed r = true
        ∧ w_trace (final_world r)
          = prologue_events rank fn sd ++ decision_events sd files dirs
            ++ [EvCdSvdDriver false (cholfile sd); EvBarrier]
            ++ reconstruction_events N nc hw
            ++ export_events sd N AO found Hmo V
            ++ epilogue_events opts (fcidump_files_prefix sd).
Proof.
  intros sd N AO nc Hr Hw Hnone r.
  assert (restart_requested sd files dirs = false) as Hreq.
  { unfold restart_requested. rewrite Hr. simpl.
    destruct Hnone as [-> | ->]; [done|apply andb_false_r]. }
  subst r. unfold run_fci_driver, initial_world.
  rewrite fci_driver_decide. fold sd. rewrite Hreq. cbn [app].
  split; [|split; [|split; [|split]]].
  - destruct (emits_ephemeral rank hw sd opts Hw
                (mkWorld files dirs locked ∅
                   (prologue_events rank fn sd ++ decision_events sd files dirs)))
      as (evs & -> & Hevs).
    cbn [w_trace]. apply Forall_app. split; [apply Forall_app; split|done].
    + apply prologue_no_checkpoint_io.
    + apply decision_no_checkpoint_io.
  - rewrite leaves_ephemeral; [done..|paths_differ].
  - rewrite leaves_ephemeral; [done..|paths_differ].
  - rewrite leaves_ephemeral; [done..|paths_differ].
  - intros H Hf HsH.
    edestruct (ephemeral_after_decision rank hw sd opts files dirs locked)
      as (s' & Hrun); [exact Hw|exact Hf|exact HsH|rewrite Hrun].
    eexists _, _, _. split; [done|]. cbn [final_world w_trace].
    by rewrite <- app_assoc.
Qed.

Lemma emits_persist_branch P rank sd n :
  (∀ p b, P (EvExists p b)) → (∀ p, P (EvCreateDirectories p)) →
  P (EvWriteToDisk "d_f1" (f1file sd)) → P (EvWriteToDisk "cholVpr" (v2file sd)) →
  (∀ b, P (EvOpen (cholfile sd) b)) → (∀ text, P (EvCerr text)) →
  (∀ line, P (EvPut (cholfile sd) line)) → P (EvClose (cholfile sd)) →
  emits P (persist_branch rank sd n).
Proof. intros. unfold persist_branch. emits_walk; done. Qed.

Lemma emits_restore_branch P sd :
  P (EvReadFromDisk "d_f1" (f1file sd)) →
  P (EvReadFromDisk "cholVpr" (v2file sd)) → P EvBarrier →
  emits P (restore_branch sd).
Proof. intros. unfold restore_branch. emits_walk; done. Qed.

Lemma emits_anything_driver_tail hw sd opts nc :
  emits (λ _, True) (driver_tail hw sd opts nc).
Proof. by apply emits_driver_tail. Qed.

Lemma starts_with_restore {B} sd (k : unit → M B) :
  (∀ a, emits (λ _, True) (k a)) →
  starts_with (EvReadFromDisk "d_f1" (f1file sd)) (restore_branch sd ≫= k).
Proof.
  intros Hk. apply starts_with_emits; [|done].
  unfold restore_branch. apply starts_with_emits.
  - apply starts_with_read_from_disk.
  - intros _. emits_walk; done.
Qed.

(** Unless the restart decision is positive, the driver never reads the
    one-electron checkpoint. *)
Lemma emits_not_restoring rank hw sd opts :
  emits (λ e, e ≠ EvReadFromDisk "d_f1" (f1file sd))
        (after_decision rank hw sd opts false).
Proof.
  unfold after_decision, checkpoint_branch.
  apply emits_bind; [by apply emits_cd_svd_driver|intros cd].
  apply emits_bind; [|intros _; by apply emits_driver_tail].
  apply emits_if; [by apply emits_persist_branch|apply emits_ret].
Qed.

Lemma restart_requested_true sd f d :
  restart_requested sd f d = true ↔
  readt (ccsd_options (options_map sd)) = true
  ∨ (path_exists f d (f1file sd) = true ∧ path_exists f d (v2file sd) = true).
Proof.
  unfold restart_requested. rewrite orb_true_iff, andb_true_iff. tauto.
Qed.

Lemma prologue_not_tensor_io rank fn sd :
  Forall not_tensor_io (prologue_events rank fn sd).
Proof.
  unfold prologue_events.
  destruct (rank =? 0)%nat; repeat (constructor; [by split|]); constructor.
Qed.

Lemma decision_not_tensor_io sd f d :
  Forall not_tensor_io (decision_events sd f d).
Proof.
  unfold decision_events. destruct (readt _); [constructor|].
  destruct (path_exists f d (f1file sd));
    repeat (constructor; [by split|]); constructor.
Qed.

Lemma not_tensor_io_elem (l : list Event) (e : Event) :
  Forall not_tensor_io l → e ∈ l → not_tensor_io e.
Proof. rewrite Forall_forall. auto. Qed.

(** C3. The driver reads the one-electron checkpoint only if the restart
    flag is set or both checkpoint tensor files exist; when that holds and
    the Cholesky stage returns on its restart path, the first thing the
    driver does next is the read of [d_f1] from [f1file]; and when the
    checkpoint is in place the run completes with the two reads followed at
    once by the barrier of the restore branch, ahead of the common barrier,
    the reconstruction (from the factorized vectors read from [v2file]) and
    the export. *)
Theorem restore_branch_iff_restart rank hw fn opts files dirs locked :
  let sd := hartree_fock_driver fn opts in
  let N := setupMOIS sd in
  let AO := u_nao (upstream sd) in
  let r := run_fci_driver rank hw fn opts files dirs locked in
  let requested :=
    readt (ccsd_options (options_map sd)) = true
    ∨ (path_exists files dirs (f1file sd) = true
       ∧ path_exists files dirs (v2file sd) = true) in
  (EvReadFromDisk "d_f1" (f1file sd) ∈ w_trace (final_world r) → requested)
  ∧ (requested →
     ∀ line ls n,
       files !! cholfile sd = Some (FText (line :: ls)) → read_nat line = Some n →
       ∃ post,
         w_trace (final_world r)
         = prologue_events rank fn sd ++ decision_events sd files dirs
           ++ [EvCdSvdDriver true (cholfile sd); EvReadCount (cholfile sd)]
           ++ EvReadFromDisk "d_f1" (f1file sd) :: post)
  ∧ (requested →
     ∀ line ls n D C H,
       files !! cholfile sd = Some (FText (line :: ls)) → read_nat line = Some n →
       files !! f1file sd = Some (FTensor D) → t_shape D = [N; N] →
       files !! v2file sd = Some (FTensor C) → t_shape C = [N; N; n] →
       files !! hcorefile sd = Some (FTensor H) → t_shape H = [AO; AO] →
       ∃ found Hmo,
         completed r = true
         ∧ w_trace (final_world r)
           = prologue_events rank fn sd ++ decision_events sd files dirs
             ++ [EvCdSvdDriver true (cholfile sd); EvReadCount (cholfile sd);
                 EvReadFromDisk "d_f1" (f1file sd);
                 EvReadFromDisk "cholVpr" (v2file sd); EvBarrier; EvBarrier]
             ++ reconstruction_events N n hw
             ++ export_events sd N AO found Hmo (full_v2_tensor N n C)
             ++ epilogue_events opts (fcidump_files_prefix sd)).
Proof.
  intros sd N AO r requested. subst r requested.
  unfold run_fci_driver, initial_world. rewrite fci_driver_decide. fold sd.
  cbn [app]. rewrite <- restart_requested_true.
  split; [|split].
  - destruct (restart_requested sd files dirs); [done|]. intros Hin.
    destruct (emits_not_restoring rank hw sd opts
                (mkWorld files dirs locked ∅
                   (prologue_events rank fn sd ++ decision_events sd files dirs)))
      as (evs & Ht & Hevs).
    rewrite Ht in Hin. cbn [w_trace] in Hin.
    rewrite !elem_of_app in Hin. destruct Hin as [[Hin|Hin]|Hin].
    + eapply not_tensor_io_elem in Hin; [|apply prologue_not_tensor_io].
      by destruct (Hin "d_f1" (f1file sd)).
    + eapply not_tensor_io_elem in Hin; [|apply decision_not_tensor_io].
      by destruct (Hin "d_f1" (f1file sd)).
    + rewrite Forall_forall in Hevs. by apply Hevs in Hin.
  - intros -> line ls n Hc Hn. unfold after_decision, checkpoint_branch.
    erewrite bind_ok_step by (eapply cd_svd_driver_restart; eassumption).
    match goal with
    | |- context [(restore_branch sd ≫= ?k) ?w0] =>
        assert (starts_with (EvReadFromDisk "d_f1" (f1file sd))
                            (restore_branch sd ≫= k)) as Hstart
          by (apply starts_with_restore; intros _;
              apply emits_anything_driver_tail);
        destruct (Hstart w0) as (post & Hpost); rewrite Hpost
    end.
    exists post. cbn [w_trace]. by rewrite <- !app_assoc.
  - intros -> line ls n D C H Hc Hn Hf1 HsD Hf2 HsC Hf HsH.
    edestruct (restore_after_decision rank hw sd opts files dirs locked)
      as (s' & Hrun); [exact Hc|exact Hn|exact Hf1|exact HsD|exact Hf2|exact HsC
                      |exact Hf|exact HsH|rewrite Hrun].
    eexists _, _. split; [done|]. cbn [final_world w_trace].
    by rewrite <- app_assoc.
Qed.

(** ** The persist branch *)

Lemma length_append (s t : string) :
  String.length (s +:+ t) = String.length s + String.length t.
Proof.
  induction s as [|c s IH]; [done|].
  change (String c s +:+ t) with (String c (s +:+ t)). simpl. by rewrite IH.
Qed.

Lemma fcidump_files_dir_differs sd : fcidump_files_dir sd ≠ files_dir sd.
Proof.
  unfold fcidump_files_dir, files_dir. intros Heq.
  apply (f_equal String.length) in Heq. rewrite !length_append in Heq.
  simpl in Heq. lia.
Qed.

Lemma persist_events_other_ranks rank sd found opened n :
  rank ≠ 0 →
  Forall (λ e, touches (cholfile sd) e = false)
         (persist_events rank sd found opened n).
Proof.
  intros Hrank. unfold persist_events.
  destruct (Nat.eqb_spec rank 0) as [|_]; [done|].
  destruct found; repeat constructor; simpl;
    by rewrite eqb_paths_differ by paths_differ.
Qed.

Lemma common_events_leave_cholfile rank fn sd opts f d N nc AO hw found Hmo V :
  Forall (λ e, touches (cholfile sd) e = false)
         (prologue_events rank fn sd ++ decision_events sd f d)
  ∧ Forall (λ e, touches (cholfile sd) e = false)
           ([EvBarrier] ++ reconstruction_events N nc hw
              ++ export_events sd N AO found Hmo V
              ++ epilogue_events opts (fcidump_files_prefix sd)).
Proof.
  split.
  - apply Forall_app. split.
    + unfold prologue_events. destruct (rank =? 0)%nat; repeat constructor.
    + unfold decision_events. destruct (readt _); [constructor|].
      destruct (path_exists f d (f1file sd)); repeat constructor.
  - unfold reconstruction_events, export_events, epilogue_events.
    destruct found, (USE_MACIS && fci (task_options opts));
      repeat constructor; simpl; by rewrite eqb_paths_differ by paths_differ.
Qed.

Ltac file_lookup :=
  repeat first
    [ rewrite lookup_insert_eq
    | rewrite lookup_insert_ne by paths_differ ].

(** C7 (amended). A failure to open the count file in the persist branch
    is not turned into an abort.  On every rank the run completes when
    nothing else fails; on rank 0 the failed open is followed by a message
    on the error stream, the ignored write and the close, then by the
    barrier, the reconstruction and the export; the count file is left as
    it was. *)
Theorem count_file_open_failure_is_logged rank hw fn opts files dirs locked H :
  let sd := hartree_fock_driver fn opts in
  let N := setupMOIS sd in
  let AO := u_nao (upstream sd) in
  let nc := u_chol_count (upstream sd) in
  let r := run_fci_driver rank hw fn opts files dirs locked in
  let found := path_exists files dirs (files_dir sd) in
  writet (ccsd_options (options_map sd)) = true →
  restart_requested sd files dirs = false →
  f1file sd ∉ locked → v2file sd ∉ locked → cholfile sd ∈ locked →
  files !! hcorefile sd = Some (FTensor H) → t_shape H = [AO; AO] →
  ∃ found2 Hmo V,
    completed r = true
    ∧ w_trace (final_world r)
      = prologue_events rank fn sd ++ decision_events sd files dirs
        ++ [EvCdSvdDriver false (cholfile sd);
            EvExists (files_dir sd) found]
        ++ (if found then [] else [EvCreateDirectories (files_dir sd)])
        ++ [EvWriteToDisk "d_f1" (f1file sd);
            EvWriteToDisk "cholVpr" (v2file sd)]
        ++ (if (rank =? 0)%nat
            then [EvOpen (cholfile sd) false;
                  EvCerr ("Error opening file " +:+ cholfile sd +:+ endl);
                  EvPut (cholfile sd) (show_nat nc);
                  EvClose (cholfile sd)]
            else [])
        ++ [EvBarrier] ++ reconstruction_events N nc hw
        ++ export_events sd N AO found2 Hmo V
        ++ epilogue_events opts (fcidump_files_prefix sd)
    ∧ w_files (final_world r) !! cholfile sd = files !! cholfile sd.
Proof.
  intros sd N AO nc r found Hw Hreq Hl1 Hl2 Hl3 Hf HsH. subst r.
  unfold run_fci_driver, initial_world. rewrite fci_driver_decide. fold sd.
  cbn [app]. rewrite Hreq.
  edestruct (persist_after_decision rank hw sd opts files dirs locked)
    as (s' & Hrun); [exact Hw|exact Hl1|exact Hl2|exact Hf|exact HsH|].
  rewrite Hrun. clear Hrun. fold N AO nc found.
  cbn [final_world w_trace w_files w_dirs].
  rewrite (bool_decide_eq_true_2 (cholfile sd ∈ locked)) by done.
  cbn [negb]. rewrite andb_false_r.
  eexists _, _, _. split; [done|]. split.
  - unfold persist_events. rewrite <- !app_assoc. reflexivity.
  - by file_lookup.
Qed.

(** C6. When restore is requested by the restart flag and neither
    checkpoint tensor file is on disk, the run fails with an IOError or a
    ConfigurationError: the Cholesky stage is asked to restart, never to
    recompute, nothing is exported and no file is written. *)
Theorem restore_without_checkpoint_fails rank hw fn opts files dirs locked :
  let sd := hartree_fock_driver fn opts in
  let r := run_fci_driver rank hw fn opts files dirs locked in
  readt (ccsd_options (options_map sd)) = true →
  files !! f1file sd = None → files !! v2file sd = None →
  ∃ e w',
    r = Err e w'
    ∧ (e = IOError ∨ e = ConfigurationError)
    ∧ Forall (λ ev, is_recompute ev = false ∧ is_export ev = false) (w_trace w')
    ∧ w_files w' = files.
Proof.
  intros sd r Hr Hf1 Hf2. subst r.
  unfold run_fci_driver, initial_world. rewrite fci_driver_decide. fold sd.
  cbn [app]. unfold restart_requested, decision_events. rewrite Hr. cbn [orb].
  rewrite app_nil_r.
  unfold after_decision, checkpoint_branch.
  destruct (files !! cholfile sd) as [[D|[|line ls]|? ? ? ?]|] eqn:Hc;
    [| |destruct (read_nat line) as [n|] eqn:Hn| |].
  3:{ erewrite bind_ok_step by (eapply cd_svd_driver_restart; eassumption).
      erewrite bind_err_step.
      2:{ cbn. eapply restore_branch_no_f1; [by store_lookup|exact Hf1]. }
      eexists _, _. split; [reflexivity|]. split; [by left|]. split; [|done].
      unfold prologue_events. destruct (rank =? 0)%nat; cbn; repeat constructor. }
  5:{ erewrite bind_err_step by (by eapply cd_svd_driver_restart_no_count).
      eexists _, _. split; [reflexivity|]. split; [by left|]. split; [|done].
      unfold prologue_events. destruct (rank =? 0)%nat; cbn; repeat constructor. }
  all: erewrite bind_err_step;
    [|unfold cd_svd_driver; unfold_prims; cbn; rewrite Hc, ?Hn; reflexivity].
  all: eexists _, _; (split; [reflexivity|]); (split; [by right|]);
    (split; [|done]); unfold prologue_events; destruct (rank =? 0)%nat; cbn;
    repeat constructor.
Qed.

(** ** Restart equivalence *)

Lemma same_job_paths sd sd' :
  same_job sd sd' →
  f1file sd' = f1file sd ∧ v2file sd' = v2file sd ∧ cholfile sd' = cholfile sd
  ∧ hcorefile sd' = hcorefile sd ∧ fcid_file sd' = fcid_file sd
  ∧ fcidump_files_dir sd' = fcidump_files_dir sd.
Proof.
  intros (Hp & Hb & Hs & _).
  unfold f1file, v2file, cholfile, hcorefile, fcid_file, fcidump_files_prefix,
    fcidump_files_dir, files_prefix, files_dir, out_fp.
  by rewrite Hp, Hb, Hs.
Qed.

Lemma same_job_tensors sd sd' :
  same_job sd sd' →
  setupMOIS sd' = setupMOIS sd ∧ upstream sd' = upstream sd
  ∧ scf_lcao sd' = scf_lcao sd ∧ computed_cholVpr sd' = computed_cholVpr sd
  ∧ symvec sd' = symvec sd.
Proof.
  intros (_ & _ & _ & Hn & Hu & _ & _ & HN & Hup).
  unfold scf_lcao, computed_cholVpr, symvec.
  by rewrite Hn, Hu, HN, Hup.
Qed.

(** C5. A persist run, followed by a restore run on the file system the
    persist run of the designated writer left, hands the exporter the same
    one-electron tensor, the same two-electron tensor and the same symmetry
    labels, for the same file, as a single run of the same job without
    checkpoint flags. *)
Theorem restart_equivalence rank hw fn opts_p opts_r opts_e files dirs locked H :
  let sd_p := hartree_fock_driver fn opts_p in
  let sd_r := hartree_fock_driver fn opts_r in
  let sd_e := hartree_fock_driver fn opts_e in
  same_job sd_p sd_r → same_job sd_p sd_e →
  readt (ccsd_options (options_map sd_p)) = false →
  writet (ccsd_options (options_map sd_p)) = true →
  readt (ccsd_options (options_map sd_r)) = true →
  readt (ccsd_options (options_map sd_e)) = false →
  writet (ccsd_options (options_map sd_e)) = false →
  path_exists files dirs (f1file sd_p) = false
  ∨ path_exists files dirs (v2file sd_p) = false →
  f1file sd_p ∉ locked → v2file sd_p ∉ locked → cholfile sd_p ∉ locked →
  files !! hcorefile sd_p = Some (FTensor H) →
  t_shape H = [u_nao (upstream sd_p); u_nao (upstream sd_p)] →
  ∃ w1 w2 w3 H1 V2 sv,
    run_fci_driver 0 hw fn opts_p files dirs locked = Ok () w1
    ∧ run_fci_driver rank hw fn opts_r (w_files w1) (w_dirs w1) (w_locked w1)
      = Ok () w2
    ∧ run_fci_driver rank hw fn opts_e files dirs locked = Ok () w3
    ∧ fcid_file sd_r = fcid_file sd_e
    ∧ w_files w2 !! fcid_file sd_r = Some (FFcidump sd_r H1 V2 sv)
    ∧ w_files w3 !! fcid_file sd_e = Some (FFcidump sd_e H1 V2 sv)
    ∧ EvReadFromDisk "cholVpr" (v2file sd_r) ∈ w_trace w2
    ∧ EvCdSvdDriver false (cholfile sd_e) ∈ w_trace w3.
Proof.
  intros sd_p sd_r sd_e Hjr Hje Hrp Hwp Hrr Hre Hwe Hnone Hl1 Hl2 Hl3 Hf HsH.
  destruct (same_job_paths _ _ Hjr) as (Pf1 & Pv2 & Pch & Phc & Pfc & Pdir).
  destruct (same_job_paths _ _ Hje) as (Ef1 & Ev2 & Ech & Ehc & Efc & Edir).
  destruct (same_job_tensors _ _ Hjr) as (PN & Pup & Plc & Pcv & Psv).
  destruct (same_job_tensors _ _ Hje) as (EN & Eup & Elc & Ecv & Esv).
  assert (restart_requested sd_p files dirs = false) as Hreq_p.
  { unfold restart_requested. rewrite Hrp. simpl.
    destruct Hnone as [-> | ->]; [done|apply andb_false_r]. }
  assert (restart_requested sd_e files dirs = false) as Hreq_e.
  { unfold restart_requested. rewrite Hre, Ef1, Ev2. simpl.
    destruct Hnone as [-> | ->]; [done|apply andb_false_r]. }
  (* the persist run of the designated writer *)
  pose proof (fci_driver_decide 0 hw fn opts_p files dirs locked ∅ []) as R1.
  cbn zeta in R1. fold sd_p in R1. rewrite Hreq_p in R1.
  edestruct (persist_after_decision 0 hw sd_p opts_p files dirs locked)
    as (s1 & Hrun1); [exact Hwp|exact Hl1|exact Hl2|exact Hf|exact HsH|].
  rewrite Hrun1 in R1. clear Hrun1.
  rewrite (bool_decide_eq_false_2 (cholfile sd_p ∈ locked)) in R1 by done.
  cbn [negb andb Nat.eqb] in R1.
  unfold run_fci_driver, initial_world.
  match type of R1 with _ = Ok () ?W => exists W end.
  cbn [w_files w_dirs w_locked].
  (* the restore run *)
  pose proof (fci_driver_decide rank hw fn opts_r) as R2.
  cbn zeta in R2. fold sd_r in R2.
  assert (∀ f d, restart_requested sd_r f d = true) as Hreq_r.
  { intros. unfold restart_requested. by rewrite Hrr. }
  setoid_rewrite Hreq_r in R2.
  match goal with
  | |- context [fci_driver rank hw fn opts_r (mkWorld ?f ?d ?l ?s ?t)] =>
      specialize (R2 f d l s t);
      edestruct (restore_after_decision rank hw sd_r opts_r f d l s
                   (t ++ prologue_events rank fn sd_r ++ decision_events sd_r f d))
        as (s2 & Hrun2)
  end.
  { rewrite Pch. file_lookup. reflexivity. }
  { apply read_show_nat. }
  { rewrite Pf1. file_lookup. reflexivity. }
  { by rewrite PN. }
  { rewrite Pv2. file_lookup. reflexivity. }
  { by rewrite PN. }
  { rewrite Phc. file_lookup. exact Hf. }
  { by rewrite Pup. }
  rewrite Hrun2 in R2. clear Hrun2.
  match type of R2 with _ = Ok () ?W => exists W end.
  (* the run without checkpointing *)
  pose proof (fci_driver_decide rank hw fn opts_e files dirs locked ∅ []) as R3.
  cbn zeta in R3. fold sd_e in R3. rewrite Hreq_e in R3.
  edestruct (ephemeral_after_decision rank hw sd_e opts_e files dirs locked)
    as (s3 & Hrun3); [exact Hwe| | |rewrite Hrun3 in R3; clear Hrun3].
  { rewrite Ehc. exact Hf. }
  { by rewrite Eup. }
  match type of R3 with _ = Ok () ?W => exists W end.
  eexists _, _, _. split; [exact R1|]. split; [exact R2|].
  split; [exact R3|]. clear R1 R2 R3. cbn [w_files w_trace].
  split; [by rewrite Pfc, Efc|].
  split; [rewrite lookup_insert_eq; reflexivity|].
  split.
  { rewrite lookup_insert_eq.
    by rewrite EN, Eup, Elc, Ecv, Esv, PN, Pup, Plc, Psv. }
  split.
  - apply elem_of_app. right. apply elem_of_app. left.
    rewrite !elem_of_cons. rewrite Pv2. auto 10.
  - apply elem_of_app. right. apply elem_of_app. left.
    rewrite !elem_of_cons. auto.
Qed.

(** ** Disk invariants over all runs *)

Lemma keeps_ret {A} I (a : A) : keeps I (mret a).
Proof. by intros w. Qed.

Lemma keeps_bind {A B} I (m : M A) (k : A → M B) :
  keeps I m → (∀ a, keeps I (k a)) → keeps I (m ≫= k).
Proof.
  intros Hm Hk w HI. unfold mbind, M_bind, bind. specialize (Hm w HI).
  destruct (m w) as [a w1|e w1]; simpl in *; [|done]. by apply Hk.
Qed.

Lemma keeps_if {A} I (c : bool) (m1 m2 : M A) :
  keeps I m1 → keeps I m2 → keeps I (if c then m1 else m2).
Proof. by destruct c. Qed.

Lemma keeps_same_disk {A} I (m : M A) :
  (∀ w, w_files (final_world (m w)) = w_files w
        ∧ w_dirs (final_world (m w)) = w_dirs w) →
  keeps I m.
Proof. intros Hm w HI. by destruct (Hm w) as [-> ->]. Qed.

Lemma keeps_log I e : keeps I (log e).
Proof. by apply keeps_same_disk. Qed.

Lemma keeps_barrier I : keeps I barrier.
Proof. by apply keeps_same_disk. Qed.

Lemma keeps_fs_exists I p : keeps I (fs_exists p).
Proof. by apply keeps_same_disk. Qed.

Lemma keeps_allocate I ts : keeps I (allocate ts).
Proof. by apply keeps_same_disk. Qed.

Lemma keeps_free_tensors I names : keeps I (free_tensors names).
Proof. by apply keeps_same_disk. Qed.

Lemma keeps_tensor_shape I name : keeps I (tensor_shape name).
Proof. by apply keeps_same_disk. Qed.

Lemma keeps_put_tensor I name t : keeps I (put_tensor name t).
Proof. by apply keeps_same_disk. Qed.

Lemma keeps_ofstream_close I p : keeps I (ofstream_close p).
Proof. by apply keeps_same_disk. Qed.

Lemma keeps_read_from_disk I name path : keeps I (read_from_disk name path).
Proof.
  apply keeps_same_disk. intros w. unfold read_from_disk.
  destruct (w_store w !! name); [|done].
  destruct (w_files w !! path) as [[]|]; try done. by case_bool_decide.
Qed.

Lemma keeps_read_count I path : keeps I (read_count path).
Proof.
  apply keeps_same_disk. intros w. unfold read_count.
  destruct (w_files w !! path) as [[|[|line ls]|]|]; try done.
  by destruct (read_nat line).
Qed.

Lemma keeps_execute I ops hw : keeps I (execute ops hw).
Proof.
  apply keeps_same_disk. intros w. unfold execute.
  by destruct (exec_ops ops (w_store w)).
Qed.

Lemma keeps_create_directories I p :
  mkdir_stable I p → keeps I (create_directories p).
Proof.
  intros HI w Hw. unfold create_directories.
  destruct (dir_blocked _ _ _); [done|]. by apply HI.
Qed.

Lemma keeps_write_to_disk I name path :
  write_stable I path → keeps I (write_to_disk name path).
Proof.
  intros HI w Hw. unfold write_to_disk.
  destruct (w_store w !! name); [|done]. case_bool_decide; [done|].
  by apply HI.
Qed.

Lemma keeps_ofstream_open I path :
  write_stable I path → keeps I (ofstream_open path).
Proof.
  intros HI w Hw. unfold ofstream_open. case_bool_decide; [done|]. by apply HI.
Qed.

Lemma keeps_ofstream_put I opened path line :
  alter_stable I path → keeps I (ofstream_put opened path line).
Proof. intros HI w Hw. unfold ofstream_put. destruct opened; [|done]. by apply HI. Qed.

Lemma keeps_write_fcidump_file I sd h1 v2 sv path :
  write_stable I path → keeps I (write_fcidump_file sd h1 v2 sv path).
Proof.
  intros HI w Hw. unfold write_fcidump_file.
  destruct (w_store w !! h1); [|done]. destruct (w_store w !! v2); [|done].
  by apply HI.
Qed.

(** Walks a program of the monad, leaving one goal per write it makes
    to the disk. *)
Ltac keeps_walk :=
  repeat first
    [ apply keeps_bind; [|intros ?]
    | apply keeps_if
    | apply keeps_ret
    | apply keeps_log
    | apply keeps_barrier
    | apply keeps_fs_exists
    | apply keeps_allocate
    | apply keeps_free_tensors
    | apply keeps_tensor_shape
    | apply keeps_put_tensor
    | apply keeps_ofstream_close
    | apply keeps_read_from_disk
    | apply keeps_read_count
    | apply keeps_execute
    | apply keeps_create_directories
    | apply keeps_write_to_disk
    | apply keeps_ofstream_open
    | apply keeps_ofstream_put
    | apply keeps_write_fcidump_file ].

Ltac unfold_driver :=
  unfold fci_driver, ccsd_restart_decision, cd_svd_driver, restore_branch,
    persist_branch, generate_fcidump.

(** The driver writes four files and makes two directories at most. *)
Lemma keeps_fci_driver I rank hw fn opts :
  let sd := hartree_fock_driver fn opts in
  write_stable I (f1file sd) → write_stable I (v2file sd) →
  write_stable I (cholfile sd) → alter_stable I (cholfile sd) →
  write_stable I (fcid_file sd) →
  mkdir_stable I (files_dir sd) → mkdir_stable I (fcidump_files_dir sd) →
  keeps I (fci_driver rank hw fn opts).
Proof. intros sd **. unfold_driver. keeps_walk; done. Qed.

Lemma path_exists_insert f d p q c :
  path_exists f d q = true → path_exists (<[p := c]> f) d q = true.
Proof.
  apply path_exists_mono; [|done]. intros k. apply is_Some_insert_mono.
Qed.

Lemma path_exists_alter f d p q g :
  path_exists f d q = true → path_exists (alter g p f) d q = true.
Proof.
  apply path_exists_mono; [|done]. intros k. apply is_Some_alter_mono.
Qed.

Lemma path_exists_mkdir f d p q :
  path_exists f d q = true → path_exists f ({[p]} ∪ d) q = true.
Proof. apply path_exists_mono; [done|]. apply union_subseteq_r. Qed.

(** X1. No run of the driver removes anything from disk: a path that
    exists when the run starts, as a file or as a directory, exists when
    it ends, however the run ends. *)
Theorem fci_driver_never_deletes rank hw fn opts files dirs locked p :
  let r := run_fci_driver rank hw fn opts files dirs locked in
  path_exists files dirs p = true →
  path_exists (w_files (final_world r)) (w_dirs (final_world r)) p = true.
Proof.
  intros r Hp. subst r. unfold run_fci_driver.
  apply (keeps_fci_driver (λ f d, path_exists f d p = true)); try done.
  all: try (intros f d c; apply path_exists_insert).
  all: try (intros f d c; apply path_exists_alter).
  all: intros f d; apply path_exists_mkdir.
Qed.

Lemma keeps_after_decision_restart I rank hw sd opts :
  write_stable I (fcid_file sd) → mkdir_stable I (fcidump_files_dir sd) →
  keeps I (after_decision rank hw sd opts true).
Proof.
  intros. unfold after_decision, checkpoint_branch, driver_tail.
  unfold_driver. keeps_walk; done.
Qed.

(** What is new on disk once [p] is written or made: [p] itself and the
    directories it lies in. *)
Lemma path_exists_grown (f f' : gmap string Content) (d d' : gset string) p q :
  (∀ k, is_Some (f' !! k) → k = p ∨ is_Some (f !! k)) →
  (∀ k, k ∈ d' → k = p ∨ k ∈ d) →
  path_exists f' d' q = true →
  path_exists f d q = true ∨ q = p ∨ Paths.inside q p = true.
Proof.
  intros Hf Hd. rewrite !path_exists_spec.
  intros [Hq|[Hq|(k & [Hk|Hk] & Hin)]].
  - destruct (Hf q Hq) as [->|?]; auto.
  - destruct (Hd q Hq) as [->|?]; auto.
  - destruct (Hf k Hk) as [->|?]; [auto|]. left. right. right. exists k. auto.
  - destruct (Hd k Hk) as [->|?]; [auto|]. left. right. right. exists k. auto.
Qed.

(** The paths the driver writes or makes. *)
Lemma footprint_stable sd (files : gmap string Content) (dirs : gset string) p :
  p ∈ [f1file sd; v2file sd; cholfile sd; fcid_file sd; files_dir sd;
       fcidump_files_dir sd] →
  let I := λ (f : gmap string Content) (d : gset string),
    ∀ q, path_exists f d q = true →
         path_exists files dirs q = true
         ∨ ∃ k, k ∈ [f1file sd; v2file sd; cholfile sd; fcid_file sd;
                     files_dir sd; fcidump_files_dir sd]
                ∧ (q = k ∨ Paths.inside q k = true) in
  write_stable I p ∧ alter_stable I p ∧ mkdir_stable I p.
Proof.
  intros Hp I. repeat split.
  - intros f d c HI q Hq.
    apply (path_exists_grown f _ d _ p) in Hq as [Hq|Hq];
      [by apply HI|right; exists p; by split| |by right].
    intros k. destruct (decide (p = k)) as [->|Hne]; [by left|].
    rewrite lookup_insert_ne by done. by right.
  - intros f d g HI q Hq. apply HI. revert Hq.
    apply path_exists_mono; [|done].
    intros k. destruct (decide (p = k)) as [->|Hne].
    + rewrite lookup_alter_eq. by intros ?%fmap_is_Some.
    + by rewrite lookup_alter_ne.
  - intros f d HI q Hq.
    apply (path_exists_grown f _ d _ p) in Hq as [Hq|Hq];
      [by apply HI|right; exists p; by split|by right|].
    intros k [->%elem_of_singleton|?]%elem_of_union; auto.
Qed.

(** X2. The driver's footprint on disk, in every run: a file other than
    the two checkpoint tensors, the count file and the dump keeps its
    content; the directories present at the start are still there; and a
    path that exists when the run ends existed when it started, or is one
    of those four files, the checkpoint directory or the dump's
    directory, or a directory one of these six lies in (a parent made
    along with it). *)
Theorem fci_driver_disk_footprint rank hw fn opts files dirs locked :
  let sd := hartree_fock_driver fn opts in
  let r := run_fci_driver rank hw fn opts files dirs locked in
  (∀ p, p ∉ [f1file sd; v2file sd; cholfile sd; fcid_file sd] →
        w_files (final_world r) !! p = files !! p)
  ∧ dirs ⊆ w_dirs (final_world r)
  ∧ ∀ q, path_exists (w_files (final_world r)) (w_dirs (final_world r)) q = true →
         path_exists files dirs q = true
         ∨ ∃ k, k ∈ [f1file sd; v2file sd; cholfile sd; fcid_file sd;
                     files_dir sd; fcidump_files_dir sd]
                ∧ (q = k ∨ Paths.inside q k = true).
Proof.
  intros sd r. subst r. unfold run_fci_driver. repeat split.
  - intros p Hp. rewrite !not_elem_of_cons in Hp.
    destruct Hp as (H1 & H2 & H3 & H4 & _).
    apply (keeps_fci_driver (λ f d, f !! p = files !! p));
      unfold write_stable, alter_stable, mkdir_stable; fold sd; try done.
    all: intros f d c Hf.
    all: by rewrite ?lookup_insert_ne, ?lookup_alter_ne.
  - apply (keeps_fci_driver (λ f d, dirs ⊆ d));
      unfold write_stable, alter_stable, mkdir_stable; try done.
    all: intros f d Hd; by apply union_subseteq_r'.
  - apply (keeps_fci_driver
             (λ f d, ∀ q, path_exists f d q = true →
                path_exists files dirs q = true
                ∨ ∃ k, k ∈ [f1file sd; v2file sd; cholfile sd; fcid_file sd;
                            files_dir sd; fcidump_files_dir sd]
                       ∧ (q = k ∨ Paths.inside q k = true)));
      fold sd.
    8: by left.
    all: eapply footprint_stable; rewrite !elem_of_cons; by auto 10.
Qed.

(** X3. A run that takes the restart decision only reads the checkpoint:
    however it ends, the two tensor files and the count file hold what they
    held before, and the checkpoint directory is not created. *)
Theorem restart_run_reads_checkpoint_only rank hw fn opts files dirs locked :
  let sd := hartree_fock_driver fn opts in
  let r := run_fci_driver rank hw fn opts files dirs locked in
  restart_requested sd files dirs = true →
  w_files (final_world r) !! f1file sd = files !! f1file sd
  ∧ w_files (final_world r) !! v2file sd = files !! v2file sd
  ∧ w_files (final_world r) !! cholfile sd = files !! cholfile sd
  ∧ w_dirs (final_world r) ⊆ {[fcidump_files_dir sd]} ∪ dirs.
Proof.
  intros sd r Hreq. subst r. unfold run_fci_driver, initial_world.
  rewrite fci_driver_decide. fold sd. rewrite Hreq.
  repeat split.
  - apply (keeps_after_decision_restart (λ f d, f !! f1file sd = files !! f1file sd));
      unfold write_stable, mkdir_stable; try done.
    intros f d c Hf. rewrite lookup_insert_ne; [done|]. paths_differ.
  - apply (keeps_after_decision_restart (λ f d, f !! v2file sd = files !! v2file sd));
      unfold write_stable, mkdir_stable; try done.
    intros f d c Hf. rewrite lookup_insert_ne; [done|]. paths_differ.
  - apply (keeps_after_decision_restart (λ f d, f !! cholfile sd = files !! cholfile sd));
      unfold write_stable, mkdir_stable; try done.
    intros f d c Hf. rewrite lookup_insert_ne; [done|]. paths_differ.
  - apply (keeps_after_decision_restart
             (λ f d, d ⊆ {[fcidump_files_dir sd]} ∪ dirs));
      unfold write_stable, mkdir_stable; try done.
    + intros f d Hd. apply union_least; [|done].
      apply singleton_subseteq_l. rewrite !elem_of_union, !elem_of_singleton. auto.
    + simpl. apply union_subseteq_r.
Qed.

(** ** What holds when a program returns *)

Lemma wp_ok {A} (m : M A) Q w a w' : wp m Q w → m w = Ok a w' → Q a w'.
Proof. unfold wp. intros H Heq. by rewrite Heq in H. Qed.

Lemma wp_completed {A} (m : M A) Q w :
  wp m Q w → completed (m w) = true →
  ∃ a, m w = Ok a (final_world (m w)) ∧ Q a (final_world (m w)).
Proof. unfold wp. destruct (m w); [by eexists|done]. Qed.

Lemma wp_mono {A} (m : M A) (Q Q' : A → World → Prop) w :
  wp m Q w → (∀ a w', Q a w' → Q' a w') → wp m Q' w.
Proof. unfold wp. destruct (m w); auto. Qed.

Lemma wp_skip {A} (m : M A) (Q : A → World → Prop) w :
  (∀ a w', Q a w') → wp m Q w.
Proof. unfold wp. by destruct (m w). Qed.

Lemma wp_ret {A} (a : A) Q w : Q a w → wp (mret a) Q w.
Proof. done. Qed.

Lemma wp_bind {A B} (m : M A) (k : A → M B) Q w :
  wp m (λ a w', wp (k a) Q w') w → wp (m ≫= k) Q w.
Proof. unfold wp, mbind, M_bind, bind. simpl. by destruct (m w). Qed.

Lemma wp_if {A} (c : bool) (m1 m2 : M A) Q w :
  (c = true → wp m1 Q w) → (c = false → wp m2 Q w) →
  wp (if c then m1 else m2) Q w.
Proof. destruct c; auto. Qed.

Lemma wp_log e Q w : Q () (add_event e w) → wp (log e) Q w.
Proof. done. Qed.

Lemma wp_barrier Q w : Q () (add_event EvBarrier w) → wp barrier Q w.
Proof. done. Qed.

Lemma wp_fs_exists p Q w :
  Q (path_exists (w_files w) (w_dirs w) p)
    (add_event (EvExists p (path_exists (w_files w) (w_dirs w) p)) w) →
  wp (fs_exists p) Q w.
Proof. done. Qed.

Lemma wp_create_directories p Q w :
  (dir_blocked (w_files w) (w_dirs w) p = false →
   Q () (add_event (EvCreateDirectories p) (set_dirs ({[p]} ∪ w_dirs w) w))) →
  wp (create_directories p) Q w.
Proof.
  intros HQ. unfold wp, create_directories.
  destruct (dir_blocked _ _ _); [done|]. by apply HQ.
Qed.

Lemma wp_allocate ts Q w :
  Q () (add_event (EvAllocate ts.*1)
          (set_store (fold_left (λ st t, <[t.1 := zero_tensor t.2]> st)
                                ts (w_store w)) w)) →
  wp (allocate ts) Q w.
Proof. done. Qed.

Lemma wp_free_tensors names Q w :
  Q () (add_event (EvFree names) (set_store (delete_all names (w_store w)) w)) →
  wp (free_tensors names) Q w.
Proof. done. Qed.

Lemma wp_tensor_shape name Q w :
  Q (default [] (t_shape <$> w_store w !! name)) w → wp (tensor_shape name) Q w.
Proof. done. Qed.

Lemma wp_put_tensor name t Q w :
  Q () (set_store (<[name := t]> (w_store w)) w) → wp (put_tensor name t) Q w.
Proof. done. Qed.

Lemma wp_ofstream_close p Q w :
  Q () (add_event (EvClose p) w) → wp (ofstream_close p) Q w.
Proof. done. Qed.

Lemma wp_read_from_disk name path Q w :
  (∀ cur v, w_store w !! name = Some cur →
            w_files w !! path = Some (FTensor v) → t_shape v = t_shape cur →
            Q () (set_store (<[name := v]> (w_store w))
                    (add_event (EvReadFromDisk name path) w))) →
  wp (read_from_disk name path) Q w.
Proof.
  intros HQ. unfold wp, read_from_disk.
  destruct (w_store w !! name) as [cur|]; [|done].
  destruct (w_files w !! path) as [[v| |]|]; try done.
  case_bool_decide; [|done]. by eapply HQ.
Qed.

Lemma wp_write_to_disk name path Q w :
  (∀ v, w_store w !! name = Some v → path ∉ w_locked w →
        Q () (set_files (<[path := FTensor v]> (w_files w))
                (add_event (EvWriteToDisk name path) w))) →
  wp (write_to_disk name path) Q w.
Proof.
  intros HQ. unfold wp, write_to_disk.
  destruct (w_store w !! name) as [v|]; [|done].
  case_bool_decide; [done|]. by apply HQ.
Qed.

Lemma wp_execute ops hw Q w :
  (∀ st, exec_ops ops (w_store w) = inr st →
         Q () (set_store st (add_event (EvExecute ops hw) w))) →
  wp (execute ops hw) Q w.
Proof.
  intros HQ. unfold wp, execute.
  destruct (exec_ops ops (w_store w)) as [|st]; [done|]. by apply HQ.
Qed.

Lemma wp_ofstream_open path Q w :
  (path ∈ w_locked w → Q false (add_event (EvOpen path false) w)) →
  (path ∉ w_locked w →
   Q true (add_event (EvOpen path true)
             (set_files (<[path := FText []]> (w_files w)) w))) →
  wp (ofstream_open path) Q w.
Proof. intros H1 H2. unfold wp, ofstream_open. case_bool_decide; auto. Qed.

Lemma wp_ofstream_put opened path line Q w :
  Q () (if opened : bool
        then set_files (alter (append_line line) path (w_files w))
               (add_event (EvPut path line) w)
        else add_event (EvPut path line) w) →
  wp (ofstream_put opened path line) Q w.
Proof. unfold wp, ofstream_put. by destruct opened. Qed.

Lemma wp_write_fcidump_file sd h1 v2 sv path Q w :
  (∀ H V, w_store w !! h1 = Some H → w_store w !! v2 = Some V →
          Q () (add_event (EvWriteFcidump path sd H V sv)
                  (set_files (<[path := FFcidump sd H V sv]> (w_files w)) w))) →
  wp (write_fcidump_file sd h1 v2 sv path) Q w.
Proof.
  intros HQ. unfold wp, write_fcidump_file.
  destruct (w_store w !! h1); [|done]. destruct (w_store w !! v2); [|done].
  by apply HQ.
Qed.

Lemma wp_read_count path Q w :
  (∀ line ls n, w_files w !! path = Some (FText (line :: ls)) →
                read_nat line = Some n →
                Q n (add_event (EvReadCount path) w)) →
  wp (read_count path) Q w.
Proof.
  intros HQ. unfold wp, read_count.
  destruct (w_files w !! path) as [[|[|line ls]|]|]; try done.
  destruct (read_nat line) eqn:Hn; [|done]. by eapply HQ.
Qed.

(** One step of a program: the head operation's rule, its side conditions
    introduced. *)
Ltac wp_step :=
  lazymatch goal with
  | |- wp (_ ≫= _) _ _ => apply wp_bind
  | |- wp (mret _) _ _ => apply wp_ret
  | |- wp (log _) _ _ => apply wp_log
  | |- wp barrier _ _ => apply wp_barrier
  | |- wp (fs_exists _) _ _ => apply wp_fs_exists
  | |- wp (create_directories _) _ _ => apply wp_create_directories; intros ?
  | |- wp (allocate _) _ _ => apply wp_allocate
  | |- wp (free_tensors _) _ _ => apply wp_free_tensors
  | |- wp (tensor_shape _) _ _ => apply wp_tensor_shape
  | |- wp (put_tensor _ _) _ _ => apply wp_put_tensor
  | |- wp (ofstream_close _) _ _ => apply wp_ofstream_close
  | |- wp (ofstream_put _ _ _) _ _ => apply wp_ofstream_put
  | |- wp (read_from_disk _ _) _ _ => apply wp_read_from_disk; intros ? ? ? ? ?
  | |- wp (write_to_disk _ _) _ _ => apply wp_write_to_disk; intros ? ? ?
  | |- wp (execute _ _) _ _ => apply wp_execute; intros ? ?
  | |- wp (ofstream_open _) _ _ => apply wp_ofstream_open; intros ?
  | |- wp (write_fcidump_file _ _ _ _ _) _ _ =>
      apply wp_write_fcidump_file; intros ? ? ? ?
  | |- wp (read_count _) _ _ => apply wp_read_count; intros ? ? ? ? ?
  | |- wp (if _ then _ else _) _ _ => apply wp_if; intros ?
  end;
  cbv beta.

Ltac world_simpl :=
  unfold add_event, set_store, set_files, set_dirs;
  cbn [w_store w_files w_dirs w_locked w_trace fold_left fst snd];
  repeat match goal with
         | H : _ |- _ =>
             progress (unfold add_event, set_store, set_files, set_dirs in H;
                       cbn [w_store w_files w_dirs w_locked w_trace fold_left
                            fst snd] in H)
         end.

Ltac wp_walk := repeat (wp_step; world_simpl).

(** ** The tensors of the execution context *)

Lemma lookup_delete_all names (st : gmap string Tensor) name :
  delete_all names st !! name
  = if bool_decide (name ∈ names) then None else st !! name.
Proof.
  unfold delete_all. revert st.
  induction names as [|n names IH]; intros st; cbn [fold_left].
  - rewrite bool_decide_eq_false_2; [done|]. apply not_elem_of_nil.
  - rewrite IH. destruct (decide (name = n)) as [->|Hne].
    + rewrite (bool_decide_eq_true_2 (n ∈ n :: names)) by left.
      case_bool_decide; [done|]. apply lookup_delete_eq.
    + rewrite lookup_delete_ne by done.
      case_bool_decide as H1; case_bool_decide as H2; try done.
      * exfalso. apply H2. by right.
      * exfalso. apply elem_of_cons in H2 as [?|?]; done.
Qed.

Lemma exec_ops_cons op ops st :
  exec_ops (op :: ops) st
  = match exec_op st op with inl e => inl e | inr st' => exec_ops ops st' end.
Proof. done. Qed.

Lemma exec_op_frame st op st' name :
  exec_op st op = inr st' → name ∉ op_writes op → st' !! name = st !! name.
Proof.
  destruct op as [n sh|lhs a b|names]; simpl; intros H Hn.
  - simplify_eq. rewrite lookup_insert_ne; [done|].
    intros ->. apply Hn. by left.
  - repeat case_match; simplify_eq. rewrite lookup_insert_ne; [done|].
    intros Heq. apply Hn. rewrite Heq. by left.
  - simplify_eq. rewrite lookup_delete_all. by rewrite bool_decide_eq_false_2.
Qed.

(** A scheduler program changes only the tensors its directives name on
    their left-hand sides. *)
Lemma exec_ops_frame ops st st' name :
  exec_ops ops st = inr st' → name ∉ flat_map op_writes ops →
  st' !! name = st !! name.
Proof.
  revert st. induction ops as [|op ops IH]; intros st H Hn.
  - unfold exec_ops in H. by simplify_eq.
  - rewrite exec_ops_cons in H.
    destruct (exec_op st op) as [|st1] eqn:Hop; [done|].
    simpl in Hn. rewrite elem_of_app in Hn.
    rewrite (IH st1 H) by (intros ?; apply Hn; by right).
    apply (exec_op_frame _ _ _ _ Hop). intros ?. apply Hn. by left.
Qed.

Lemma exec_ops_app ops1 ops2 st :
  exec_ops (ops1 ++ ops2) st
  = match exec_ops ops1 st with inl e => inl e | inr st' => exec_ops ops2 st' end.
Proof.
  revert st. induction ops1 as [|op ops1 IH]; intros st; [done|].
  rewrite <- app_comm_cons, !exec_ops_cons.
  by destruct (exec_op st op).
Qed.

(** The rotation program ends by deallocating [tmp] and [hcore]; the
    other tensors of the context, [hcore_mo] apart, are as before. *)
Lemma rotation_program_store MSO AO st st' name :
  exec_ops (rotation_program MSO AO) st = inr st' →
  st' !! name
  = if bool_decide (name ∈ ["tmp"; "hcore"]) then None
    else if bool_decide (name = "hcore_mo") then st' !! "hcore_mo"
    else st !! name.
Proof.
  intros H. unfold rotation_program in H.
  change [?a; ?b; ?c; ?d] with ([a; b; c] ++ [d]) in H.
  rewrite exec_ops_app in H.
  match type of H with
  | match ?e with _ => _ end = _ => destruct e as [|st1] eqn:H1; [done|]
  end.
  rewrite exec_ops_cons in H. unfold exec_op, exec_ops in H. simplify_eq.
  rewrite !lookup_delete_all. case_bool_decide as Hd; [done|].
  case_bool_decide as Hm; [by subst|].
  apply (exec_ops_frame _ _ _ _ H1). cbn.
  rewrite !not_elem_of_cons in Hd. rewrite !not_elem_of_cons.
  destruct Hd as (? & ? & _). repeat split; try done. apply not_elem_of_nil.
Qed.

(** Decides the tests on closed strings that occur in the goal. *)
Ltac decide_strings :=
  repeat match goal with
         | |- context [bool_decide ?P] =>
             let E := fresh "E" in
             destruct (bool_decide P) eqn:E; vm_compute in E;
             try discriminate E; clear E
         end.

Lemma wp_generate_fcidump sd MSO hw w :
  wp (generate_fcidump sd MSO hw)
     (λ p w',
        p = fcidump_files_prefix sd
        ∧ (∃ H V, w_store w !! "full_v2" = Some V
                  ∧ w_files w' !! (p +:+ ".fcidump")
                    = Some (FFcidump sd H V (symvec sd)))
        ∧ path_exists (w_files w') (w_dirs w') (fcidump_files_dir sd) = true
        ∧ ∀ name, w_store w' !! name
                  = if bool_decide (name ∈ fcidump_temporaries) then None
                    else w_store w !! name) w.
Proof.
  destruct w as [f d l s t]. unfold generate_fcidump. wp_walk.
  all: match goal with
       | Hex : exec_ops _ _ = inr ?st, HV : ?st !! "full_v2" = Some ?V |- _ =>
           pose proof (rotation_program_store _ _ _ _ "full_v2" Hex) as HV';
           rewrite HV in HV'; revert HV'; decide_strings; intros HV';
           rewrite !lookup_insert_ne in HV' by done
       end.
  all: split; [done|]; split; [by eexists _, _; split;
                                  [|apply lookup_insert_eq]|]; split.
  all: try (intros name; rewrite lookup_delete_all;
            match goal with
            | Hex : exec_ops _ _ = inr ?st |- _ =>
                rewrite (rotation_program_store _ _ _ _ name Hex)
            end;
            unfold fcidump_temporaries;
            destruct (decide (name = "hcore")) as [->|?];
              [by decide_strings|];
            destruct (decide (name = "hcore_mo")) as [->|?];
              [by decide_strings|];
            destruct (decide (name = "tmp")) as [->|?];
              [by decide_strings|];
            rewrite !bool_decide_eq_false_2
              by (rewrite ?elem_of_cons, ?elem_of_nil; intros Hx;
                  decompose [or] Hx; done);
            by rewrite !lookup_insert_ne).
  - apply path_exists_insert, path_exists_spec. right. left.
    apply elem_of_union_l. by apply elem_of_singleton.
  - apply path_exists_insert.
    match goal with Hf : negb _ = false |- _ => by apply negb_false_iff in Hf end.
Qed.

(** X4. What a caller of [generate_fcidump] gets when it returns, whatever
    the inputs: the value is the dump's path prefix; the dump is the file
    at that prefix with the extension [.fcidump], and it carries the
    caller's [full_v2] as it was handed over and the all-ones symmetry
    labels; the dump's directory exists; [hcore], [hcore_mo] and [tmp] are
    gone from the context and every other tensor is as it was. *)
Theorem generate_fcidump_contract sd MSO hw w p w' :
  generate_fcidump sd MSO hw w = Ok p w' →
  p = fcidump_files_prefix sd
  ∧ (∃ H V, w_store w !! "full_v2" = Some V
            ∧ w_files w' !! (p +:+ ".fcidump")
              = Some (FFcidump sd H V (symvec sd)))
  ∧ path_exists (w_files w') (w_dirs w') (fcidump_files_dir sd) = true
  ∧ ∀ name, w_store w' !! name
            = if bool_decide (name ∈ fcidump_temporaries) then None
              else w_store w !! name.
Proof. intros Hrun. exact (wp_ok _ _ _ _ _ (wp_generate_fcidump sd MSO hw w) Hrun). Qed.

(** ** Tensors left in the execution context *)

Lemma wp_fci_driver_frees rank hw fn opts w :
  wp (fci_driver rank hw fn opts)
     (λ _ w', Forall (λ name, w_store w' !! name = None) driver_tensors) w.
Proof.
  unfold fci_driver.
  do 9 (apply wp_bind; apply wp_skip; intros ? ?).
  apply wp_bind. apply wp_free_tensors. apply wp_bind.
  eapply wp_mono; [apply wp_generate_fcidump|].
  intros p w1 (_ & _ & _ & Hstore). cbv beta.
  wp_walk.
  all: unfold driver_tensors, fcidump_temporaries.
  all: repeat (constructor;
               [rewrite lookup_delete_all; decide_strings; try done;
                rewrite Hstore; unfold fcidump_temporaries; decide_strings;
                try done; rewrite lookup_delete_all; by decide_strings|]).
  all: constructor.
Qed.

(** X5. A run of the driver that completes leaves in the execution
    context none of the tensors [fci_driver] and [generate_fcidump] work
    with: the three the Cholesky stage hands over ([cholVpr], [d_f1],
    [lcao]), [full_v2], and [hcore], [hcore_mo] and [tmp]. *)
Theorem fci_driver_frees_its_tensors rank hw fn opts w :
  let r := fci_driver rank hw fn opts w in
  completed r = true →
  ∀ name, name ∈ driver_tensors → w_store (final_world r) !! name = None.
Proof.
  intros r Hdone name Hin.
  destruct (wp_completed _ _ _ (wp_fci_driver_frees rank hw fn opts w) Hdone)
    as (_ & _ & Hall).
  by apply (proj1 (Forall_forall _ _) Hall).
Qed.

(** ** The pipeline of a completed run *)

Lemma select_app f t1 t2 : select f (t1 ++ t2) = select f t1 ++ select f t2.
Proof. apply List.filter_app. Qed.

Lemma select_quiet evs :
  Forall quiet evs →
  select is_stage evs = [] ∧ select is_barrier evs = []
  ∧ select is_macis evs = [].
Proof.
  induction 1 as [|e evs (H1 & H2 & H3) _ (IH1 & IH2 & IH3)]; [done|].
  unfold select in *. cbn. by rewrite H1, H2, H3.
Qed.

Lemma quiet_prologue rank fn sd :
  Forall quiet (prologue_events rank fn sd ++ []).
Proof.
  unfold prologue_events. destruct (rank =? 0)%nat;
    repeat (constructor; [done|]); constructor.
Qed.

Lemma quiet_decision sd files dirs : Forall quiet (decision_events sd files dirs).
Proof.
  unfold decision_events. destruct (readt _); [constructor|].
  constructor; [done|]. destruct (path_exists files dirs (f1file sd));
    repeat (constructor; [done|]); constructor.
Qed.

Lemma wp_emits {A} P (m : M A) Q w :
  emits P m →
  (∀ a w' evs, Forall P evs → w_trace w' = w_trace w ++ evs → Q a w') →
  wp m Q w.
Proof.
  intros Hm HQ. unfold wp. destruct (Hm w) as (evs & Ht & HP).
  destruct (m w); [|done]. by eapply HQ.
Qed.

(** A conditional whose branches log nothing of note is passed in one
    step. *)
Ltac quiet_step :=
  lazymatch goal with
  | |- wp (if _ then _ else _) _ _ =>
      eapply (wp_emits quiet);
      [unfold persist_branch; emits_walk; done|intros ? ? ? ? ?; cbv beta]
  end.

Ltac select_quiet_events :=
  repeat match goal with
         | H : Forall quiet _ |- _ =>
             apply select_quiet in H; destruct H as (? & ? & ?)
         end.

Lemma wp_after_decision_pipeline rank hw sd opts restart f d l s fn :
  wp (after_decision rank hw sd opts restart)
     (λ _ w',
        let t := w_trace w' in
        let N := setupMOIS sd in
        (∃ nc AO H V,
           select is_stage t
           = [EvCdSvdDriver restart (cholfile sd);
              EvExecute [OpSetMul (full_v2_lhs N) (cholVpr_pr N nc)
                                  (cholVpr_qs N nc)] hw;
              EvExecute (rotation_program N AO) CPU;
              EvWriteFcidump (fcid_file sd) sd H V (symvec sd)])
        ∧ select is_barrier t = replicate (if restart then 2 else 1) EvBarrier
        ∧ select is_macis t
          = (if USE_MACIS && fci (task_options opts)
             then [EvMacisDriver (fcidump_files_prefix sd)] else [])
        ∧ head t = Some (EvHartreeFock fn)
        ∧ last t = Some EvFlushAndSync)
     (mkWorld f d l s (prologue_events rank fn sd ++ decision_events sd f d)).
Proof.
  pose proof (quiet_prologue rank fn sd) as Hp. rewrite app_nil_r in Hp.
  pose proof (quiet_decision sd f d) as Hd.
  unfold after_decision, checkpoint_branch, driver_tail.
  unfold cd_svd_driver, restore_branch, generate_fcidump.
  destruct restart; repeat (first [quiet_step|wp_step]; world_simpl).
  all: cbv zeta; rewrite last_snoc.
  all: repeat match goal with
              | H : (_ && _) = _ |- _ => rewrite H; clear H
              | H : w_trace _ = _ |- _ => rewrite H; clear H
              end.
  all: select_quiet_events; rewrite !select_app.
  all: repeat match goal with H : select _ _ = [] |- _ => rewrite H; clear H end.
  all: unfold prologue_events; cbn.
  all: repeat split; by eexists _, _, _, _.
Qed.

(** X6. The pipeline of a completed run is the same whatever the rank, the
    write flag and the state of the disk: the Cholesky stage is called
    once, with the restart decision; then the reconstruction runs on the
    caller's execution resource, the rotation on the default one, and the
    exporter writes the dump, each exactly once and in that order.  The
    run has two barriers when it restores and one otherwise.  The MACIS
    driver is called, once and with the dump's prefix, exactly when the
    build has it and the task option [fci] of the options passed to the
    driver is set.  The trace starts with the SCF stage and ends with
    the flush. *)
Theorem completed_run_pipeline rank hw fn opts files dirs locked :
  let sd := hartree_fock_driver fn opts in
  let N := setupMOIS sd in
  let restart := restart_requested sd files dirs in
  let r := run_fci_driver rank hw fn opts files dirs locked in
  let t := w_trace (final_world r) in
  completed r = true →
  (∃ nc AO H V,
     select is_stage t
     = [EvCdSvdDriver restart (cholfile sd);
        EvExecute [OpSetMul (full_v2_lhs N) (cholVpr_pr N nc) (cholVpr_qs N nc)]
                  hw;
        EvExecute (rotation_program N AO) CPU;
        EvWriteFcidump (fcid_file sd) sd H V (symvec sd)])
  ∧ select is_barrier t = replicate (if restart then 2 else 1) EvBarrier
  ∧ select is_macis t
    = (if USE_MACIS && fci (task_options opts)
       then [EvMacisDriver (fcidump_files_prefix sd)] else [])
  ∧ head t = Some (EvHartreeFock fn)
  ∧ last t = Some EvFlushAndSync.
Proof.
  intros sd N restart r t Hdone. subst r t.
  unfold run_fci_driver, initial_world in *.
  rewrite fci_driver_decide in Hdone |- *. fold sd restart in Hdone |- *.
  cbn [app] in Hdone |- *.
  destruct (wp_completed _ _ _
              (wp_after_decision_pipeline rank hw sd opts restart
                 files dirs locked ∅ fn) Hdone) as (_ & _ & H).
  exact H.
Qed.

(** ** A checkpoint, once written *)

Lemma wp_keeps {A} I (m : M A) w :
  keeps I m → I (w_files w) (w_dirs w) →
  wp m (λ _ w', I (w_files w') (w_dirs w')) w.
Proof.
  intros Hm HI. specialize (Hm w HI). unfold wp. by destruct (m w).
Qed.

Lemma wp_persist_run rank hw sd opts w :
  writet (ccsd_options (options_map sd)) = true →
  wp (after_decision rank hw sd opts false)
     (λ _ w', checkpoint_on_disk sd (w_files w') (w_dirs w')) w.
Proof.
  intros Hw. unfold after_decision, checkpoint_branch, persist_branch.
  rewrite Hw. apply wp_bind, wp_skip. intros cd w1.
  apply wp_bind.
  apply wp_bind, wp_skip. intros found w2.
  apply wp_bind, wp_skip. intros [] [f d l s t].
  apply wp_bind, wp_write_to_disk. intros v _ _. world_simpl.
  apply wp_bind, wp_write_to_disk. intros v0 _ _. world_simpl.
  assert (checkpoint_on_disk sd
            (<[v2file sd := FTensor v0]> (<[f1file sd := FTensor v]> f)) d)
    as Hcp.
  { exists v, v0. split; [|apply lookup_insert_eq].
    rewrite lookup_insert_ne by paths_differ. apply lookup_insert_eq. }
  eapply wp_mono.
  { apply (wp_keeps (checkpoint_on_disk sd)); [|exact Hcp].
    keeps_walk; intros ? ? ? (F & V & HF & HV); exists F, V.
    - by rewrite !lookup_insert_ne by paths_differ.
    - by rewrite !lookup_alter_ne by paths_differ. }
  intros ? w3 Hcp2. cbv beta.
  apply (wp_keeps (checkpoint_on_disk sd)); [|exact Hcp2].
  unfold driver_tail, generate_fcidump. keeps_walk.
  all: first
         [ intros ? ? Hcp3; exact Hcp3
         | intros ? ? ? (F & V & HF & HV); exists F, V;
           by rewrite !lookup_insert_ne by paths_differ ].
Qed.

(** X7. A checkpoint is written once.  When a run that persists (write
    flag set, no restart) completes, both checkpoint tensors are on disk;
    any later run on the file system it leaves that uses the same
    checkpoint paths then takes the restart decision, whatever its flags
    and rank, and leaves the two tensor files and the count file as the
    first run left them, however it ends. *)
Theorem checkpoint_written_once rank hw fn opts files dirs locked
    rank' hw' fn' opts' :
  let sd := hartree_fock_driver fn opts in
  let sd' := hartree_fock_driver fn' opts' in
  let r1 := run_fci_driver rank hw fn opts files dirs locked in
  let w1 := final_world r1 in
  let r2 := run_fci_driver rank' hw' fn' opts'
              (w_files w1) (w_dirs w1) (w_locked w1) in
  writet (ccsd_options (options_map sd)) = true →
  restart_requested sd files dirs = false →
  completed r1 = true →
  f1file sd' = f1file sd → v2file sd' = v2file sd →
  cholfile sd' = cholfile sd →
  checkpoint_on_disk sd (w_files w1) (w_dirs w1)
  ∧ restart_requested sd' (w_files w1) (w_dirs w1) = true
  ∧ w_files (final_world r2) !! f1file sd = w_files w1 !! f1file sd
  ∧ w_files (final_world r2) !! v2file sd = w_files w1 !! v2file sd
  ∧ w_files (final_world r2) !! cholfile sd = w_files w1 !! cholfile sd.
Proof.
  intros sd sd' r1 w1 r2 Hw Hreq Hdone H1 H2 H3.
  assert (checkpoint_on_disk sd (w_files w1) (w_dirs w1)) as Hcp.
  { subst w1 r1. unfold run_fci_driver, initial_world in Hdone |- *.
    rewrite fci_driver_decide in Hdone |- *. fold sd in Hdone |- *.
    rewrite Hreq in Hdone |- *.
    by destruct (wp_completed _ _ _ (wp_persist_run rank hw sd opts _ Hw) Hdone)
      as (_ & _ & Hcp). }
  assert (restart_requested sd' (w_files w1) (w_dirs w1) = true) as Hreq'.
  { destruct Hcp as (F & V & HF & HV). unfold restart_requested, path_exists.
    rewrite H1, H2, HF, HV.
    rewrite !(bool_decide_eq_true_2 (is_Some (Some _))) by (by eexists).
    cbn. apply orb_true_r. }
  split; [exact Hcp|]. split; [exact Hreq'|].
  subst r2. unfold run_fci_driver, initial_world.
  rewrite fci_driver_decide. fold sd'. rewrite Hreq'.
  repeat split.
  - apply (keeps_after_decision_restart
             (λ f d, f !! f1file sd = w_files w1 !! f1file sd));
      unfold write_stable, mkdir_stable; try done.
    intros f d c Hf. rewrite lookup_insert_ne; [done|]. paths_differ.
  - apply (keeps_after_decision_restart
             (λ f d, f !! v2file sd = w_files w1 !! v2file sd));
      unfold write_stable, mkdir_stable; try done.
    intros f d c Hf. rewrite lookup_insert_ne; [done|]. paths_differ.
  - apply (keeps_after_decision_restart
             (λ f d, f !! cholfile sd = w_files w1 !! cholfile sd));
      unfold write_stable, mkdir_stable; try done.
    intros f d c Hf. rewrite lookup_insert_ne; [done|]. paths_differ.
Qed.

(** ** Runs that fail *)

Lemma never_fails_ret {A} (a : A) : never_fails (mret a).
Proof. by intros w. Qed.

Lemma never_fails_bind {A B} (m : M A) (k : A → M B) :
  never_fails m → (∀ a, never_fails (k a)) → never_fails (m ≫= k).
Proof.
  intros Hm Hk w. unfold mbind, M_bind, bind. specialize (Hm w).
  destruct (m w); [apply Hk|done].
Qed.

Lemma never_fails_if {A} (c : bool) (m1 m2 : M A) :
  never_fails m1 → never_fails m2 → never_fails (if c then m1 else m2).
Proof. by destruct c. Qed.

Lemma never_fails_log e : never_fails (log e).
Proof. by intros w. Qed.

Lemma never_fails_free_tensors names : never_fails (free_tensors names).
Proof. by intros w. Qed.

Lemma on_failure_bind {A B} p P (m : M A) (k : A → M B) :
  leaves_file p m → emits P m →
  (∀ a, on_failure (untouched p P) (k a)) →
  on_failure (untouched p P) (m ≫= k).
Proof.
  intros Hl He Hk w. specialize (Hl w). destruct (He w) as (evs & Ht & HP).
  unfold mbind, M_bind, bind.
  destruct (m w) as [a w1|e w1]; simpl in *.
  - intros Hfail. destruct (Hk a w1 Hfail) as (Hf & evs' & Ht' & HP').
    split; [by rewrite Hf|]. exists (evs ++ evs').
    rewrite Ht', Ht, app_assoc. split; [done|]. by apply Forall_app.
  - intros _. split; [done|]. by exists evs.
Qed.

Lemma on_failure_bind_last {A B} I (m : M A) (k : A → M B) :
  on_failure I m → (∀ a, never_fails (k a)) → on_failure I (m ≫= k).
Proof.
  intros Hm Hk w. specialize (Hm w). unfold mbind, M_bind, bind.
  destruct (m w) as [a w1|e w1]; simpl in *; [|done].
  intros Hfail. by rewrite Hk in Hfail.
Qed.

(** The exporter has written nothing when it fails. *)
Lemma on_failure_write_fcidump_file p P sd h1 v2 sv path :
  on_failure (untouched p P) (write_fcidump_file sd h1 v2 sv path).
Proof.
  intros w. unfold write_fcidump_file.
  destruct (w_store w !! h1); [destruct (w_store w !! v2)|]; try done.
  all: intros _; split; [done|]; exists []; by rewrite app_nil_r.
Qed.

Lemma on_failure_fci_driver rank hw fn opts :
  let sd := hartree_fock_driver fn opts in
  on_failure (untouched (fcid_file sd) (λ e, past_export e = false))
             (fci_driver rank hw fn opts).
Proof.
  intros sd. unfold fci_driver. fold sd.
  do 10 (apply on_failure_bind;
         [unfold ccsd_restart_decision, cd_svd_driver, restore_branch,
            persist_branch; leaves_walk; paths_differ
         |unfold ccsd_restart_decision, cd_svd_driver, restore_branch,
            persist_branch; emits_walk; done
         |intros ?]).
  apply on_failure_bind_last.
  2:{ intros prefix. repeat first
        [ apply never_fails_bind; [|intros ?] | apply never_fails_if
        | apply never_fails_log | apply never_fails_free_tensors
        | apply never_fails_ret ]. }
  unfold generate_fcidump.
  do 6 (apply on_failure_bind;
        [leaves_walk; paths_differ|emits_walk; done|intros ?]).
  apply on_failure_bind_last; [apply on_failure_write_fcidump_file|].
  intros ?. apply never_fails_bind; [apply never_fails_free_tensors|].
  intros ?. apply never_fails_ret.
Qed.

Lemma select_export_of_stages t :
  select is_export (select is_stage t) = select is_export t.
Proof.
  induction t as [|e t IH]; [done|]. unfold select in *. cbn [List.filter].
  destruct e; cbn; by rewrite ?IH.
Qed.

(** X8. The dump is the exporter's alone, and the MACIS driver and the
    final flush come after the export.  A run in whose trace the exporter
    has not written, however far it got and however it ended, leaves the
    dump file as it was when the run started, has not called the MACIS
    driver and has not flushed.  A run that completes has exactly one
    write of the exporter in its trace, that of the dump. *)
Theorem no_export_no_dump rank hw fn opts files dirs locked :
  let sd := hartree_fock_driver fn opts in
  let r := run_fci_driver rank hw fn opts files dirs locked in
  let t := w_trace (final_world r) in
  (select is_export t = [] →
   w_files (final_world r) !! fcid_file sd = files !! fcid_file sd
   ∧ Forall (λ e, past_export e = false) t)
  ∧ (completed r = true →
     ∃ H V, select is_export t = [EvWriteFcidump (fcid_file sd) sd H V (symvec sd)]).
Proof.
  intros sd r t.
  assert (completed r = true →
          ∃ H V, select is_export t
                 = [EvWriteFcidump (fcid_file sd) sd H V (symvec sd)]) as Hexp.
  { subst t r. unfold run_fci_driver, initial_world.
    rewrite fci_driver_decide. fold sd. cbn [app]. intros Hdone.
    destruct (wp_completed _ _ _
                (wp_after_decision_pipeline rank hw sd opts
                   (restart_requested sd files dirs) files dirs locked ∅ fn)
                Hdone) as (_ & _ & (nc & AO & H & V & Hstages) & _).
    exists H, V. rewrite <- select_export_of_stages, Hstages. reflexivity. }
  split; [|exact Hexp].
  intros Hnone. destruct (completed r) eqn:Hdone.
  - destruct (Hexp eq_refl) as (H & V & Hsel). by rewrite Hsel in Hnone.
  - subst t r. unfold run_fci_driver in *.
    destruct (on_failure_fci_driver rank hw fn opts _ Hdone)
      as (Hf & evs & Ht & HP).
    split; [exact Hf|]. by rewrite Ht.
Qed.

(** ** Processes of different rank *)

Lemma existsb_entries_insert P (f : gmap string Content) d k c :
  existsb P (entries (<[k := c]> f) d) = P k || existsb P (entries f d).
Proof.
  apply eq_iff_eq_true. rewrite orb_true_iff, !existsb_entries. split.
  - intros (k' & [Hk'|Hk'] & HP).
    + destruct (decide (k = k')) as [->|Hne]; [by left|].
      rewrite lookup_insert_ne in Hk' by done. right. exists k'. auto.
    + right. exists k'. auto.
  - intros [HP|(k' & [Hk'|Hk'] & HP)].
    + exists k. split; [|done]. left. rewrite lookup_insert_eq. by eexists.
    + exists k'. split; [|done]. left. by apply is_Some_insert_mono.
    + exists k'. auto.
Qed.

Lemma existsb_entries_alter P (f : gmap string Content) d k g :
  existsb P (entries (alter g k f) d) = existsb P (entries f d).
Proof.
  apply eq_iff_eq_true. rewrite !existsb_entries.
  split; intros (k' & [Hk'|Hk'] & HP); exists k'; (split; [|done]); auto.
  - left. destruct (decide (k = k')) as [->|Hne].
    + rewrite lookup_alter_eq in Hk'. by apply fmap_is_Some in Hk'.
    + by rewrite lookup_alter_ne in Hk'.
  - left. by apply is_Some_alter_mono.
Qed.

Lemma existsb_entries_mkdir P (f : gmap string Content) d p :
  existsb P (entries f ({[p]} ∪ d)) = P p || existsb P (entries f d).
Proof.
  apply eq_iff_eq_true. rewrite orb_true_iff, !existsb_entries. split.
  - intros (k' & [Hk'|Hk'] & HP).
    + right. exists k'. auto.
    + apply elem_of_union in Hk' as [->%elem_of_singleton|Hk']; [by left|].
      right. exists k'. auto.
  - intros [HP|(k' & [Hk'|Hk'] & HP)].
    + exists p. split; [|done]. right. apply elem_of_union_l.
      by apply elem_of_singleton.
    + exists k'. auto.
    + exists k'. split; [|done]. right. by apply elem_of_union_r.
Qed.

Lemma agree_refl X K w :
  Forall (λ k, is_Some (w_files w !! k)) K → agree X K w w.
Proof.
  intros HK. repeat split; try done. eapply Forall_impl; [exact HK|]. by intros.
Qed.

Lemma agree_sym X K w1 w2 : agree X K w1 w2 → agree X K w2 w1.
Proof.
  intros (Hf & Hd & Hl & Hs & Ht & Htree & HK). repeat split; try done.
  - intros q Hq. by rewrite Hf.
  - by destruct (Htree q) as [-> _].
  - by destruct (Htree q) as [_ ->].
  - eapply Forall_impl; [exact HK|]. by intros k [? ?].
Qed.

Lemma agree_trans X K w1 w2 w3 :
  agree X K w1 w2 → agree X K w2 w3 → agree X K w1 w3.
Proof.
  intros (Hf & Hd & Hl & Hs & Ht & Htree & HK)
         (Hf' & Hd' & Hl' & Hs' & Ht' & Htree' & HK').
  repeat split; try congruence.
  - intros q Hq. by rewrite Hf, Hf'.
  - destruct (Htree q) as [-> _]. by destruct (Htree' q) as [-> _].
  - destruct (Htree q) as [_ ->]. by destruct (Htree' q) as [_ ->].
  - rewrite Forall_forall in HK, HK'. apply Forall_forall. intros k Hk.
    split; [by apply HK|by apply HK'].
Qed.

Lemma agree_weaken X Y K K' w1 w2 :
  (∀ q, q ∈ X → q ∈ Y) → (∀ k, k ∈ K' → k ∈ K) →
  agree X K w1 w2 → agree Y K' w1 w2.
Proof.
  intros HXY HKK (Hf & Hd & Hl & Hs & Ht & Htree & HK).
  repeat split; try done; try apply Htree.
  - intros q Hq. apply Hf. intros Hin. by apply Hq, HXY.
  - rewrite Forall_forall in HK. apply Forall_forall. intros k Hk.
    by apply HK, HKK.
Qed.

Lemma agree_drop X K w1 w2 : agree X K w1 w2 → agree X [] w1 w2.
Proof. apply agree_weaken; [done|]. by intros k ?%elem_of_nil. Qed.

Lemma agree_present X K w1 w2 :
  agree X K w1 w2 →
  Forall (λ k, is_Some (w_files w1 !! k)) K
  ∧ Forall (λ k, is_Some (w_files w2 !! k)) K.
Proof.
  intros (_ & _ & _ & _ & _ & _ & HK).
  split; (eapply Forall_impl; [exact HK|]); by intros k [? ?].
Qed.

Lemma agree_add_event X K e w1 w2 :
  agree X K w1 w2 → agree X K (add_event e w1) (add_event e w2).
Proof.
  intros (Hf & Hd & Hl & Hs & Ht & Htree & HK). repeat split; try done;
    try apply Htree.
  simpl. by rewrite !select_app, Ht.
Qed.

Lemma agree_set_store X K s w1 w2 :
  agree X K w1 w2 → agree X K (set_store s w1) (set_store s w2).
Proof.
  intros (Hf & Hd & Hl & Hs & Ht & Htree & HK).
  repeat split; try done; apply Htree.
Qed.

Lemma agree_mkdir X K p w1 w2 :
  agree X K w1 w2 →
  agree X K (set_dirs ({[p]} ∪ w_dirs w1) w1) (set_dirs ({[p]} ∪ w_dirs w2) w2).
Proof.
  intros (Hf & Hd & Hl & Hs & Ht & Htree & HK). repeat split; try done; simpl.
  - by rewrite Hd.
  - rewrite !existsb_entries_mkdir. by destruct (Htree q) as [-> _].
  - rewrite !existsb_entries_mkdir. by destruct (Htree q) as [_ ->].
Qed.

(** The same file written by both. *)
Lemma agree_write X K p c w1 w2 :
  agree X K w1 w2 →
  agree X (p :: K) (set_files (<[p := c]> (w_files w1)) w1)
                   (set_files (<[p := c]> (w_files w2)) w2).
Proof.
  intros (Hf & Hd & Hl & Hs & Ht & Htree & HK). repeat split; try done; simpl.
  - intros q Hq. destruct (decide (p = q)) as [->|Hne].
    + by rewrite !lookup_insert_eq.
    + rewrite !lookup_insert_ne by done. by apply Hf.
  - rewrite !existsb_entries_insert. by destruct (Htree q) as [-> _].
  - rewrite !existsb_entries_insert. by destruct (Htree q) as [_ ->].
  - constructor.
    + rewrite !lookup_insert_eq. split; by eexists.
    + eapply Forall_impl; [exact HK|]. intros k [H1 H2].
      split; by apply is_Some_insert_mono.
Qed.

Lemma agree_local_event X K e w :
  Forall (λ k, is_Some (w_files w !! k)) K →
  rank0_only e = true → agree X K w (add_event e w).
Proof.
  intros HK He. repeat split; try done.
  - simpl. rewrite select_app.
    unfold select at 3, shared. cbn. rewrite He. cbn. by rewrite app_nil_r.
  - eapply Forall_impl; [exact HK|]. by intros.
Qed.

(** A file of [X] written by one process only, next to a file [k0] that
    is already there: the tree stays as it is. *)
Lemma agree_local_write X K p k0 c w :
  Forall (λ k, is_Some (w_files w !! k)) K →
  p ∈ X → is_Some (w_files w !! k0) →
  (∀ q, Paths.beneath q p = Paths.beneath q k0) →
  (∀ q, Paths.inside q p = Paths.inside q k0) →
  agree X K w (set_files (<[p := c]> (w_files w)) w).
Proof.
  intros HK Hp Hk0 Hb Hi.
  assert (∀ P : string → bool, P p = P k0 →
            existsb P (entries (w_files w) (w_dirs w))
            = existsb P (entries (<[p := c]> (w_files w)) (w_dirs w))) as Htree.
  { intros P HP. rewrite existsb_entries_insert.
    destruct (P p) eqn:HPp; [|done]. cbn. apply existsb_entries.
    exists k0. split; [by left|congruence]. }
  repeat split; try done; simpl.
  - intros q Hq. rewrite lookup_insert_ne; [done|]. by intros ->.
  - apply Htree, Hi.
  - apply Htree, Hb.
  - eapply Forall_impl; [exact HK|]. intros k Hk. split; [done|].
    by apply is_Some_insert_mono.
Qed.

Lemma agree_local_alter X K p g w :
  Forall (λ k, is_Some (w_files w !! k)) K → p ∈ X →
  agree X K w (set_files (alter g p (w_files w)) w).
Proof.
  intros HK Hp. repeat split; try done; simpl.
  - intros q Hq. rewrite lookup_alter_ne; [done|]. by intros ->.
  - by rewrite existsb_entries_alter.
  - by rewrite existsb_entries_alter.
  - eapply Forall_impl; [exact HK|]. intros k Hk. split; [done|].
    by apply is_Some_alter_mono.
Qed.

Lemma in_step_ret {A} X K (a : A) : in_step X K K (mret a) (mret a).
Proof. by intros w1 w2 Hw. Qed.

Lemma in_step_bind {A B} X K K1 K2 (m1 m2 : M A) (k1 k2 : A → M B) :
  in_step X K K1 m1 m2 → (∀ a, in_step X K1 K2 (k1 a) (k2 a)) →
  in_step X K K2 (m1 ≫= k1) (m2 ≫= k2).
Proof.
  intros Hm Hk w1 w2 Hw. specialize (Hm w1 w2 Hw).
  unfold mbind, M_bind, bind, alike in *.
  destruct (m1 w1), (m2 w2); try done. destruct Hm as [-> Hw'].
  by apply Hk.
Qed.

Lemma in_step_if {A} X K K' (c : bool) (m1 m2 m1' m2' : M A) :
  in_step X K K' m1 m1' → in_step X K K' m2 m2' →
  in_step X K K' (if c then m1 else m2) (if c then m1' else m2').
Proof. by destruct c. Qed.

Lemma in_step_log X K e : in_step X K K (log e) (log e).
Proof. intros w1 w2 Hw. split; [done|]. by apply agree_add_event. Qed.

Lemma in_step_barrier X K : in_step X K K barrier barrier.
Proof. apply in_step_log. Qed.

Lemma in_step_fs_exists X K p :
  p ∉ X → in_step X K K (fs_exists p) (fs_exists p).
Proof.
  intros Hp w1 w2 Hw. pose proof Hw as (Hf & Hd & _ & _ & _ & Htree & _).
  unfold fs_exists, alike, path_exists, is_directory.
  destruct (Htree p) as [-> _]. rewrite (Hf p Hp), Hd. split; [done|].
  by apply agree_add_event.
Qed.

Lemma in_step_create_directories X K p :
  (∀ q, q ∈ Paths.ancestors p ++ [p] → q ∉ X) →
  in_step X K K (create_directories p) (create_directories p).
Proof.
  intros Hp w1 w2 Hw. pose proof Hw as (Hf & Hd & _ & _ & _ & Htree & _).
  unfold create_directories, alike.
  assert (dir_blocked (w_files w1) (w_dirs w1) p
          = dir_blocked (w_files w2) (w_dirs w2) p) as ->.
  { unfold dir_blocked. generalize (Paths.ancestors p ++ [p]), Hp.
    intros chain Hchain. induction chain as [|q chain IH]; [done|].
    cbn [existsb]. rewrite IH by (intros q' ?; apply Hchain; by right).
    f_equal. unfold in_the_way.
    destruct (Htree q) as [_ ->].
    rewrite (Hf q) by (apply Hchain; by left). by rewrite Hd. }
  destruct (dir_blocked _ _ _); (split; [done|]).
  - apply agree_drop with K. by apply agree_add_event.
  - by apply (agree_mkdir X K p (add_event _ w1) (add_event _ w2)),
             agree_add_event.
Qed.

Lemma in_step_allocate X K ts : in_step X K K (allocate ts) (allocate ts).
Proof.
  intros w1 w2 Hw. pose proof Hw as (_ & _ & _ & Hs & _).
  unfold allocate, alike. rewrite Hs. split; [done|].
  by apply agree_add_event, agree_set_store.
Qed.

Lemma in_step_free_tensors X K names :
  in_step X K K (free_tensors names) (free_tensors names).
Proof.
  intros w1 w2 Hw. pose proof Hw as (_ & _ & _ & Hs & _).
  unfold free_tensors, alike. rewrite Hs. split; [done|].
  by apply agree_add_event, agree_set_store.
Qed.

Lemma in_step_tensor_shape X K name :
  in_step X K K (tensor_shape name) (tensor_shape name).
Proof.
  intros w1 w2 Hw. pose proof Hw as (_ & _ & _ & Hs & _).
  unfold tensor_shape, alike. by rewrite Hs.
Qed.

Lemma in_step_put_tensor X K name t :
  in_step X K K (put_tensor name t) (put_tensor name t).
Proof.
  intros w1 w2 Hw. pose proof Hw as (_ & _ & _ & Hs & _).
  unfold put_tensor, alike. rewrite Hs. split; [done|].
  by apply agree_set_store.
Qed.

Lemma in_step_read_from_disk X K name path :
  path ∉ X →
  in_step X K K (read_from_disk name path) (read_from_disk name path).
Proof.
  intros Hp w1 w2 Hw. pose proof Hw as (Hf & _ & _ & Hs & _).
  unfold read_from_disk, alike. rewrite (Hf path Hp), Hs.
  destruct (w_store w2 !! name) as [cur|];
    [|split; [done|by apply agree_drop with K, agree_add_event]].
  destruct (w_files w2 !! path) as [[v| |]|];
    try (split; [done|by apply agree_drop with K, agree_add_event]).
  case_bool_decide; (split; [done|]).
  - by apply agree_set_store, agree_add_event.
  - by apply agree_drop with K, agree_add_event.
Qed.

Lemma in_step_write_to_disk X K name path :
  in_step X K (path :: K) (write_to_disk name path) (write_to_disk name path).
Proof.
  intros w1 w2 Hw. pose proof Hw as (_ & _ & Hl & Hs & _).
  unfold write_to_disk, alike. rewrite Hl, Hs.
  destruct (w_store w2 !! name) as [v|];
    [|split; [done|by apply agree_drop with K, agree_add_event]].
  case_bool_decide; (split; [done|]).
  - by apply agree_drop with K, agree_add_event.
  - by apply (agree_write X K path (FTensor v)
                (add_event _ w1) (add_event _ w2)), agree_add_event.
Qed.

Lemma in_step_execute X K ops hw :
  in_step X K K (execute ops hw) (execute ops hw).
Proof.
  intros w1 w2 Hw. pose proof Hw as (_ & _ & _ & Hs & _).
  unfold execute, alike. rewrite Hs.
  destruct (exec_ops ops (w_store w2)); (split; [done|]).
  - by apply agree_drop with K, agree_add_event.
  - by apply agree_set_store, agree_add_event.
Qed.

Lemma in_step_write_fcidump_file X K sd h1 v2 sv path :
  in_step X K (path :: K) (write_fcidump_file sd h1 v2 sv path)
          (write_fcidump_file sd h1 v2 sv path).
Proof.
  intros w1 w2 Hw. pose proof Hw as (_ & _ & _ & Hs & _).
  unfold write_fcidump_file, alike. rewrite Hs.
  destruct (w_store w2 !! h1) as [H|]; [|split; [done|by eapply agree_drop]].
  destruct (w_store w2 !! v2) as [V|]; [|split; [done|by eapply agree_drop]].
  split; [done|]. apply agree_add_event.
  by apply (agree_write X K path (FFcidump sd H V sv)).
Qed.

Lemma in_step_read_count X K path :
  path ∉ X → in_step X K K (read_count path) (read_count path).
Proof.
  intros Hp w1 w2 Hw. pose proof Hw as (Hf & _).
  unfold read_count, alike. rewrite (Hf path Hp).
  destruct (w_files w2 !! path) as [[|[|line ls]|]|];
    try (split; [done|by apply agree_drop with K, agree_add_event]).
  destruct (read_nat line); (split; [done|]).
  - by apply agree_add_event.
  - by apply agree_drop with K, agree_add_event.
Qed.

Lemma local_ret {A} X K (a : A) : rank_local X K (mret a).
Proof. intros w HK. exists a, w. split; [done|by apply agree_refl]. Qed.

Lemma local_bind {A B} X K (m : M A) (k : A → M B) :
  rank_local X K m → (∀ a, rank_local X K (k a)) → rank_local X K (m ≫= k).
Proof.
  intros Hm Hk w HK. destruct (Hm w HK) as (a & w1 & Hrun & Hw1).
  destruct (Hk a w1) as (b & w2 & Hrun2 & Hw2).
  { by destruct (agree_present _ _ _ _ Hw1). }
  exists b, w2. unfold mbind, M_bind, bind. rewrite Hrun. split; [done|].
  by eapply agree_trans.
Qed.

Lemma local_if {A} X K (c : bool) (m1 m2 : M A) :
  rank_local X K m1 → rank_local X K m2 →
  rank_local X K (if c then m1 else m2).
Proof. by destruct c. Qed.

Lemma local_log X K e : rank0_only e = true → rank_local X K (log e).
Proof.
  intros He w HK. eexists _, _. split; [done|]. by apply agree_local_event.
Qed.

Lemma local_ofstream_close X K p : rank_local X K (ofstream_close p).
Proof. by apply local_log. Qed.

Lemma local_ofstream_open X K p k0 :
  p ∈ X → k0 ∈ K →
  (∀ q, Paths.beneath q p = Paths.beneath q k0) →
  (∀ q, Paths.inside q p = Paths.inside q k0) →
  rank_local X K (ofstream_open p).
Proof.
  intros Hp Hk0 Hb Hi w HK. unfold ofstream_open.
  case_bool_decide; eexists _, _.
  - split; [done|]. by apply agree_local_event.
  - split; [done|].
    assert (agree X K w (set_files (<[p := FText []]> (w_files w)) w)) as Hw.
    { apply (agree_local_write X K p k0); try done.
      by apply (proj1 (Forall_forall _ _) HK). }
    eapply agree_trans; [exact Hw|]. apply agree_local_event; [|done].
    by destruct (agree_present _ _ _ _ Hw).
Qed.

Lemma local_ofstream_put X K opened p line :
  p ∈ X → rank_local X K (ofstream_put opened p line).
Proof.
  intros Hp w HK. unfold ofstream_put. destruct opened; eexists _, _.
  - split; [done|].
    eapply agree_trans; [by apply (agree_local_event X K (EvPut p line))|].
    by apply (agree_local_alter X K p _ (add_event (EvPut p line) w)).
  - split; [done|]. by apply agree_local_event.
Qed.

(** What one process does under [rank == 0] and another skips, or does
    too. *)
Lemma in_step_guarded X K (b1 b2 : bool) (m : M unit) :
  rank_local X K m →
  in_step X K K (if b1 then m else mret ()) (if b2 then m else mret ()).
Proof.
  intros Hm w1 w2 Hw. destruct (agree_present _ _ _ _ Hw) as [HK1 HK2].
  destruct (Hm w1 HK1) as ([] & w1' & Hrun1 & Hw1).
  destruct (Hm w2 HK2) as ([] & w2' & Hrun2 & Hw2).
  destruct b1, b2; unfold alike; rewrite ?Hrun1, ?Hrun2; (split; [done|]).
  - exact (agree_trans _ _ _ _ _ (agree_sym _ _ _ _ Hw1)
             (agree_trans _ _ _ _ _ Hw Hw2)).
  - exact (agree_trans _ _ _ _ _ (agree_sym _ _ _ _ Hw1) Hw).
  - exact (agree_trans _ _ _ _ _ Hw Hw2).
  - exact Hw.
Qed.

(** A prefix that ends in a slash does not reach into a name without
    slashes. *)
Lemma is_prefix_no_slash (x s : string) :
  no_slash s = true → Paths.is_prefix (x +:+ "/") s = false.
Proof.
  revert s. induction x as [|y x IH]; intros [|c s] Hs; try done.
  - cbn in Hs. apply andb_true_iff in Hs as [Hc _].
    apply negb_true_iff in Hc. rewrite append_empty_l. cbn [Paths.is_prefix].
    by rewrite Ascii.eqb_sym, Hc.
  - cbn in Hs. apply andb_true_iff in Hs as [_ Hs].
    rewrite append_cons. cbn [Paths.is_prefix]. rewrite (IH _ Hs).
    apply andb_false_r.
Qed.

Lemma is_prefix_cut (x a s : string) :
  no_slash s = true →
  Paths.is_prefix (x +:+ "/") (a +:+ s) = Paths.is_prefix (x +:+ "/") a.
Proof.
  intros Hs. revert x. induction a as [|c a IH]; intros x.
  - rewrite append_empty_l, (is_prefix_no_slash _ _ Hs).
    destruct x; by rewrite ?append_cons.
  - rewrite append_cons. destruct x as [|y x].
    + rewrite append_empty_l. by cbn [Paths.is_prefix].
    + rewrite append_cons. cbn [Paths.is_prefix]. by rewrite IH.
Qed.

(** Two files that differ in their extension lie in the same
    directories. *)
Lemma same_directories (a s1 s2 q : string) :
  no_slash s1 = true → no_slash s2 = true →
  Paths.beneath q (a +:+ s1) = Paths.beneath q (a +:+ s2)
  ∧ Paths.inside q (a +:+ s1) = Paths.inside q (a +:+ s2).
Proof.
  intros H1 H2. unfold Paths.inside, Paths.beneath.
  replace (q +:+ "/../") with ((q +:+ "/..") +:+ "/")
    by (by rewrite append_assoc).
  by rewrite !is_prefix_cut.
Qed.

Lemma chain_length (q p : string) :
  q ∈ Paths.ancestors p ++ [p] → (String.length q <= String.length p)%nat.
Proof.
  intros [Hq| ->%list_elem_of_singleton]%elem_of_app; [|done].
  destruct (ancestors_spec _ _ Hq) as [rest ->]. rewrite length_append. lia.
Qed.

Lemma files_dir_not_cholfile sd : files_dir sd ≠ cholfile sd.
Proof.
  unfold cholfile, files_prefix. intros Heq.
  apply (f_equal String.length) in Heq. rewrite !length_append in Heq.
  simpl in Heq. lia.
Qed.

Lemma fcidump_files_dir_not_cholfile sd : fcidump_files_dir sd ≠ cholfile sd.
Proof.
  apply last_char_differs. rewrite last_char_cholfile.
  unfold fcidump_files_dir.
  rewrite last_char_app by apply append_cons_nonempty.
  rewrite last_char_app by apply append_nonempty_r.
  by rewrite last_char_app.
Qed.

(** The count file is none of the directories the driver makes, nor an
    ancestor of one. *)
Lemma cholfile_not_in_chain sd p q :
  p = files_dir sd ∨ p = fcidump_files_dir sd →
  q ∈ Paths.ancestors p ++ [p] → q ∉ [cholfile sd].
Proof.
  intros Hp Hq%chain_length ->%list_elem_of_singleton.
  assert (String.length p < String.length (cholfile sd))%nat; [|lia].
  destruct Hp as [-> | ->];
    rewrite ?fcidump_files_dir_beneath_files_dir;
    unfold cholfile, files_prefix; rewrite !length_append; simpl; lia.
Qed.

Ltac not_exempt :=
  first
    [ apply not_elem_of_nil
    | rewrite list_elem_of_singleton;
      first [ paths_differ | apply files_dir_not_cholfile
            | apply fcidump_files_dir_not_cholfile ] ].

Ltac chain_not_exempt :=
  first
    [ intros ? _; apply not_elem_of_nil
    | intros ?; apply cholfile_not_in_chain; by auto ].

Ltac local_walk sd :=
  repeat first
    [ apply local_bind; [|intros ?]
    | apply local_if
    | apply local_ret
    | apply local_log; reflexivity
    | apply local_ofstream_close
    | apply (local_ofstream_open _ _ _ (f1file sd));
        [by left|rewrite !elem_of_cons; by auto
        |intros ?; by apply same_directories
        |intros ?; by apply same_directories]
    | apply local_ofstream_put; by left ].

Ltac in_step_walk sd :=
  repeat first
    [ eapply in_step_bind; [|intros ?]
    | apply in_step_guarded; solve [local_walk sd]
    | apply in_step_if
    | apply in_step_ret
    | apply in_step_log
    | apply in_step_barrier
    | apply in_step_fs_exists; not_exempt
    | apply in_step_create_directories; chain_not_exempt
    | apply in_step_allocate
    | apply in_step_free_tensors
    | apply in_step_tensor_shape
    | apply in_step_put_tensor
    | apply in_step_read_from_disk; not_exempt
    | apply in_step_write_to_disk
    | apply in_step_execute
    | apply in_step_write_fcidump_file
    | apply in_step_read_count; not_exempt ].

(** After the decision, two processes differ in the count file at most,
    and not at all when they restart. *)
Lemma in_step_after_decision rank1 rank2 hw sd opts (restart : bool) :
  ∃ K, in_step (if restart then [] else [cholfile sd]) [] K
               (after_decision rank1 hw sd opts restart)
               (after_decision rank2 hw sd opts restart).
Proof.
  unfold after_decision, checkpoint_branch, driver_tail, cd_svd_driver,
    restore_branch, persist_branch, generate_fcidump.
  destruct restart, (writet (ccsd_options (options_map sd))); cbv iota;
    eexists; in_step_walk sd.
Qed.

Lemma select_shared_prologue rank fn sd :
  select shared (prologue_events rank fn sd) = [EvHartreeFock fn].
Proof. unfold prologue_events. by destruct (rank =? 0)%nat. Qed.

(** X9. Processes of different rank stay in step.  Run on the same
    inputs, two processes end the same way (both return, or both fail
    with the same error), have made the same calls in the same order
    apart from those the source guards by [rank == 0] (the two prints and
    the stream of the count file), and leave the same tensors, the same
    directories and the same files, the count file apart. *)
Theorem ranks_stay_in_step rank1 rank2 hw fn opts files dirs locked :
  let sd := hartree_fock_driver fn opts in
  let r1 := run_fci_driver rank1 hw fn opts files dirs locked in
  let r2 := run_fci_driver rank2 hw fn opts files dirs locked in
  outcome r1 = outcome r2
  ∧ select shared (w_trace (final_world r1))
    = select shared (w_trace (final_world r2))
  ∧ w_store (final_world r1) = w_store (final_world r2)
  ∧ w_dirs (final_world r1) = w_dirs (final_world r2)
  ∧ ∀ q, q ≠ cholfile sd →
         w_files (final_world r1) !! q = w_files (final_world r2) !! q.
Proof.
  intros sd r1 r2. subst r1 r2. unfold run_fci_driver, initial_world.
  rewrite !fci_driver_decide. fold sd. cbn [app].
  set (restart := restart_requested sd files dirs).
  match goal with
  | |- context [after_decision rank1 hw sd opts restart ?W1] =>
      match goal with
      | |- context [after_decision rank2 hw sd opts restart ?W2] =>
          assert (agree (if restart then [] else [cholfile sd]) [] W1 W2) as Hw
      end
  end.
  { repeat split; try done. cbn [w_trace].
    by rewrite !select_app, !select_shared_prologue. }
  destruct (in_step_after_decision rank1 rank2 hw sd opts restart) as [K Hstep].
  apply Hstep in Hw. unfold alike in Hw.
  destruct (after_decision rank1 hw sd opts restart _) as [[] w1|e1 w1],
           (after_decision rank2 hw sd opts restart _) as [[] w2|e2 w2];
    try done.
  all: destruct Hw as (He & Hf & Hd & _ & Hs & Ht & _); cbn.
  all: repeat split; try done; try congruence.
  all: intros q Hq; apply Hf; destruct restart;
       [apply not_elem_of_nil|by rewrite list_elem_of_singleton].
Qed.



(** ** The symmetry labels handed to the exporter *)

Lemma wp_generate_fcidump_export sd MSO hw w :
  wp (generate_fcidump sd MSO hw)
     (λ _ w',
        ∃ H V,
          select is_export (w_trace w')
          = select is_export (w_trace w)
            ++ [EvWriteFcidump (fcid_file sd) sd H V (symvec sd)]
          ∧ w_files w' !! fcid_file sd = Some (FFcidump sd H V (symvec sd))) w.
Proof.
  destruct w as [f d l s t]. unfold generate_fcidump. wp_walk.
  all: eexists _, _; split; [|apply lookup_insert_eq].
  all: rewrite !select_app; cbn; by rewrite !app_nil_r.
Qed.

(** C9. The symmetry-label vector [generate_fcidump] supplies to the
    exporter.  It has [nbf_orig] entries for a restricted system and
    [2 * nbf_orig] for a spin-unrestricted one, and every entry is 1.  No
    call of the exporter by [generate_fcidump] carries another vector; and
    whenever [generate_fcidump] returns it has called the exporter exactly
    once, with that vector, and the dump on disk holds it. *)
Theorem symvec_length_and_values (sd : SystemData) (MSO : nat) (hw : ExecutionHW) :
  let n := if is_unrestricted sd then 2 * nbf_orig sd else nbf_orig sd in
  length (symvec sd) = n
  ∧ symvec sd = replicate n 1%Z
  ∧ emits (λ e, ∀ path sd' h1 v2 sv,
             e = EvWriteFcidump path sd' h1 v2 sv → sv = symvec sd)
          (generate_fcidump sd MSO hw)
  ∧ ∀ w,
      let r := generate_fcidump sd MSO hw w in
      completed r = true →
      ∃ H V,
        select is_export (w_trace (final_world r))
        = select is_export (w_trace w)
          ++ [EvWriteFcidump (fcid_file sd) sd H V (replicate n 1%Z)]
        ∧ w_files (final_world r) !! fcid_file sd
          = Some (FFcidump sd H V (replicate n 1%Z)).
Proof.
  intros n.
  assert (symvec sd = replicate n 1%Z) as Hsym.
  { subst n. unfold symvec. destruct (is_unrestricted sd).
    - by rewrite resize_replicate, fmap_replicate.
    - by rewrite fmap_replicate. }
  split; [|split; [exact Hsym|split]].
  - rewrite Hsym. apply length_replicate.
  - unfold generate_fcidump. emits_walk; intros; try discriminate. congruence.
  - intros w r Hdone. rewrite <- Hsym.
    by destruct (wp_completed _ _ _ (wp_generate_fcidump_export sd MSO hw w) Hdone)
      as (_ & _ & Hexp).
Qed.

(** ** The reconstruction within a run *)

Lemma wp_and {A} (m : M A) (Q1 Q2 : A → World → Prop) w :
  wp m Q1 w → wp m Q2 w → wp m (λ a w', Q1 a w' ∧ Q2 a w') w.
Proof. unfold wp. by destruct (m w). Qed.

Lemma wp_trace {A} (m : M A) w :
  emits (λ _, True) m →
  wp m (λ _ w', ∃ evs, w_trace w' = w_trace w ++ evs) w.
Proof.
  intros Hm. apply (wp_emits (λ _, True)); [done|].
  intros a w' evs _ Ht. by exists evs.
Qed.

Lemma wp_after_decision_reconstruction rank hw sd opts restart w :
  let N := setupMOIS sd in
  wp (after_decision rank hw sd opts restart)
     (λ _ w',
        ∃ nc C Hmo,
          t_shape C = [N; N; nc]
          ∧ (restart = false →
             nc = u_chol_count (upstream sd) ∧ C = computed_cholVpr sd)
          ∧ (restart = true →
             ∃ line ls,
               w_files w !! cholfile sd = Some (FText (line :: ls))
               ∧ read_nat line = Some nc
               ∧ w_files w !! v2file sd = Some (FTensor C))
          ∧ EvExecute [OpSetMul (full_v2_lhs N) (cholVpr_pr N nc)
                                (cholVpr_qs N nc)] hw ∈ w_trace w'
          ∧ w_files w' !! fcid_file sd
            = Some (FFcidump sd Hmo (full_v2_tensor N nc C) (symvec sd))) w.
Proof.
  intros N. destruct w as [f d l s t].
  unfold after_decision, checkpoint_branch, driver_tail, cd_svd_driver,
    restore_branch, persist_branch.
  destruct restart; wp_walk.
  all: cbn [cd_CI] in *.
  all: repeat match goal with
              | H : _ !! _ = Some _ |- _ =>
                  progress (rewrite ?lookup_insert_eq, ?lookup_insert_ne in H
                              by done)
              end; simplify_eq.
  all: match goal with
       | Hex : exec_ops _ _ = inr _ |- _ =>
           erewrite reconstruction_exec in Hex;
             [|by store_lookup|try done|by store_lookup|reflexivity]
       end.
  all: simplify_eq.
  all: eapply wp_mono;
    [apply wp_and;
       [apply wp_generate_fcidump
       |apply wp_trace; unfold generate_fcidump; emits_walk; done]|].
  all: intros p w2 [(-> & (Hmo & V & HV & Hfile) & _ & _) (evs & Ht)].
  all: cbn [w_store] in HV; rewrite lookup_delete_all in HV;
       revert HV; decide_strings; rewrite lookup_insert_eq; intros HV;
       simplify_eq.
  all: cbn [w_trace] in Ht; wp_walk.
  all: eexists _, _, _; split; [|split; [|split; [|split; [|exact Hfile]]]].
  all: try (intros ?; first [done|by split|by eexists _, _]).
  all: try (rewrite Ht, !elem_of_app, !list_elem_of_singleton; by auto 20).
  all: first [reflexivity|assumption].
Qed.

(** C1. The two-electron tensor [fci_driver] reconstructs.  In a run
    that completes, the scheduler has executed
    [full_v2(p,r,q,s) = cholVpr(p,r,cindex) * cholVpr(q,s,cindex)] on the
    factorized vectors the driver holds at that point (those the Cholesky
    stage computed, or on restart those read back from the checkpoint),
    and the tensor [V] it handed to the exporter is, entry by entry, the
    sum over the auxiliary index in the scheduler's order.  [V] satisfies
    [V[p,r,q,s] = V[q,s,p,r]] at every index tuple, exactly: the two
    entries are sums of the same length, taken in the same order, of
    products that differ in the order of their factors only.  Nothing but
    the commutativity of the element product is used. *)
Theorem full_v2_exchange_symmetry
    (mul_comm : ∀ a b : T, mul a b = mul b a)
    rank hw fn opts files dirs locked :
  let sd := hartree_fock_driver fn opts in
  let N := setupMOIS sd in
  let restart := restart_requested sd files dirs in
  let r := run_fci_driver rank hw fn opts files dirs locked in
  completed r = true →
  ∃ nc C Hmo V,
    t_shape C = [N; N; nc]
    ∧ (restart = false →
       nc = u_chol_count (upstream sd) ∧ C = computed_cholVpr sd)
    ∧ (restart = true →
       ∃ line ls,
         files !! cholfile sd = Some (FText (line :: ls))
         ∧ read_nat line = Some nc
         ∧ files !! v2file sd = Some (FTensor C))
    ∧ EvExecute [OpSetMul (full_v2_lhs N) (cholVpr_pr N nc) (cholVpr_qs N nc)] hw
      ∈ w_trace (final_world r)
    ∧ w_files (final_world r) !! fcid_file sd
      = Some (FFcidump sd Hmo V (symvec sd))
    ∧ t_shape V = [N; N; N; N]
    ∧ (∀ p r q s,
         t_val V [p; r; q; s] =
         fold_left (λ acc c, add acc (mul (t_val C [p; r; c]) (t_val C [q; s; c])))
                   (traversal nc) zero)
    ∧ (∀ p r q s, t_val V [p; r; q; s] = t_val V [q; s; p; r]).
Proof.
  intros sd N restart r Hdone. subst r.
  unfold run_fci_driver, initial_world in Hdone |- *.
  rewrite fci_driver_decide in Hdone |- *. fold sd restart in Hdone |- *.
  destruct (wp_completed _ _ _
              (wp_after_decision_reconstruction rank hw sd opts restart _) Hdone)
    as (_ & _ & nc & C & Hmo & HsC & Hnew & Hold & Hexec & Hfile).
  exists nc, C, Hmo, (full_v2_tensor N nc C).
  repeat split; try done.
  - by apply Hnew.
  - by apply Hnew.
  - intros p r' q s. simpl. rewrite !full_v2_val_unfold.
    apply fold_left_add_ext. intros c. apply mul_comm.
Qed.

(** ** The persist branch, over all runs *)

Lemma bind_extends {A B} P (m : M A) (k : A → M B) w :
  (∀ a, emits P (k a)) →
  ∃ evs, w_trace (final_world ((m ≫= k) w))
         = w_trace (final_world (m w)) ++ evs
         ∧ Forall P evs.
Proof.
  intros Hk. unfold mbind, M_bind, bind.
  destruct (m w) as [a w1|e w1]; simpl; [apply Hk|].
  exists []. by rewrite app_nil_r.
Qed.

Lemma bind_keeps {A B} I (m : M A) (k : A → M B) w :
  (∀ a, keeps I (k a)) →
  I (w_files (final_world (m w))) (w_dirs (final_world (m w))) →
  I (w_files (final_world ((m ≫= k) w))) (w_dirs (final_world ((m ≫= k) w))).
Proof.
  intros Hk. unfold mbind, M_bind, bind.
  destruct (m w) as [a w1|e w1]; simpl; [apply Hk|done].
Qed.

Lemma bind_leaves {A B} p (m : M A) (k : A → M B) w :
  (∀ a, leaves_file p (k a)) →
  w_files (final_world ((m ≫= k) w)) !! p = w_files (final_world (m w)) !! p.
Proof.
  intros Hk. unfold mbind, M_bind, bind.
  destruct (m w) as [a w1|e w1]; simpl; [apply Hk|done].
Qed.

Lemma f1file_not_files_dir sd : f1file sd ≠ files_dir sd.
Proof.
  unfold f1file, files_prefix. intros Heq.
  apply (f_equal String.length) in Heq. rewrite !length_append in Heq.
  simpl in Heq. lia.
Qed.

Lemma v2file_not_files_dir sd : v2file sd ≠ files_dir sd.
Proof.
  unfold v2file, files_prefix. intros Heq.
  apply (f_equal String.length) in Heq. rewrite !length_append in Heq.
  simpl in Heq. lia.
Qed.

Ltac outside_persist_events :=
  repeat (constructor;
          [repeat split; intros;
           first [discriminate
                 |intros [= Heq];
                  first [by apply f1file_not_files_dir in Heq
                        |by apply v2file_not_files_dir in Heq
                        |by apply fcidump_files_dir_differs in Heq]]|]);
  try constructor.

Lemma outside_persist_start rank fn sd f d :
  Forall (outside_persist sd) (prologue_events rank fn sd ++ decision_events sd f d).
Proof.
  unfold prologue_events, decision_events.
  destruct (rank =? 0)%nat, (readt _), (path_exists f d (f1file sd)); cbn;
    outside_persist_events.
Qed.

Lemma emits_outside_persist_tail hw sd opts nc :
  emits (outside_persist sd) (driver_tail hw sd opts nc).
Proof.
  unfold driver_tail, generate_fcidump. emits_walk.
  all: repeat split; intros; try discriminate.
  all: intros [= Heq]; by apply fcidump_files_dir_differs in Heq.
Qed.

Lemma emits_outside_persist rank hw sd opts restart :
  restart = true ∨ writet (ccsd_options (options_map sd)) = false →
  emits (outside_persist sd) (after_decision rank hw sd opts restart).
Proof.
  intros Hcase. unfold after_decision, checkpoint_branch.
  apply emits_bind; [by apply emits_cd_svd_driver|intros cd].
  apply emits_bind; [|intros _; apply emits_outside_persist_tail].
  destruct Hcase as [-> | ->].
  - by apply emits_restore_branch.
  - apply emits_if; [by apply emits_restore_branch|apply emits_ret].
Qed.

Lemma leaves_driver_tail p hw sd opts nc :
  fcid_file sd ≠ p → leaves_file p (driver_tail hw sd opts nc).
Proof. intros. unfold driver_tail, generate_fcidump. by leaves_walk. Qed.

(** The checkpoint directory is absent and cannot be made: the branch
    ends in [create_directories]. *)
Lemma persist_branch_blocked rank sd n f d l s t :
  path_exists f d (files_dir sd) = false →
  dir_blocked f d (files_dir sd) = true →
  persist_branch rank sd n (mkWorld f d l s t)
  = Err IOError
      (mkWorld f d l s
         (t ++ [EvExists (files_dir sd) false;
                EvCreateDirectories (files_dir sd)])).
Proof.
  intros Hfound Hblocked. unfold persist_branch.
  erewrite bind_ok_step by reflexivity. cbn. rewrite Hfound. cbn [negb].
  erewrite bind_err_step.
  2:{ unfold create_directories. cbn. rewrite Hblocked. reflexivity. }
  unfold add_event. cbn. by rewrite <- !app_assoc.
Qed.

(** In every other case the branch goes on to the write of the
    one-electron checkpoint, and the directory exists from then on. *)
Lemma persist_branch_free rank sd n f d l s t :
  let found := path_exists f d (files_dir sd) in
  let r := persist_branch rank sd n (mkWorld f d l s t) in
  found = true ∨ dir_blocked f d (files_dir sd) = false →
  ∃ post,
    w_trace (final_world r)
    = t ++ [EvExists (files_dir sd) found]
        ++ (if found then [] else [EvCreateDirectories (files_dir sd)])
        ++ EvWriteToDisk "d_f1" (f1file sd) :: post
    ∧ Forall (λ e, (∀ b, e ≠ EvExists (files_dir sd) b)
                   ∧ e ≠ EvCreateDirectories (files_dir sd)) post
    ∧ path_exists (w_files (final_world r)) (w_dirs (final_world r))
                  (files_dir sd) = true.
Proof.
  intros found r Hfree. subst r found. unfold persist_branch.
  erewrite bind_ok_step by reflexivity. cbn.
  destruct (path_exists f d (files_dir sd)) eqn:Hfound; cbn [negb].
  1: erewrite bind_ok_step by reflexivity.
  2: destruct Hfree as [?|Hfree]; [done|];
     erewrite bind_ok_step
       by (unfold create_directories; cbn; rewrite Hfree; reflexivity).
  all: match goal with
       | |- context [(write_to_disk ?n ?p ≫= ?k) ?w] =>
           assert (starts_with (EvWriteToDisk n p) (write_to_disk n p ≫= k))
             as Hstart
             by (apply starts_with_emits;
                 [apply starts_with_write_to_disk|intros ?; emits_walk; done]);
           destruct (Hstart w) as (post & Hpost);
           assert (emits (λ e, (∀ b, e ≠ EvExists (files_dir sd) b)
                               ∧ e ≠ EvCreateDirectories (files_dir sd))
                         (write_to_disk n p ≫= k)) as Hem
             by (emits_walk; done);
           destruct (Hem w) as (evs & Hevs & HP);
           assert (keeps (λ f d, path_exists f d (files_dir sd) = true)
                         (write_to_disk n p ≫= k)) as Hkeep
             by (keeps_walk; intros ? ? ?;
                 first [apply path_exists_insert|apply path_exists_alter]);
           specialize (Hkeep w)
       end.
  all: rewrite Hpost in Hevs; apply app_inv_head in Hevs; subst evs.
  all: apply Forall_cons in HP as [_ HP].
  all: exists post; rewrite Hpost; cbn; rewrite <- ?app_assoc.
  all: split; [done|]; split; [exact HP|]; apply Hkeep; cbn.
  - exact Hfound.
  - apply path_exists_spec. right. left. apply elem_of_union_l.
    by apply elem_of_singleton.
Qed.

Lemma outside_persist_elem sd (l : list Event) e :
  Forall (outside_persist sd) l → e ∈ l → outside_persist sd e.
Proof. rewrite Forall_forall. auto. Qed.

(** C4. The persist branch.  The driver probes the checkpoint directory,
    the first thing the branch does, if and only if the write-checkpoint
    flag is set and the restart decision is negative.  When the directory
    is absent and cannot be made (a regular file stands where it or one
    of its parents should be), [create_directories] throws: the run ends
    there with an I/O error and has written nothing.  In every other case
    the branch goes on to write the one-electron checkpoint; the
    directory is created exactly when it was absent (a directory that is
    already there is not created again and does not make the run fail),
    and it exists when the run ends, however the run ends.  When the two
    tensor files can be written the branch runs to the barrier that
    follows it whether or not the directory existed, both tensors are on
    disk afterwards, on rank 0 the count file holds the vector count as
    its single line when it can be opened, on every other rank no event
    touches the count file and it is left as it was, and the run
    completes when the SCF stage's operator file is in place. *)
Theorem persist_branch_iff_writet rank hw fn opts files dirs locked :
  let sd := hartree_fock_driver fn opts in
  let AO := u_nao (upstream sd) in
  let nc := u_chol_count (upstream sd) in
  let r := run_fci_driver rank hw fn opts files dirs locked in
  let t := w_trace (final_world r) in
  let persist := writet (ccsd_options (options_map sd)) = true
                 ∧ restart_requested sd files dirs = false in
  let found := path_exists files dirs (files_dir sd) in
  let blocked := negb found && dir_blocked files dirs (files_dir sd) in
  let opened := negb (bool_decide (cholfile sd ∈ locked)) in
  let start := prologue_events rank fn sd ++ decision_events sd files dirs
               ++ [EvCdSvdDriver false (cholfile sd)] in
  ((∃ b, EvExists (files_dir sd) b ∈ t) ↔ persist)
  ∧ (EvWriteToDisk "d_f1" (f1file sd) ∈ t ↔ persist ∧ blocked = false)
  ∧ (persist → blocked = true →
     outcome r = Some IOError
     ∧ t = start ++ [EvExists (files_dir sd) false;
                     EvCreateDirectories (files_dir sd)]
     ∧ w_files (final_world r) = files
     ∧ w_dirs (final_world r) = dirs)
  ∧ (persist → blocked = false →
     (EvCreateDirectories (files_dir sd) ∈ t ↔ found = false)
     ∧ path_exists (w_files (final_world r)) (w_dirs (final_world r))
                   (files_dir sd) = true)
  ∧ (persist → blocked = false → f1file sd ∉ locked → v2file sd ∉ locked →
     (∃ post, t = start ++ persist_events rank sd found opened nc
                    ++ EvBarrier :: post)
     ∧ w_files (final_world r) !! f1file sd = Some (FTensor (computed_d_f1 sd))
     ∧ w_files (final_world r) !! v2file sd
       = Some (FTensor (computed_cholVpr sd))
     ∧ (rank = 0 → opened = true →
        w_files (final_world r) !! cholfile sd = Some (FText [show_nat nc]))
     ∧ (rank ≠ 0 →
        w_files (final_world r) !! cholfile sd = files !! cholfile sd
        ∧ Forall (λ e, touches (cholfile sd) e = false) t)
     ∧ (∀ H, files !! hcorefile sd = Some (FTensor H) → t_shape H = [AO; AO] →
             completed r = true)).
Proof.
  intros sd AO nc r t persist found blocked opened start.
  subst r t persist start.
  unfold run_fci_driver, initial_world. rewrite fci_driver_decide. fold sd.
  cbn [app].
  pose proof (outside_persist_start rank fn sd files dirs) as Hstart.
  destruct (writet (ccsd_options (options_map sd))) eqn:Hw,
    (restart_requested sd files dirs) eqn:Hreq.
  (* no persist branch *)
  1,3,4: match goal with
         | |- context [after_decision _ _ _ _ ?b ?w0] =>
             assert (b = true ∨ writet (ccsd_options (options_map sd)) = false)
               as Hcase by auto;
             destruct (emits_outside_persist rank hw sd opts b Hcase w0)
               as (evs & -> & Hevs)
         end.
  1-3: cbn [w_trace];
       assert (∀ e, e ∈ (prologue_events rank fn sd
                           ++ decision_events sd files dirs) ++ evs →
                    outside_persist sd e) as Hout
         by (intros e [Hin|Hin]%elem_of_app;
             [exact (outside_persist_elem _ _ _ Hstart Hin)
             |exact (outside_persist_elem _ _ _ Hevs Hin)]).
  1-3: split; [split; [intros [b Hin]; apply Hout in Hin as (Hin & _);
                         by destruct (Hin b)
                      |intros [? ?]; done]|].
  1-3: split; [split; [intros Hin; by apply Hout in Hin as (_ & _ & Hin)
                      |intros [[? ?] _]; done]|].
  1-3: split; [intros [? ?]; done|]; split; intros [? ?]; done.
  (* the persist branch *)
  unfold after_decision, checkpoint_branch. rewrite Hw.
  erewrite bind_ok_step by apply cd_svd_driver_compute.
  cbn [cd_chol_count cd_CI]. fold nc.
  set (s1 := <["lcao" := _]> _).
  set (t1 := (_ ++ _) ++ [EvCdSvdDriver false (cholfile sd)]).
  assert (Forall (outside_persist sd) t1) as Ht1.
  { apply Forall_app. split; [exact Hstart|]. outside_persist_events. }
  assert (t1 = prologue_events rank fn sd ++ decision_events sd files dirs
               ++ [EvCdSvdDriver false (cholfile sd)]) as Et1
    by (subst t1; by rewrite <- app_assoc).
  match goal with
  | |- context [(persist_branch rank sd nc ≫= ?k) ?w] =>
      assert (∀ H, files !! hcorefile sd = Some (FTensor H) →
                   t_shape H = [AO; AO] →
                   f1file sd ∉ locked → v2file sd ∉ locked →
                   completed ((persist_branch rank sd nc ≫= k) w) = true)
        as Hcomplete
  end.
  { intros H Hf HsH Hl1 Hl2.
    edestruct (persist_after_decision rank hw sd opts files dirs locked ∅
                 (prologue_events rank fn sd ++ decision_events sd files dirs))
      as (s' & Hdone); [exact Hw|exact Hl1|exact Hl2|exact Hf|exact HsH|].
    unfold after_decision, checkpoint_branch in Hdone. rewrite Hw in Hdone.
    erewrite bind_ok_step in Hdone by apply cd_svd_driver_compute.
    cbn [cd_chol_count cd_CI] in Hdone. fold nc s1 t1 in Hdone.
    by rewrite Hdone. }
  clearbody t1.
  destruct blocked eqn:Hblocked; subst blocked.
  - (* the directory cannot be made *)
    apply andb_true_iff in Hblocked as [Hfound%negb_true_iff Hway].
    erewrite bind_err_step by (by apply persist_branch_blocked).
    cbn [final_world w_trace w_files w_dirs outcome].
    split; [split; [done|]; intros _; exists false;
            rewrite !elem_of_app, !elem_of_cons; auto|].
    split.
    { split; [|intros [_ ?]; done]. intros Hin. exfalso.
      apply elem_of_app in Hin as [Hin|Hin].
      - by apply (outside_persist_elem _ _ _ Ht1) in Hin as (_ & _ & Hin).
      - rewrite !elem_of_cons, elem_of_nil in Hin.
        by destruct Hin as [?|[?|?]]. }
    split; [intros _ _; by rewrite Et1, <- !app_assoc|].
    split; intros _ ?; done.
  - (* the directory is there, or is made *)
    assert (found = true ∨ dir_blocked files dirs (files_dir sd) = false)
      as Hfree.
    { subst found. apply andb_false_iff in Hblocked as [?%negb_false_iff|?];
        auto. }
    destruct (persist_branch_free rank sd nc files dirs locked s1 t1 Hfree)
      as (post & Hpost & Hquiet & Hdir).
    destruct (bind_extends (outside_persist sd)
                (persist_branch rank sd nc)
                (λ _, driver_tail hw sd opts nc)
                (mkWorld files dirs locked s1 t1))
      as (evs & Hevs & Hout); [intros _; apply emits_outside_persist_tail|].
    fold found in Hpost.
    split; [split; [done|]; intros _; exists found; rewrite Hevs, Hpost;
            rewrite !elem_of_app, !elem_of_cons; auto 10|].
    split; [split; [done|]; intros _; rewrite Hevs, Hpost;
            rewrite !elem_of_app, !elem_of_cons; auto 10|].
    split; [intros _ ?; done|].
    split.
    { intros _ _. split.
      - rewrite Hevs, Hpost. split.
        + intros Hin. destruct found; [exfalso|done].
          rewrite !elem_of_app, !elem_of_cons, !elem_of_nil in Hin.
          destruct Hin as [[Hin|[[?|[]]|[[]|[?|Hin]]]]|Hin]; try done.
          * by apply (outside_persist_elem _ _ _ Ht1) in Hin as (_ & Hin & _).
          * rewrite Forall_forall in Hquiet. by apply Hquiet in Hin as [_ Hin].
          * by apply (outside_persist_elem _ _ _ Hout) in Hin as (_ & Hin & _).
        + intros ->. rewrite !elem_of_app, !elem_of_cons. auto 10.
      - apply (bind_keeps (λ f d, path_exists f d (files_dir sd) = true));
          [|exact Hdir].
        intros _. unfold driver_tail, generate_fcidump. keeps_walk.
        + intros ? ?. apply path_exists_mkdir.
        + intros ? ? ?. apply path_exists_insert. }
    intros _ _ Hl1 Hl2. clear Hpost Hquiet Hdir Hevs Hout evs post.
    pose proof (persist_branch_ok rank sd nc files dirs locked s1 t1
                  (computed_d_f1 sd) (computed_cholVpr sd)) as Hrun.
    cbv zeta in Hrun. fold found opened in Hrun.
    assert (s1 !! "d_f1" = Some (computed_d_f1 sd)) as HD
      by (subst s1; by store_lookup).
    assert (s1 !! "cholVpr" = Some (computed_cholVpr sd)) as HC
      by (subst s1; by store_lookup).
    specialize (Hrun HD HC Hl1 Hl2 Hfree).
    rewrite (bind_leaves (f1file sd)), (bind_leaves (v2file sd)),
      (bind_leaves (cholfile sd))
      by (intros _; apply leaves_driver_tail; paths_differ).
    destruct (bind_extends (λ e, touches (cholfile sd) e = false)
                (persist_branch rank sd nc)
                (λ _, driver_tail hw sd opts nc)
                (mkWorld files dirs locked s1 t1))
      as (evs & Hevs & Hout).
    { intros _. apply emits_driver_tail; try done; intros; cbn;
        by rewrite eqb_paths_differ by paths_differ. }
    assert (∃ post, evs = EvBarrier :: post) as (post & ->).
    { revert Hevs. unfold mbind at 1, M_bind, bind. rewrite Hrun.
      unfold driver_tail. erewrite bind_ok_step by reflexivity.
      match goal with
      | |- context [(allocate ?ts ≫= ?k) ?w] =>
          destruct (bind_extends (λ _, True) (allocate ts) k w) as (more & -> & _)
      end.
      { intros ?. unfold generate_fcidump. emits_walk; done. }
      unfold allocate, barrier, log, add_event, set_store.
      cbn [final_world w_trace]. rewrite <- !app_assoc. intros Heq.
      do 2 apply app_inv_head in Heq. subst evs. by eexists. }
    rewrite Hevs, Hrun.
    cbn [final_world w_trace w_files].
    split; [exists post; by rewrite Et1, <- !app_assoc|].
    split; [destruct ((rank =? 0)%nat && opened); by file_lookup|].
    split; [destruct ((rank =? 0)%nat && opened); by file_lookup|].
    split; [intros -> ->; cbn; by file_lookup|].
    split.
    { intros Hrank. destruct (Nat.eqb_spec rank 0) as [|_]; [done|].
      cbn [andb]. split; [by file_lookup|].
      apply Forall_app. split; [|exact Hout].
      apply Forall_app. split; [|by apply persist_events_other_ranks].
      destruct (common_events_leave_cholfile rank fn sd opts files dirs
                  0 0 0 hw false (zero_tensor []) (zero_tensor []))
        as [Hpre _].
      rewrite Et1, app_assoc. apply Forall_app. split; [exact Hpre|].
      repeat constructor. }
    intros H Hf HsH. by eapply Hcomplete.
Qed.

End Fci.

(** * A concrete job

    A restricted system with two basis functions and three Cholesky
    vectors over the integers, on which the statements above are
    exercised. *)
Module Example.

Definition options (r w : bool) : OptionsMap :=
  mkOptionsMap (mkCCSDOptions r w "sto-3g") (mkSCFOptions "restricted")
               (mkTaskOptions false).

Definition scf (_ : string) (o : OptionsMap) : SystemData :=
  mkSystemData o "h2o" 2 false 1 1.

Definition sd (r w : bool) : SystemData := scf "h2o.json" (options r w).

Definition mois (_ : SystemData) : nat := 2.

Definition lcao_val (idx : list nat) : Z :=
  match idx with [mu; z] => Z.of_nat (1 + mu + 2 * z) | _ => 0%Z end.
Definition d_f1_val (idx : list nat) : Z :=
  match idx with [p; q] => Z.of_nat (p + q) | _ => 0%Z end.
Definition chol_val (idx : list nat) : Z :=
  match idx with [p; r; c] => Z.of_nat (1 + p + 2 * r + 3 * c) | _ => 0%Z end.
Definition hcore_val (idx : list nat) : Z :=
  match idx with [mu; nu] => Z.of_nat (1 + mu * nu) | _ => 0%Z end.

Definition chol (_ : SystemData) : Upstream Z :=
  mkUpstream Z 2 lcao_val d_f1_val chol_val 3 5.

Definition hcore : Tensor Z := mkTensor Z [2; 2] hcore_val.

(** The file system the SCF stage leaves: the operator file only. *)
Definition scf_files : gmap string (Content Z) :=
  {[ hcorefile (sd false false) := FTensor Z hcore ]}.

(** The file system a persist run has left. *)
Definition checkpoint_files : gmap string (Content Z) :=
  <[cholfile (sd false false) := FText Z ["3"]]>
    (<[v2file (sd false false) := FTensor Z (mkTensor Z [2; 2; 3] chol_val)]>
       (<[f1file (sd false false) := FTensor Z (mkTensor Z [2; 2] d_f1_val)]>
          scf_files)).

Definition run (rank : nat) (r w : bool) (files : gmap string (Content Z))
    (locked : gset string) : Result Z unit :=
  run_fci_driver Z 0%Z Z.add Z.mul (seq 0) scf mois chol false
                 rank CPU "h2o.json" (options r w) files ∅ locked.

(** The directories the SCF stage has made for its output. *)
Definition scf_dirs : gset string :=
  {[ "h2o.sto-3g_files"; "h2o.sto-3g_files/restricted";
     "h2o.sto-3g_files/restricted/scf" ]}.

(** A disk on which a regular file stands where the job's output
    directory should be. *)
Definition blocked_files : gmap string (Content Z) :=
  {[ "h2o.sto-3g_files" := FText Z ["not a directory"] ]}.

Definition run_on (rank : nat) (r w : bool) (files : gmap string (Content Z))
    (dirs : gset string) : Result Z unit :=
  run_fci_driver Z 0%Z Z.add Z.mul (seq 0) scf mois chol false
                 rank CPU "h2o.json" (options r w) files dirs ∅.

Definition store : gmap string (Tensor Z) :=
  <["full_v2" := zero_tensor Z 0%Z [2; 2; 2; 2]]>
    (<["cholVpr" := mkTensor Z [2; 2; 3] chol_val]> ∅).

Definition export_world : World Z :=
  mkWorld Z scf_files ∅ ∅
    (<["lcao" := mkTensor Z [2; 2] lcao_val]> store) [].

End Example.

Lemma full_v2_exchange_symmetry_witness :
  completed Z (Example.run_on 0 false false Example.scf_files Example.scf_dirs)
  = true
  ∧ ∃ Hmo V,
      w_files Z (final_world Z
        (Example.run_on 0 false false Example.scf_files Example.scf_dirs))
      !! fcid_file (Example.sd false false)
      = Some (FFcidump Z (Example.sd false false) Hmo V [1%Z; 1%Z])
      ∧ t_val Z V [0; 1; 1; 0] = 108%Z
      ∧ t_val Z V [1; 0; 0; 1] = 108%Z.
Proof.
  assert (completed Z
            (Example.run_on 0 false false Example.scf_files Example.scf_dirs)
          = true) as Hdone by (vm_compute; reflexivity).
  split; [exact Hdone|].
  destruct (full_v2_exchange_symmetry Z 0%Z Z.add Z.mul (seq 0) Example.scf
              Example.mois Example.chol false Z.mul_comm 0 CPU "h2o.json"
              (Example.options false false) Example.scf_files Example.scf_dirs ∅
              Hdone)
    as (nc & C & Hmo & V & _ & Hnew & _ & _ & Hfile & _ & Hsum & Hsym).
  destruct Hnew as [-> ->]; [vm_compute; reflexivity|].
  exists Hmo, V. split; [exact Hfile|].
  rewrite <- (Hsym 0 1 1 0). split; rewrite Hsum; vm_compute; reflexivity.
Defined.

Lemma generate_fcidump_rotation_witness :
  ∃ w' Hmo,
    generate_fcidump Z 0%Z Z.add Z.mul (seq 0) (Example.sd false false) 2 CPU
                     Example.export_world
    = Ok Z (fcidump_files_prefix (Example.sd false false)) w'
    ∧ w_files Z w' !! fcid_file (Example.sd false false)
      = Some (FFcidump Z (Example.sd false false) Hmo
                (zero_tensor Z 0%Z [2; 2; 2; 2]) [1%Z; 1%Z])
    ∧ t_val Z Hmo [0; 1] = 29%Z
    ∧ w_store Z w' !! "tmp" = None.
Proof.
  destruct (generate_fcidump_rotation Z 0%Z Z.add Z.mul (seq 0)
              (Example.sd false false) 2 2 CPU Example.scf_files ∅ ∅
              (<["lcao" := mkTensor Z [2; 2] Example.lcao_val]> Example.store) []
              (mkTensor Z [2; 2] Example.lcao_val)
              (zero_tensor Z 0%Z [2; 2; 2; 2]) Example.hcore)
    as (w' & Hmo & Tmp & found & Hrun & _ & _ & _ & Hprod & Hfile & _ & _ & Htmp & _);
    [reflexivity..|].
  exists w', Hmo. split; [exact Hrun|]. split; [exact Hfile|].
  split; [rewrite Hprod; reflexivity|exact Htmp].
Defined.

Lemma restore_branch_iff_restart_witness :
  completed Z (Example.run 1 true false Example.checkpoint_files ∅) = true
  ∧ ∃ post,
      w_trace Z (final_world Z (Example.run 1 true false Example.checkpoint_files ∅))
      = [EvHartreeFock Z "h2o.json";
         EvCdSvdDriver Z true (cholfile (Example.sd true false));
         EvReadCount Z (cholfile (Example.sd true false));
         EvReadFromDisk Z "d_f1" (f1file (Example.sd true false));
         EvReadFromDisk Z "cholVpr" (v2file (Example.sd true false));
         EvBarrier Z; EvBarrier Z] ++ post.
Proof.
  destruct (restore_branch_iff_restart Z 0%Z Z.add Z.mul (seq 0) Example.scf
              Example.mois Example.chol false 1 CPU "h2o.json"
              (Example.options true false) Example.checkpoint_files ∅ ∅)
    as (_ & _ & Hrun).
  destruct (Hrun (or_introl eq_refl) "3" [] 3
              (mkTensor Z [2; 2] Example.d_f1_val)
              (mkTensor Z [2; 2; 3] Example.chol_val) Example.hcore)
    as (found & Hmo & Hdone & Htrace);
    [vm_compute; reflexivity|reflexivity|vm_compute; reflexivity|reflexivity
    |vm_compute; reflexivity|reflexivity|vm_compute; reflexivity|reflexivity|].
  split; [exact Hdone|]. eexists. etransitivity; [exact Htrace|].
  reflexivity.
Defined.

Lemma persist_branch_iff_writet_witness :
  (completed Z (Example.run_on 0 false true Example.scf_files Example.scf_dirs)
   = true
   ∧ w_files Z (final_world Z
       (Example.run_on 0 false true Example.scf_files Example.scf_dirs))
     !! cholfile (Example.sd false true)
     = Some (FText Z ["3"]))
  ∧ (EvCreateDirectories Z (files_dir (Example.sd false true))
     ∈ w_trace Z (final_world Z (Example.run_on 0 false true ∅ ∅))
     ∧ w_files Z (final_world Z (Example.run_on 0 false true ∅ ∅))
       !! f1file (Example.sd false true)
       = Some (FTensor Z (mkTensor Z [2; 2] Example.d_f1_val)))
  ∧ outcome Z (Example.run_on 0 false true Example.blocked_files ∅)
    = Some IOError.
Proof.
  pose proof (λ files dirs,
    persist_branch_iff_writet Z 0%Z Z.add Z.mul (seq 0) Example.scf
      Example.mois Example.chol false 0 CPU "h2o.json"
      (Example.options false true) files dirs ∅) as Hrun.
  split; [|split].
  - destruct (Hrun Example.scf_files Example.scf_dirs)
      as (_ & _ & _ & _ & Hbranch).
    destruct Hbranch as (_ & _ & _ & Hcount & _ & Hdone);
      [split; [reflexivity|vm_compute; reflexivity]|vm_compute; reflexivity
      |apply not_elem_of_empty|apply not_elem_of_empty|].
    split; [|by apply Hcount].
    apply (Hdone Example.hcore); [vm_compute; reflexivity|reflexivity].
  - destruct (Hrun ∅ ∅) as (_ & _ & _ & Hdir & Hbranch).
    assert (writet (ccsd_options (options_map (Example.sd false true))) = true
            ∧ restart_requested Z (Example.sd false true) ∅ ∅ = false)
      as Hpersist by (split; [reflexivity|vm_compute; reflexivity]).
    split.
    + apply Hdir; [exact Hpersist|vm_compute; reflexivity
                  |vm_compute; reflexivity].
    + apply Hbranch; [exact Hpersist|vm_compute; reflexivity
                     |apply not_elem_of_empty|apply not_elem_of_empty].
  - destruct (Hrun Example.blocked_files ∅) as (_ & _ & Hblocked & _).
    apply Hblocked; [split; [reflexivity|vm_compute; reflexivity]
                    |vm_compute; reflexivity].
Defined.

Lemma restart_equivalence_witness :
  ∃ w1 w2 w3 H1 V2 sv,
    Example.run 0 false true Example.scf_files ∅ = Ok Z () w1
    ∧ run_fci_driver Z 0%Z Z.add Z.mul (seq 0) Example.scf Example.mois
        Example.chol false 1 CPU "h2o.json" (Example.options true false)
        (w_files Z w1) (w_dirs Z w1) (w_locked Z w1)
      = Ok Z () w2
    ∧ Example.run 1 false false Example.scf_files ∅ = Ok Z () w3
    ∧ w_files Z w2 !! fcid_file (Example.sd true false)
      = Some (FFcidump Z (Example.sd true false) H1 V2 sv)
    ∧ w_files Z w3 !! fcid_file (Example.sd false false)
      = Some (FFcidump Z (Example.sd false false) H1 V2 sv).
Proof.
  destruct (restart_equivalence Z 0%Z Z.add Z.mul (seq 0) Example.scf
              Example.mois Example.chol false 1 CPU "h2o.json"
              (Example.options false true) (Example.options true false)
              (Example.options false false) Example.scf_files ∅ ∅ Example.hcore)
    as (w1 & w2 & w3 & H1 & V2 & sv & R1 & R2 & R3 & _ & F2 & F3 & _);
    [by repeat split|by repeat split|reflexivity|reflexivity|reflexivity
    |reflexivity|reflexivity|left; vm_compute; reflexivity
    |apply not_elem_of_empty|apply not_elem_of_empty|apply not_elem_of_empty
    |vm_compute; reflexivity|reflexivity|].
  exists w1, w2, w3, H1, V2, sv. by repeat split.
Defined.

Lemma restore_without_checkpoint_fails_witness :
  ∃ e w',
    Example.run 0 true false Example.scf_files ∅ = Err Z e w'
    ∧ (e = IOError ∨ e = ConfigurationError)
    ∧ w_files Z w' = Example.scf_files.
Proof.
  destruct (restore_without_checkpoint_fails Z 0%Z Z.add Z.mul (seq 0)
              Example.scf Example.mois Example.chol false 0 CPU "h2o.json"
              (Example.options true false) Example.scf_files ∅ ∅)
    as (e & w' & Hrun & He & _ & Hfiles);
    [reflexivity|vm_compute; reflexivity|vm_compute; reflexivity|].
  by exists e, w'.
Defined.

Lemma count_file_open_failure_is_logged_witness :
  completed Z (Example.run 0 false true Example.scf_files
                 {[cholfile (Example.sd false true)]}) = true
  ∧ completed Z (Example.run 1 false true Example.scf_files
                   {[cholfile (Example.sd false true)]}) = true
  ∧ w_files Z (final_world Z (Example.run 0 false true Example.scf_files
                                {[cholfile (Example.sd false true)]}))
    !! cholfile (Example.sd false true) = None.
Proof.
  pose proof (λ rank,
    count_file_open_failure_is_logged Z 0%Z Z.add Z.mul (seq 0) Example.scf
      Example.mois Example.chol false rank CPU "h2o.json"
      (Example.options false true) Example.scf_files ∅
      {[cholfile (Example.sd false true)]} Example.hcore) as Hrun.
  assert (f1file (Example.sd false true)
          ∉ ({[cholfile (Example.sd false true)]} : gset string)) as Hl1.
  { rewrite elem_of_singleton. intros Heq. vm_compute in Heq. discriminate. }
  assert (v2file (Example.sd false true)
          ∉ ({[cholfile (Example.sd false true)]} : gset string)) as Hl2.
  { rewrite elem_of_singleton. intros Heq. vm_compute in Heq. discriminate. }
  assert (cholfile (Example.sd false true)
          ∈ ({[cholfile (Example.sd false true)]} : gset string)) as Hl3.
  { by rewrite elem_of_singleton. }
  assert (restart_requested Z (Example.sd false true) Example.scf_files ∅ = false)
    as Hreq by (vm_compute; reflexivity).
  assert (Example.scf_files !! hcorefile (Example.sd false true)
          = Some (FTensor Z Example.hcore)) as Hf by (vm_compute; reflexivity).
  destruct (Hrun 0) as (? & ? & ? & Hdone0 & _ & Hcount);
    [reflexivity|exact Hreq|exact Hl1|exact Hl2|exact Hl3|exact Hf|reflexivity|].
  destruct (Hrun 1) as (? & ? & ? & Hdone1 & _);
    [reflexivity|exact Hreq|exact Hl1|exact Hl2|exact Hl3|exact Hf|reflexivity|].
  split; [exact Hdone0|]. split; [exact Hdone1|].
  etransitivity; [exact Hcount|]. vm_compute. reflexivity.
Defined.

(** C7, as first stated, fails on this job: the count file cannot be
    opened in the persist branch, and yet the run of the writer (rank 0)
    and the run of another process (rank 1) both complete instead of
    aborting. *)
Lemma count_file_open_failure_does_not_abort :
  writet (ccsd_options (options_map (Example.sd false true))) = true
  ∧ bool_decide (cholfile (Example.sd false true)
                 ∈ ({[cholfile (Example.sd false true)]} : gset string)) = true
  ∧ completed Z (Example.run 0 false true Example.scf_files
                   {[cholfile (Example.sd false true)]}) = true
  ∧ completed Z (Example.run 1 false true Example.scf_files
                   {[cholfile (Example.sd false true)]}) = true.
Proof. vm_compute. by repeat split. Qed.

Lemma ephemeral_run_no_checkpoint_io_witness :
  Forall (λ e, checkpoint_io Z (Example.sd false false) e = false)
         (w_trace Z (final_world Z (Example.run 0 false false Example.scf_files ∅)))
  ∧ completed Z (Example.run 0 false false Example.scf_files ∅) = true.
Proof.
  destruct (ephemeral_run_no_checkpoint_io Z 0%Z Z.add Z.mul (seq 0) Example.scf
              Example.mois Example.chol false 0 CPU "h2o.json"
              (Example.options false false) Example.scf_files ∅ ∅)
    as (Hio & _ & _ & _ & Hrun);
    [reflexivity|reflexivity|left; vm_compute; reflexivity|].
  split; [exact Hio|].
  destruct (Hrun Example.hcore) as (? & ? & ? & Hdone & _);
    [vm_compute; reflexivity|reflexivity|exact Hdone].
Defined.

Lemma hcore_read_precedes_rotation_witness :
  completed Z (Example.run 0 false false Example.scf_files ∅) = true
  ∧ ∃ H, Example.scf_files !! hcorefile (Example.sd false false)
         = Some (FTensor Z H).
Proof.
  destruct (hcore_read_precedes_rotation Z 0%Z Z.add Z.mul (seq 0) Example.scf
              Example.mois Example.chol false 0 CPU "h2o.json"
              (Example.options false false) Example.scf_files ∅ ∅ 2
              Example.scf_files ∅ ∅ Example.store [])
    as (_ & _ & _ & _ & _ & Hneeds).
  assert (completed Z (Example.run 0 false false Example.scf_files ∅) = true)
    as Hdone by (vm_compute; reflexivity).
  split; [exact Hdone|]. exact (Hneeds Hdone).
Defined.

Lemma restart_run_reads_checkpoint_only_witness :
  w_files Z (final_world Z (Example.run 1 true false Example.checkpoint_files ∅))
    !! cholfile (Example.sd true false)
  = Example.checkpoint_files !! cholfile (Example.sd true false).
Proof.
  destruct (restart_run_reads_checkpoint_only Z 0%Z Z.add Z.mul (seq 0)
              Example.scf Example.mois Example.chol false 1 CPU "h2o.json"
              (Example.options true false) Example.checkpoint_files ∅ ∅)
    as (_ & _ & Hchol & _); [reflexivity|exact Hchol].
Defined.

Lemma generate_fcidump_contract_witness :
  ∃ w',
    generate_fcidump Z 0%Z Z.add Z.mul (seq 0) (Example.sd false false) 2 CPU
                     Example.export_world
    = Ok Z (fcidump_files_prefix (Example.sd false false)) w'
    ∧ w_store Z w' !! "hcore_mo" = None
    ∧ w_store Z w' !! "lcao" = Some (mkTensor Z [2; 2] Example.lcao_val).
Proof.
  destruct (generate_fcidump Z 0%Z Z.add Z.mul (seq 0) (Example.sd false false)
              2 CPU Example.export_world) as [p w'|e w'] eqn:Hrun;
    [|vm_compute in Hrun; discriminate Hrun].
  destruct (generate_fcidump_contract Z 0%Z Z.add Z.mul (seq 0)
              (Example.sd false false) 2 CPU Example.export_world p w' Hrun)
    as (-> & _ & _ & Hstore).
  exists w'. split; [reflexivity|]. split.
  - apply (Hstore "hcore_mo").
  - rewrite (Hstore "lcao"). vm_compute. reflexivity.
Defined.

Lemma fci_driver_frees_its_tensors_witness :
  w_store Z (final_world Z (Example.run 0 false true Example.scf_files ∅))
    !! "full_v2" = None.
Proof.
  apply (fci_driver_frees_its_tensors Z 0%Z Z.add Z.mul (seq 0) Example.scf
           Example.mois Example.chol false 0 CPU "h2o.json"
           (Example.options false true)
           (initial_world Z Example.scf_files ∅ ∅));
    [vm_compute; reflexivity|].
  apply (bool_decide_unpack _). vm_compute. exact I.
Defined.

Lemma completed_run_pipeline_witness :
  select Z (is_barrier Z)
    (w_trace Z (final_world Z (Example.run 1 true false Example.checkpoint_files ∅)))
  = [EvBarrier Z; EvBarrier Z]
  ∧ select Z (is_macis Z)
      (w_trace Z (final_world Z (Example.run 1 true false Example.checkpoint_files ∅)))
    = [].
Proof.
  destruct (completed_run_pipeline Z 0%Z Z.add Z.mul (seq 0) Example.scf
              Example.mois Example.chol false 1 CPU "h2o.json"
              (Example.options true false) Example.checkpoint_files ∅ ∅)
    as (_ & Hb & Hm & _); [vm_compute; reflexivity|].
  split; [exact Hb|exact Hm].
Defined.

Lemma checkpoint_written_once_witness :
  restart_requested Z (Example.sd false true)
    (w_files Z (final_world Z (Example.run 0 false true Example.scf_files ∅)))
    (w_dirs Z (final_world Z (Example.run 0 false true Example.scf_files ∅)))
  = true.
Proof.
  destruct (checkpoint_written_once Z 0%Z Z.add Z.mul (seq 0) Example.scf
              Example.mois Example.chol false 0 CPU "h2o.json"
              (Example.options false true) Example.scf_files ∅ ∅
              1 CPU "h2o.json" (Example.options false true))
    as (_ & Hreq & _);
    [reflexivity|vm_compute; reflexivity|vm_compute; reflexivity
    |reflexivity|reflexivity|reflexivity|exact Hreq].
Defined.

Lemma no_export_no_dump_witness :
  w_files Z (final_world Z (Example.run 0 true false Example.scf_files ∅))
    !! fcid_file (Example.sd true false)
  = None
  ∧ ∃ H V,
      select Z (is_export Z)
        (w_trace Z (final_world Z
           (Example.run_on 0 false false Example.scf_files Example.scf_dirs)))
      = [EvWriteFcidump Z (fcid_file (Example.sd false false))
           (Example.sd false false) H V [1%Z; 1%Z]].
Proof.
  split.
  - destruct (no_export_no_dump Z 0%Z Z.add Z.mul (seq 0) Example.scf
                Example.mois Example.chol false 0 CPU "h2o.json"
                (Example.options true false) Example.scf_files ∅ ∅)
      as (Hnone & _).
    destruct Hnone as (Hf & _); [vm_compute; reflexivity|].
    etransitivity; [exact Hf|vm_compute; reflexivity].
  - destruct (no_export_no_dump Z 0%Z Z.add Z.mul (seq 0) Example.scf
                Example.mois Example.chol false 0 CPU "h2o.json"
                (Example.options false false) Example.scf_files
                Example.scf_dirs ∅)
      as (_ & Hdone).
    apply Hdone. vm_compute. reflexivity.
Defined.

Lemma fci_driver_never_deletes_witness :
  path_exists Z
    (w_files Z (final_world Z (Example.run 0 false true Example.scf_files ∅)))
    (w_dirs Z (final_world Z (Example.run 0 false true Example.scf_files ∅)))
    (hcorefile (Example.sd false true))
  = true.
Proof.
  apply (fci_driver_never_deletes Z 0%Z Z.add Z.mul (seq 0) Example.scf
           Example.mois Example.chol false 0 CPU "h2o.json"
           (Example.options false true) Example.scf_files ∅ ∅
           (hcorefile (Example.sd false true))).
  vm_compute. reflexivity.
Defined.


Lemma symvec_length_and_values_witness :
  length (symvec (Example.sd false false)) = 2
  ∧ ∃ H V,
      select Z (is_export Z)
        (w_trace Z (final_world Z
           (generate_fcidump Z 0%Z Z.add Z.mul (seq 0) (Example.sd false false)
              2 CPU Example.export_world)))
      = [EvWriteFcidump Z (fcid_file (Example.sd false false))
           (Example.sd false false) H V [1%Z; 1%Z]].
Proof.
  destruct (symvec_length_and_values Z 0%Z Z.add Z.mul (seq 0)
              (Example.sd false false) 2 CPU)
    as (Hlen & _ & _ & Hcall).
  split; [exact Hlen|].
  destruct (Hcall Example.export_world) as (H & V & Hsel & _);
    [vm_compute; reflexivity|].
  exists H, V. exact Hsel.
Defined.

Lemma fci_driver_disk_footprint_witness :
  path_exists Z
    (w_files Z (final_world Z (Example.run_on 0 false true ∅ ∅)))
    (w_dirs Z (final_world Z (Example.run_on 0 false true ∅ ∅)))
    "h2o.sto-3g_files"
  = true
  ∧ Paths.inside "h2o.sto-3g_files" (files_dir (Example.sd false true)) = true.
Proof.
  destruct (fci_driver_disk_footprint Z 0%Z Z.add Z.mul (seq 0) Example.scf
              Example.mois Example.chol false 0 CPU "h2o.json"
              (Example.options false true) ∅ ∅ ∅)
    as (_ & _ & Hnew).
  assert (path_exists Z
            (w_files Z (final_world Z (Example.run_on 0 false true ∅ ∅)))
            (w_dirs Z (final_world Z (Example.run_on 0 false true ∅ ∅)))
            "h2o.sto-3g_files" = true) as Hparent
    by (vm_compute; reflexivity).
  split; [exact Hparent|].
  destruct (Hnew _ Hparent) as [Hold|_]; [vm_compute in Hold; discriminate Hold|].
  vm_compute. reflexivity.
Defined.

